(** * options-publisher: message composition, expiry date and dispatch gate

  A shallow embedding of the trade-alert composer
  ([app/telegram/page.js]) and of the dispatch handler
  ([app/api/sendMessage/route.js]), followed by the properties the
  specification states about them and by further properties of the page,
  of its forms and of the handler.

  Conventions.  JavaScript strings are [string] (the code only builds
  and compares them).  JavaScript numbers are IEEE-754 binary64 values,
  [spec_float] with precision 53 and maximal exponent 1024.  [null] and
  [undefined] results of lookups are [None].  Promises are modelled by
  their [outcome]: resolved with a value or rejected with an error
  message. *)

From Stdlib Require Import ZArith NArith List String Ascii Bool Lia.
From Stdlib Require Import DecimalString DecimalPos DecimalN.
From Stdlib Require Import Floats.SpecFloat Zpower.
Import ListNotations.

Set Warnings "-register-all".

Open Scope string_scope.
Open Scope Z_scope.

(** ** JavaScript strings *)

Module JSString.

Definition LF : string := String (ascii_of_nat 10) EmptyString.
Definition DQUOTE : string := String (ascii_of_nat 34) EmptyString.

(** [WhiteSpace] and [LineTerminator] code units below 256. *)
Definition isWhiteSpaceChar (c : ascii) : bool :=
  existsb (Nat.eqb (nat_of_ascii c)) [9; 10; 11; 12; 13; 32; 160]%nat.

Fixpoint trimStart (s : string) : string :=
  match s with
  | EmptyString => EmptyString
  | String c s' => if isWhiteSpaceChar c then trimStart s' else s
  end.

Fixpoint trimEnd (s : string) : string :=
  match s with
  | EmptyString => EmptyString
  | String c s' =>
      match trimEnd s' with
      | EmptyString =>
          if isWhiteSpaceChar c then EmptyString else String c EmptyString
      | t => String c t
      end
  end.

(** [String.prototype.trim] *)
Definition trim (s : string) : string := trimEnd (trimStart s).

(** [s.split(sep)] for a one-character separator: never the empty list. *)
Fixpoint split (sep : ascii) (s : string) : list string :=
  match s with
  | EmptyString => [EmptyString]
  | String c s' =>
      if Ascii.eqb c sep then EmptyString :: split sep s'
      else match split sep s' with
           | [] => [String c EmptyString]
           | w :: ws => String c w :: ws
           end
  end.

(** [arr.includes(x)] on an array of strings. *)
Definition includes (xs : list string) (x : string) : bool :=
  existsb (String.eqb x) xs.

(** [s.replace(c, "")] with a one-character pattern: only the first
    occurrence is removed. *)
Fixpoint removeFirst (c : ascii) (s : string) : string :=
  match s with
  | EmptyString => EmptyString
  | String a s' => if Ascii.eqb a c then s' else String a (removeFirst c s')
  end.

(** Truthiness of a string: every string but the empty one. *)
Definition truthy (s : string) : bool :=
  match s with EmptyString => false | _ => true end.

(** A string without its final character when that is a full stop. *)
Fixpoint stripTrailingDot (s : string) : string :=
  match s with
  | EmptyString => EmptyString
  | String c EmptyString =>
      if Ascii.eqb c "." then EmptyString else String c EmptyString
  | String c s' => String c (stripTrailingDot s')
  end.

Fixpoint noDot (s : string) : bool :=
  match s with
  | EmptyString => true
  | String c s' => negb (Ascii.eqb c ".") && noDot s'
  end.

(** No full stop but, possibly, a final one. *)
Fixpoint dotOnlyAtEnd (s : string) : bool :=
  match s with
  | EmptyString => true
  | String c s' =>
      if Ascii.eqb c "." then negb (truthy s') else dotOnlyAtEnd s'
  end.

(** Does the character occur in the string? *)
Fixpoint hasChar (c : ascii) (s : string) : bool :=
  match s with
  | EmptyString => false
  | String a s' => Ascii.eqb a c || hasChar c s'
  end.

End JSString.

(** ** The dispatch handler, [app/api/sendMessage/route.js] *)

Module SendMessage.
Import JSString.

Inductive outcome (A : Type) : Type :=
| Resolved (a : A)
| Rejected (message : string).
Arguments Resolved {A} a.
Arguments Rejected {A} message.

Definition bind {A B} (o : outcome A) (k : A -> outcome B) : outcome B :=
  match o with
  | Resolved a => k a
  | Rejected m => Rejected m
  end.

(** The session object of the identity provider. *)
Record User := { email : option string }.
Record Session := { user : option User }.

(** Values a parsed JSON body can be. *)
Inductive JSON : Type :=
| JNull
| JBool (b : bool)
| JNumber (x : spec_float)
| JString (s : string)
| JArray (items : list JSON)
| JObject (fields : list (string * JSON)).

(** [process.env] as far as the handler reads it. *)
Record Env := {
  AUTHORIZED_USERS : option string;
  TELEGRAM_BOT_TOKEN : option string;
  TELEGRAM_CHAT_ID : option string
}.

(** What the messaging API answers: [res.ok] and, from [res.json()],
    the [description] field of the answer. *)
Record TelegramResponse := {
  ok : bool;
  description : outcome (option string)
}.

(** Everything the handler reads from outside. *)
Record Request := {
  getServerSession : outcome (option Session);
  env : Env;
  json : outcome JSON;
  fetch : outcome TelegramResponse
}.

Inductive Body : Type :=
| ErrorBody (error : string)
| SuccessBody.

Record Response := { status : Z; body : Body }.

(** The outbound call of the handler: url, [chat_id] and [text]. *)
Record Forwarded := {
  url : string;
  chat_id : option string;
  text : JSON
}.

(** [session.user?.email], when truthy. *)
Definition sessionEmail (s : option Session) : option string :=
  match s with
  | None => None
  | Some s =>
      match user s with
      | None => None
      | Some u =>
          match email u with
          | Some e => if truthy e then Some e else None
          | None => None
          end
      end
  end.

(** [process.env.AUTHORIZED_USERS?.split(",").map((e) => e.trim()) || []] *)
Definition authorized (e : Env) : list string :=
  match AUTHORIZED_USERS e with
  | None => []
  | Some s => map trim (split "," s)
  end.

(** Property lookup on a parsed object: the last duplicate key wins. *)
Fixpoint lookup (k : string) (fields : list (string * JSON)) : option JSON :=
  match fields with
  | [] => None
  | (k', v) :: rest =>
      match lookup k rest with
      | Some v' => Some v'
      | None => if String.eqb k k' then Some v else None
      end
  end.

(** The [TypeError] of destructuring [null].  Its wording is the engine's;
    this is V8's, and nothing below depends on it. *)
Definition destructureError : string :=
  "Cannot destructure property 'message' of '(intermediate value)' as it is null.".

(** [const { message } = ...]: destructuring [null] throws, every other
    non-object has no such property. *)
Definition destructureMessage (v : JSON) : outcome (option JSON) :=
  match v with
  | JNull => Rejected destructureError
  | JObject fields => Resolved (lookup "message" fields)
  | _ => Resolved None
  end.

Definition isFalsyNumber (x : spec_float) : bool :=
  match x with
  | S754_zero _ | S754_nan => true
  | _ => false
  end.

(** [!message] *)
Definition falsy (m : option JSON) : bool :=
  match m with
  | None | Some JNull => true
  | Some (JBool b) => negb b
  | Some (JNumber x) => isFalsyNumber x
  | Some (JString s) => negb (truthy s)
  | Some (JArray _) | Some (JObject _) => false
  end.

Definition orUndefined (o : option string) : string :=
  match o with Some s => s | None => "undefined" end.

Definition respond (st : Z) (msg : string) : Response :=
  {| status := st; body := ErrorBody msg |}.

(** The [try] block: the calls made to the messaging API so far, and the
    response returned or the error thrown. *)
Definition POST_try (r : Request) : list Forwarded * outcome Response :=
  match getServerSession r with
  | Rejected m => ([], Rejected m)
  | Resolved session =>
      match sessionEmail session with
      | None => ([], Resolved (respond 401 "Unauthorized - not logged in"))
      | Some mail =>
          if negb (includes (authorized (env r)) mail)
          then ([], Resolved (respond 403 "Access denied"))
          else
            match bind (json r) destructureMessage with
            | Rejected m => ([], Rejected m)
            | Resolved message =>
                if falsy message
                then ([], Resolved (respond 400 "Message cannot be empty"))
                else
                  let botToken := TELEGRAM_BOT_TOKEN (env r) in
                  let chatId := TELEGRAM_CHAT_ID (env r) in
                  let telegramUrl :=
                    "https://api.telegram.org/bot" ++ orUndefined botToken
                      ++ "/sendMessage" in
                  let call :=
                    {| url := telegramUrl;
                       chat_id := chatId;
                       text := match message with
                               | Some m => m
                               | None => JNull
                               end |} in
                  ([call],
                   bind (fetch r) (fun res =>
                   bind (description res) (fun d =>
                     if negb (ok res)
                     then Rejected
                            (match d with
                             | Some s =>
                                 if truthy s then s
                                 else "Failed to send message"
                             | None => "Failed to send message"
                             end)
                     else Resolved {| status := 200; body := SuccessBody |})))
            end
      end
  end.

(** [POST]: the [catch] turns every thrown error into a 500 answer. *)
Definition POST (r : Request) : list Forwarded * Response :=
  let (calls, o) := POST_try r in
  match o with
  | Resolved resp => (calls, resp)
  | Rejected m => (calls, respond 500 m)
  end.

(** *** Sample requests *)

Definition signedIn (mail : string) : Session :=
  {| user := Some {| email := Some mail |} |}.

Definition sampleEnv : Env :=
  {| AUTHORIZED_USERS := Some "trader@example.com, desk@example.com";
     TELEGRAM_BOT_TOKEN := Some "TOKEN";
     TELEGRAM_CHAT_ID := Some "-1001" |}.

Definition delivered : outcome TelegramResponse :=
  Resolved {| ok := true; description := Resolved None |}.

(** A signed-in principal who is not on the whitelist. *)
Definition outsider : Request :=
  {| getServerSession := Resolved (Some (signedIn "eve@example.com"));
     env := sampleEnv;
     json := Resolved (JObject [("message", JString "BUY")]);
     fetch := delivered |}.

(** A whitelisted principal. *)
Definition insider (body : JSON) : Request :=
  {| getServerSession := Resolved (Some (signedIn "desk@example.com"));
     env := sampleEnv;
     json := Resolved body;
     fetch := delivered |}.

(** A deployment that sets no [AUTHORIZED_USERS]. *)
Definition unconfigured : Request :=
  {| getServerSession := Resolved (Some (signedIn "trader@example.com"));
     env := {| AUTHORIZED_USERS := None;
               TELEGRAM_BOT_TOKEN := Some "TOKEN";
               TELEGRAM_CHAT_ID := Some "-1001" |};
     json := Resolved (JObject [("message", JString "BUY")]);
     fetch := delivered |}.

(** A whitelisted principal whose message the messaging API refuses. *)
Definition refusing : Request :=
  {| getServerSession := Resolved (Some (signedIn "desk@example.com"));
     env := sampleEnv;
     json := Resolved (JObject [("message", JString "BUY")]);
     fetch := Resolved {| ok := false;
                          description :=
                            Resolved (Some "Bad Request: chat not found") |} |}.

(** A whitelisted principal whose request body is no JSON text:
    [req.json()] rejects. *)
Definition unparsable : Request :=
  {| getServerSession := Resolved (Some (signedIn "desk@example.com"));
     env := sampleEnv;
     json := Rejected "Unexpected end of JSON input";
     fetch := delivered |}.

(** A principal whose e-mail is that of a whitelisted one and a space. *)
Definition padded : Request :=
  {| getServerSession := Resolved (Some (signedIn "desk@example.com "));
     env := sampleEnv;
     json := Resolved (JObject [("message", JString "BUY")]);
     fetch := delivered |}.

End SendMessage.

(** ** JavaScript numbers

    Binary64 values with the conversions the composer uses:
    [Number(string)], [isFinite], [Number.isInteger], [+], [String(n)]
    and [n.toFixed(2)], after ECMA-262 (StringToNumber, Number::toString,
    Number.prototype.toFixed). *)

Module JSNumber.
Import JSString.

Definition prec : Z := 53.
Definition emax : Z := 1024.
Definition number : Type := spec_float.

(** An integer literal of the source, such as [5]. *)
Definition ofZ (z : Z) : number := binary_normalize prec emax z 0 false.

(** [x + y] *)
Definition add (x y : number) : number := SFadd prec emax x y.

(** The global [isFinite] on a number. *)
Definition isFinite (x : number) : bool :=
  match x with
  | S754_zero _ | S754_finite _ _ _ => true
  | S754_infinity _ | S754_nan => false
  end.

(** [Number.isInteger] *)
Definition isInteger (x : number) : bool :=
  match x with
  | S754_zero _ => true
  | S754_finite _ m e => (0 <=? e) || (Zpos m mod 2 ^ (- e) =? 0)
  | S754_infinity _ | S754_nan => false
  end.

(** The mathematical value of a finite number, truncated to an integer
    (exact when [isInteger] holds). *)
Definition truncate (x : number) : Z :=
  match x with
  | S754_finite s m e =>
      cond_Zopp s (if 0 <=? e then Zpos m * 2 ^ e else Zpos m / 2 ^ (- e))
  | _ => 0
  end.

(** [Number.isSafeInteger]: an integer of magnitude below [2^53]. *)
Definition isSafeInteger (x : number) : bool :=
  isInteger x && (Z.abs (truncate x) <? 2 ^ 53).

(** *** Decimal digits *)

Definition N_to_string (n : N) : string :=
  NilZero.string_of_uint (N.to_uint n).

Definition Z_to_string (z : Z) : string :=
  match z with
  | Zneg p => "-" ++ N_to_string (Npos p)
  | _ => N_to_string (Z.to_N z)
  end.

Fixpoint zeros (n : nat) : string :=
  match n with
  | O => EmptyString
  | S n' => String "0" (zeros n')
  end.

Definition isDigit (c : ascii) : bool :=
  let n := nat_of_ascii c in (48 <=? n)%nat && (n <=? 57)%nat.

Definition digitValue (radix : N) (c : ascii) : option N :=
  let n := N_of_ascii c in
  let v :=
    if (48 <=? n)%N && (n <=? 57)%N then Some (n - 48)%N
    else if (97 <=? n)%N && (n <=? 102)%N then Some (n - 87)%N
    else if (65 <=? n)%N && (n <=? 70)%N then Some (n - 55)%N
    else None in
  match v with
  | Some d => if (d <? radix)%N then Some d else None
  | None => None
  end.

(** The longest prefix of decimal digits, and what follows it. *)
Fixpoint spanDigits (s : string) : string * string :=
  match s with
  | EmptyString => (EmptyString, EmptyString)
  | String c s' =>
      if isDigit c
      then let (ds, rest) := spanDigits s' in (String c ds, rest)
      else (EmptyString, s)
  end.

(** The value of a string of digits in a radix; [None] on a foreign
    character. *)
Fixpoint digitsValue (radix : N) (acc : N) (s : string) : option N :=
  match s with
  | EmptyString => Some acc
  | String c s' =>
      match digitValue radix c with
      | Some d => digitsValue radix (acc * radix + d)%N s'
      | None => None
      end
  end.

Definition decimalValue (s : string) : N :=
  match digitsValue 10 0 s with Some n => n | None => 0%N end.

(** *** StringToNumber *)

(** [ExponentPart], optional, up to the end of the string. *)
Definition parseExponent (s : string) : option Z :=
  match s with
  | EmptyString => Some 0
  | String c r =>
      if Ascii.eqb c "e" || Ascii.eqb c "E" then
        let '(neg, r') :=
          match r with
          | String "+" r' => (false, r')
          | String "-" r' => (true, r')
          | _ => (false, r)
          end in
        let (ds, rest) := spanDigits r' in
        if truthy ds && negb (truthy rest)
        then Some (cond_Zopp neg (Z.of_N (decimalValue ds)))
        else None
      else None
  end.

(** [StrUnsignedDecimalLiteral] but [Infinity]: the digits as an integer
    and the power of ten that scales it. *)
Definition parseUnsignedDecimal (s : string) : option (N * Z) :=
  let (ip, r1) := spanDigits s in
  match r1 with
  | String "." r2 =>
      let (fp, r3) := spanDigits r2 in
      if negb (truthy ip) && negb (truthy fp) then None
      else
        match parseExponent r3 with
        | Some e =>
            Some (decimalValue (ip ++ fp), e - Z.of_nat (String.length fp))
        | None => None
        end
  | _ =>
      if negb (truthy ip) then None
      else
        match parseExponent r1 with
        | Some e => Some (decimalValue ip, e)
        | None => None
        end
  end.

(** [NonDecimalIntegerLiteral]: [0x], [0o] and [0b] literals. *)
Definition parseNonDecimal (s : string) : option N :=
  match s with
  | String "0" (String c ds) =>
      let radix :=
        if Ascii.eqb c "x" || Ascii.eqb c "X" then Some 16%N
        else if Ascii.eqb c "o" || Ascii.eqb c "O" then Some 8%N
        else if Ascii.eqb c "b" || Ascii.eqb c "B" then Some 2%N
        else None in
      match radix with
      | Some r => if truthy ds then digitsValue r 0 ds else None
      | None => None
      end
  | _ => None
  end.

(** The binary64 value nearest to [m * 10^e10], ties to even. *)
Definition roundDecimal (neg : bool) (m : N) (e10 : Z) : number :=
  match m with
  | N0 => S754_zero neg
  | Npos p =>
      if 0 <=? e10 then
        match Zpos p * 10 ^ e10 with
        | Zpos q => binary_round prec emax neg q 0
        | _ => S754_nan
        end
      else
        let den := 10 ^ (- e10) in
        let shift := Z.max 0 (64 + Z.log2 den - Z.log2 (Zpos p)) in
        let num := Zpos p * 2 ^ shift in
        let q := num / den in
        let r := num mod den in
        let loc :=
          if r =? 0 then loc_Exact else loc_Inexact (Z.compare (2 * r) den) in
        binary_round_aux prec emax neg q (- shift) loc
  end.

(** [Number(s)] on a string. *)
Definition StringToNumber (s : string) : number :=
  let t := trim s in
  if negb (truthy t) then S754_zero false
  else
    match parseNonDecimal t with
    | Some n => ofZ (Z.of_N n)
    | None =>
        let '(neg, u) :=
          match t with
          | String "+" u => (false, u)
          | String "-" u => (true, u)
          | _ => (false, t)
          end in
        if String.eqb u "Infinity" then S754_infinity neg
        else
          match parseUnsignedDecimal u with
          | Some (m, e) => roundDecimal neg m e
          | None => S754_nan
          end
    end.

(** *** Number::toString *)

(** The reals that round to a positive number [m * 2^e], as fractions over
    [Dn]: the value [Vn], the midpoints [Ln] and [Un] towards its
    neighbours, and whether the midpoints themselves round to it. *)
Record interval := {
  Vn : Z;
  Ln : Z;
  Un : Z;
  Dn : Z;
  closed : bool
}.

Definition roundingInterval (m : positive) (e : Z) : interval :=
  let boundary := (Zpos m =? 2 ^ 52) && (-1074 <? e) in
  let below := if boundary then 1 else 2 in
  if 0 <=? e then
    let u := 2 ^ e in
    {| Vn := 4 * Zpos m * u;
       Ln := 4 * Zpos m * u - below * u;
       Un := 4 * Zpos m * u + 2 * u;
       Dn := 4;
       closed := Z.even (Zpos m) |}
  else
    {| Vn := 4 * Zpos m;
       Ln := 4 * Zpos m - below;
       Un := 4 * Zpos m + 2;
       Dn := 4 * 2 ^ (- e);
       closed := Z.even (Zpos m) |}.

(** Does [cn / cd] round to the number of the interval? *)
Definition inInterval (iv : interval) (cn cd : Z) : bool :=
  if closed iv
  then (Ln iv * cd <=? cn * Dn iv) && (cn * Dn iv <=? Un iv * cd)
  else (Ln iv * cd <? cn * Dn iv) && (cn * Dn iv <? Un iv * cd).

(** For a value below one: the least [j >= 1] with [vn * 10^j >= dn]. *)
Fixpoint leadingZeros (fuel : nat) (vn dn j : Z) : Z :=
  match fuel with
  | O => j
  | S f => if dn <=? vn * 10 ^ j then j else leadingZeros f vn dn (j + 1)
  end.

(** The [n] with [10^(n-1) <= value < 10^n]. *)
Definition decimalExponent (iv : interval) : Z :=
  if Dn iv <=? Vn iv
  then Z.of_nat (String.length (Z_to_string (Vn iv / Dn iv)))
  else 1 - leadingZeros 400 (Vn iv) (Dn iv) 1.

(** The digits [s] and the exponent [n] of Number::toString: the least
    count [k] of digits such that [s * 10^(n-k)], with [s] of [k] digits,
    rounds to the number; of two such [s] the one nearer to the value. *)
Fixpoint shortest (fuel : nat) (iv : interval) (n0 k : Z) : Z * Z :=
  let sc := n0 - k in
  let '(tn, td) :=
    if 0 <=? sc then (Vn iv, Dn iv * 10 ^ sc)
    else (Vn iv * 10 ^ (- sc), Dn iv) in
  let lo := tn / td in
  let hi := lo + 1 in
  let cd := if 0 <=? sc then 1 else 10 ^ (- sc) in
  let cn := fun s => if 0 <=? sc then s * 10 ^ sc else s in
  let okLo := inInterval iv (cn lo) cd in
  let okHi := inInterval iv (cn hi) cd in
  match fuel with
  | O => (lo, n0)
  | S f =>
      if okLo || okHi then
        let nearerLo :=
          Z.abs (cn lo * Dn iv - Vn iv * cd)
            <=? Z.abs (cn hi * Dn iv - Vn iv * cd) in
        let s :=
          if okLo && okHi then (if nearerLo then lo else hi)
          else if okLo then lo else hi in
        if s =? 10 ^ k then (10 ^ (k - 1), n0 + 1) else (s, n0)
      else shortest f iv n0 (k + 1)
  end.

(** The text of a positive number from its digits and exponent. *)
Definition renderDigits (s n : Z) : string :=
  let ds := Z_to_string s in
  let k := Z.of_nat (String.length ds) in
  if (k <=? n) && (n <=? 21) then ds ++ zeros (Z.to_nat (n - k))
  else if (0 <? n) && (n <=? 21) then
    substring 0 (Z.to_nat n) ds ++ "."
      ++ substring (Z.to_nat n) (Z.to_nat (k - n)) ds
  else if (-6 <? n) && (n <=? 0) then "0." ++ zeros (Z.to_nat (- n)) ++ ds
  else
    let e := n - 1 in
    let exponent :=
      "e" ++ (if e <? 0 then "-" else "+") ++ Z_to_string (Z.abs e) in
    if k =? 1 then ds ++ exponent
    else substring 0 1 ds ++ "." ++ substring 1 (Z.to_nat (k - 1)) ds
           ++ exponent.

Definition positiveToString (m : positive) (e : Z) : string :=
  let iv := roundingInterval m e in
  let '(s, n) := shortest 17 iv (decimalExponent iv) 1 in
  renderDigits s n.

(** [String(x)].  A safe integer prints as its decimal expansion, which is
    what the shortest digits amount to for it. *)
Definition NumberToString (x : number) : string :=
  match x with
  | S754_nan => "NaN"
  | S754_zero _ => "0"
  | S754_infinity s => if s then "-Infinity" else "Infinity"
  | S754_finite s m e =>
      if isSafeInteger x then Z_to_string (truncate x)
      else (if s then "-" else EmptyString) ++ positiveToString m e
  end.

(** *** Number.prototype.toFixed *)

(** The integer [n] for which [n / 10^f - m * 2^e] is nearest to zero, the
    larger one of two. *)
Definition scaledRound (f : Z) (m : positive) (e : Z) : Z :=
  if 0 <=? e then Zpos m * 2 ^ e * 10 ^ f
  else (2 * Zpos m * 10 ^ f + 2 ^ (- e)) / (2 * 2 ^ (- e)).

(** [x.toFixed(f)] for [0 <= f <= 100]. *)
Definition toFixed (f : Z) (x : number) : string :=
  match x with
  | S754_nan | S754_infinity _ => NumberToString x
  | S754_zero _ =>
      if f =? 0 then "0" else "0." ++ zeros (Z.to_nat f)
  | S754_finite s m e =>
      let sign := if s then "-" else EmptyString in
      if 10 ^ 21 <=? Z.abs (truncate x)
      then sign ++ NumberToString (S754_finite false m e)
      else
        let ds := Z_to_string (scaledRound f m e) in
        if f =? 0 then sign ++ ds
        else
          let k := Z.of_nat (String.length ds) in
          let padded := if k <=? f then zeros (Z.to_nat (f + 1 - k)) ++ ds else ds in
          let k' := Z.of_nat (String.length padded) in
          sign ++ substring 0 (Z.to_nat (k' - f)) padded ++ "."
            ++ substring (Z.to_nat (k' - f)) (Z.to_nat f) padded
  end.

(** *** Shapes of numbers and of their texts *)

(** A finite number as rounding leaves it: a mantissa of at most 53 bits
    and an exponent of at most 971. *)
Definition wellFormed (x : number) : Prop :=
  match x with
  | S754_finite _ m e => Zpos m < 2 ^ 53 /\ e <= 971
  | _ => True
  end.

(** A finite number as rounding leaves it: above the least exponent the
    mantissa has all its 53 bits. *)
Definition normalized (x : number) : Prop :=
  match x with
  | S754_finite _ m e => -1074 < e -> 2 ^ 52 <= Zpos m
  | _ => True
  end.

(** After [k] shifts of a mantissa [M]: the quotient, and a remainder that
    is at least half the divisor once the round bit is set. *)
Definition shifted (M k : Z) (r : shr_record) : Prop :=
  exists rem,
    0 <= shr_m r
    /\ M = shr_m r * 2 ^ k + rem
    /\ 0 <= rem < 2 ^ k
    /\ (shr_r r = true -> 0 < k -> 2 ^ k <= 2 * rem).

Fixpoint allDigits (s : string) : bool :=
  match s with
  | EmptyString => true
  | String c s' => isDigit c && allDigits s'
  end.

Definition isIntegerLiteral (s : string) : bool :=
  match s with
  | String "-" r => truthy r && allDigits r
  | _ => truthy s && allDigits s
  end.

Fixpoint beforeDot (s : string) : string :=
  match s with
  | EmptyString => EmptyString
  | String c s' => if Ascii.eqb c "." then EmptyString else String c (beforeDot s')
  end.

Fixpoint afterDot (s : string) : option string :=
  match s with
  | EmptyString => None
  | String c s' => if Ascii.eqb c "." then Some s' else afterDot s'
  end.

Definition twoDecimals (s : string) : bool :=
  isIntegerLiteral (beforeDot s)
  && match afterDot s with
     | Some f => Nat.eqb (String.length f) 2 && allDigits f
     | None => false
     end.

(** Up to the first [e], and what follows it. *)
Fixpoint beforeExponent (s : string) : string :=
  match s with
  | EmptyString => EmptyString
  | String c s' =>
      if Ascii.eqb c "e" then EmptyString else String c (beforeExponent s')
  end.

Fixpoint afterExponent (s : string) : option string :=
  match s with
  | EmptyString => None
  | String c s' => if Ascii.eqb c "e" then Some s' else afterExponent s'
  end.

(** Exponent notation without sign: a digit, or a digit, a point and
    digits; then [e], a sign and the digits of the exponent. *)
Definition unsignedExponentNotation (u : string) : bool :=
  match beforeExponent u with
  | String d EmptyString => isDigit d
  | String d (String "." f) => isDigit d && truthy f && allDigits f
  | _ => false
  end
  && match afterExponent u with
     | Some (String sign x) =>
         (Ascii.eqb sign "+" || Ascii.eqb sign "-")
         && truthy x && allDigits x
     | _ => false
     end.

Definition isExponentNotation (s : string) : bool :=
  match s with
  | String "-" r => unsignedExponentNotation r
  | _ => unsignedExponentNotation s
  end.

(** The rendering of a side the specification words: an integer literal
    for a number without fractional part, two decimals for any other. *)
Definition renderedAsSpecified (n : number) (text : string) : bool :=
  if isInteger n then isIntegerLiteral text else twoDecimals text.

(** [x] is exactly the integer [v]. *)
Definition represents (x : number) (v : Z) : Prop :=
  match x with
  | S754_zero _ => v = 0
  | S754_finite s m e =>
      cond_Zopp s (Zpos m) * 2 ^ Z.max e 0 = v * 2 ^ Z.max (- e) 0
  | _ => False
  end.

(** The location of [r / d] in its unit interval. *)
Definition locate (r d : Z) : location :=
  if r =? 0 then loc_Exact else loc_Inexact (Z.compare (2 * r) d).

(** After [k] shifts of the mantissa [M] of [(M + r / d) * 2^e]: the
    quotient, and a remainder over [d * 2^k] that the round bit and the
    sticky bit locate. *)
Definition placed (M r d k : Z) (s : shr_record) : Prop :=
  exists rem,
    0 <= shr_m s
    /\ M * d + r = shr_m s * (d * 2 ^ k) + rem
    /\ 0 <= rem < d * 2 ^ k
    /\ (if shr_r s then d * 2 ^ k <= 2 * rem else 2 * rem < d * 2 ^ k)
    /\ (if shr_s s then rem <> 0 /\ 2 * rem <> d * 2 ^ k
        else rem = 0 \/ 2 * rem = d * 2 ^ k).

(** [x] is a positive normal number with a negative or zero exponent, and
    [ulps] halves of a unit in its last place at most separate it from
    [n / d]. *)
Definition approximates (x : number) (n d ulps : Z) : Prop :=
  match x with
  | S754_finite false m e =>
      e <= 0
      /\ 2 ^ 52 <= Zpos m < 2 ^ 53
      /\ 2 * Z.abs (Zpos m * d - n * 2 ^ (- e)) <= ulps * d
  | _ => False
  end.

End JSNumber.

(** ** JavaScript dates

    A [Date] is modelled by the local calendar day it falls on, counted
    from 1 January 1970; the time of day, which [setDate] keeps, plays no
    part in what the composer reads.  The day arithmetic is ECMA-262's
    (Day Number and Time within Day, Year Number, Month Number, Date
    Number, Week Day, MakeDay). *)

Module JSDate.
Import JSString JSNumber.

Definition Date : Type := Z.

Definition DaysInYear (y : Z) : Z :=
  if negb (y mod 4 =? 0) then 365
  else if negb (y mod 100 =? 0) then 366
  else if negb (y mod 400 =? 0) then 365
  else 366.

Definition DayFromYear (y : Z) : Z :=
  365 * (y - 1970) + (y - 1969) / 4 - (y - 1901) / 100 + (y - 1601) / 400.

(** The largest year that starts on or before day [t]. *)
Definition YearFromTime (t : Date) : Z :=
  let y := 1970 + t * 400 / 146097 in
  if t <? DayFromYear y then y - 1
  else if DayFromYear (y + 1) <=? t then y + 1
  else y.

Definition InLeapYear (t : Date) : Z :=
  if DaysInYear (YearFromTime t) =? 366 then 1 else 0.

Definition DayWithinYear (t : Date) : Z := t - DayFromYear (YearFromTime t).

(** The day within its year on which month [m] (0 to 11) starts. *)
Definition monthStart (leap m : Z) : Z :=
  if m =? 0 then 0
  else if m =? 1 then 31
  else if m =? 2 then 59 + leap
  else if m =? 3 then 90 + leap
  else if m =? 4 then 120 + leap
  else if m =? 5 then 151 + leap
  else if m =? 6 then 181 + leap
  else if m =? 7 then 212 + leap
  else if m =? 8 then 243 + leap
  else if m =? 9 then 273 + leap
  else if m =? 10 then 304 + leap
  else 334 + leap.

Definition MonthFromTime (t : Date) : Z :=
  let d := DayWithinYear t in
  let leap := InLeapYear t in
  if d <? 31 then 0
  else if d <? 59 + leap then 1
  else if d <? 90 + leap then 2
  else if d <? 120 + leap then 3
  else if d <? 151 + leap then 4
  else if d <? 181 + leap then 5
  else if d <? 212 + leap then 6
  else if d <? 243 + leap then 7
  else if d <? 273 + leap then 8
  else if d <? 304 + leap then 9
  else if d <? 334 + leap then 10
  else 11.

Definition DateFromTime (t : Date) : Z :=
  DayWithinYear t - monthStart (InLeapYear t) (MonthFromTime t) + 1.

(** 0 is Sunday; 1 January 1970 was a Thursday. *)
Definition WeekDay (t : Date) : Z := (t + 4) mod 7.

(** The day number of day [date] of month [month] of [year]; months and
    days out of range carry over. *)
Definition MakeDay (year month date : Z) : Z :=
  let ym := year + month / 12 in
  let mn := month mod 12 in
  let leap := if DaysInYear ym =? 366 then 1 else 0 in
  DayFromYear ym + monthStart leap mn + date - 1.

(** [d.getDay()], [d.getDate()], and the date [d.setDate(dt)] leaves in
    [d]. *)
Definition getDay (d : Date) : Z := WeekDay d.
Definition getDate (d : Date) : Z := DateFromTime d.
Definition setDate (d : Date) (dt : Z) : Date :=
  MakeDay (YearFromTime d) (MonthFromTime d) dt.

Definition twoDigit (n : Z) : string :=
  if n <? 10 then "0" ++ Z_to_string n else Z_to_string n.

(** Two characters, neither a full stop. *)
Definition twoDigitOk (n : nat) : bool :=
  let s := twoDigit (Z.of_nat n) in
  Nat.eqb (String.length s) 2 && noDot s.

Section Locale.

(** The abbreviated month names of the locale data the host formats
    [en-GB] dates with, by month number. *)
Variable monthShort : Z -> string.

(** [d.toLocaleDateString("en-GB", { day: "2-digit", month: "short" })] *)
Definition toLocaleDateString (d : Date) : string :=
  twoDigit (DateFromTime d) ++ " " ++ monthShort (MonthFromTime d).

End Locale.

(** The month names of [en-GB] as CLDR has them. *)
Definition enGB (m : Z) : string :=
  nth (Z.to_nat m)
    ["Jan"; "Feb"; "Mar"; "Apr"; "May"; "Jun";
     "Jul"; "Aug"; "Sept"; "Oct"; "Nov"; "Dec"] EmptyString.

End JSDate.

(** ** What the forms share *)

Inductive Action : Type := BUY | SELL | BOTH.
Inductive OptionType : Type := CE | PE.
Inductive Direction : Type := BULLISH | BEARISH.

(** What composing returns: the message, or [null] after [toast.error]
    has shown a validation message. *)
Inductive composed : Type :=
| Composed (message : string)
| Invalid (toast : string).

Definition optionText (t : OptionType) : string :=
  match t with CE => "CE" | PE => "PE" end.

Definition isBULLISH (d : Direction) : bool :=
  match d with BULLISH => true | BEARISH => false end.

(** The strikes the selects offer: 24000 to 50000 in steps of 50. *)
Definition strikes : list Z :=
  map (fun i => 24000 + Z.of_nat i * 50) (seq 0 521).

(** [`${strike}`]: a strike is one of the integers above. *)
Definition strikeText (strike : Z) : string := JSNumber.Z_to_string strike.

(** ** FreshTradeSection, [app/telegram/page.js] *)

Module FreshTrade.
Import JSString JSNumber JSDate.

Record State := {
  confirmMode : bool;
  preview : string;
  action : Action;
  strike : Z;
  optionType : OptionType;
  marketDirection : Direction;
  buyOptionType : OptionType;
  sellOptionType : OptionType;
  buyPrice : string;
  sellPrice : string;
  expiry : string;
  buyStopLoss : string;
  sellStopLoss : string
}.

(** The values of [useState]. *)
Definition initial : State := {|
  confirmMode := false;
  preview := EmptyString;
  action := BUY;
  strike := 24000;
  optionType := CE;
  marketDirection := BULLISH;
  buyOptionType := CE;
  sellOptionType := PE;
  buyPrice := EmptyString;
  sellPrice := EmptyString;
  expiry := EmptyString;
  buyStopLoss := EmptyString;
  sellStopLoss := EmptyString
|}.

(** *** The expiry effect *)

(** [(2 - day + 7) % 7 || 7] *)
Definition daysUntilTue (day : Z) : Z :=
  let r := Z.rem (2 - day + 7) 7 in
  if r =? 0 then 7 else r.

Definition nextTuesday (today : Date) : Date :=
  setDate today (getDate today + daysUntilTue (getDay today)).

(** The label [setExpiry] receives. *)
Definition expiryLabel (monthShort : Z -> string) (today : Date) : string :=
  let formatted := toLocaleDateString monthShort (nextTuesday today) in
  removeFirst "." formatted.

(** *** Utilities *)

Definition format (n : number) : string :=
  if isInteger n then NumberToString n else toFixed 2 n.

Definition getRangeText (val : string) : option string :=
  let low := StringToNumber val in
  if negb (isFinite low) then None
  else
    let high := add low (ofZ 5) in
    Some (format low ++ " - " ++ format high).

(** [!range] *)
Definition noRange (range : option string) : bool :=
  match range with
  | None => true
  | Some r => negb (truthy r)
  end.

Definition rangeText (range : option string) : string :=
  match range with Some r => r | None => "null" end.

(** One leg: ["<side>" <expiry> "Nifty <strike> <option>" between <range>] *)
Definition leg (side expiry : string) (strike : Z) (t : OptionType)
    (range : string) : string :=
  DQUOTE ++ side ++ DQUOTE ++ " " ++ expiry ++ " " ++ DQUOTE ++ "Nifty "
    ++ strikeText strike ++ " " ++ optionText t ++ DQUOTE ++ " between "
    ++ range.

Definition buildPreviewMessage (s : State) : composed :=
  match action s with
  | BUY =>
      let range := getRangeText (buyPrice s) in
      if noRange range then Invalid "Enter valid buy price"
      else
        let mainMsg :=
          "FRESH TRADE" ++ LF ++ LF
            ++ leg "BUY" (expiry s) (strike s) (optionType s) (rangeText range) in
        let stopLossMsg :=
          if truthy (buyStopLoss s)
          then LF ++ LF ++ "Stop loss for " ++ strikeText (strike s) ++ " "
                 ++ optionText (optionType s) ++ " is " ++ buyStopLoss s
          else EmptyString in
        Composed (mainMsg ++ stopLossMsg)
  | SELL =>
      let range := getRangeText (sellPrice s) in
      if noRange range then Invalid "Enter valid sell price"
      else
        let mainMsg :=
          "FRESH TRADE" ++ LF ++ LF
            ++ leg "SELL" (expiry s) (strike s) (optionType s) (rangeText range) in
        let stopLossMsg :=
          if truthy (sellStopLoss s)
          then LF ++ LF ++ "Stop loss for " ++ strikeText (strike s) ++ " "
                 ++ optionText (optionType s) ++ " is " ++ sellStopLoss s
          else EmptyString in
        Composed (mainMsg ++ stopLossMsg)
  | BOTH =>
      let buyRange := getRangeText (buyPrice s) in
      let sellRange := getRangeText (sellPrice s) in
      if noRange buyRange || noRange sellRange
      then Invalid "Enter both buy and sell prices"
      else
        let mainMsg :=
          "FRESH TRADE" ++ LF ++ LF
            ++ leg "BUY" (expiry s) (strike s) (buyOptionType s)
                 (rangeText buyRange) ++ LF
            ++ "AND" ++ LF
            ++ leg "SELL" (expiry s) (strike s) (sellOptionType s)
                 (rangeText sellRange) in
        let stopLossMsg :=
          if truthy (buyStopLoss s) && truthy (sellStopLoss s)
          then LF ++ LF ++ "Stop loss for " ++ strikeText (strike s) ++ " "
                 ++ optionText (buyOptionType s) ++ " is " ++ buyStopLoss s
                 ++ " and " ++ strikeText (strike s) ++ " "
                 ++ optionText (sellOptionType s) ++ " is " ++ sellStopLoss s
          else if truthy (buyStopLoss s) || truthy (sellStopLoss s)
          then LF ++ LF ++ "Stop loss for " ++ strikeText (strike s) ++ " "
                 ++ (if truthy (buyStopLoss s)
                     then optionText (buyOptionType s) ++ " is " ++ buyStopLoss s
                     else optionText (sellOptionType s) ++ " is "
                            ++ sellStopLoss s)
          else EmptyString in
        Composed (mainMsg ++ stopLossMsg)
  end.

(** *** The form as a transition system *)

Inductive Event : Type :=
| SetAction (a : Action)
| SetStrike (k : Z)
| SetOptionType (t : OptionType)
| SetMarketDirection (d : Direction)
| SetBuyPrice (v : string)
| SetSellPrice (v : string)
| SetBuyStopLoss (v : string)
| SetSellStopLoss (v : string)
| Submit
| Confirm
| Cancel
| ResetForms.

Definition setLegs (s : State) (b sl : OptionType) : State :=
  {| confirmMode := confirmMode s; preview := preview s; action := action s;
     strike := strike s; optionType := optionType s;
     marketDirection := marketDirection s;
     buyOptionType := b; sellOptionType := sl;
     buyPrice := buyPrice s; sellPrice := sellPrice s; expiry := expiry s;
     buyStopLoss := buyStopLoss s; sellStopLoss := sellStopLoss s |}.

(** The body of the effect on [[action, marketDirection]]. *)
Definition legsEffect (s : State) : State :=
  match action s with
  | BOTH =>
      if isBULLISH (marketDirection s) then setLegs s CE PE
      else setLegs s PE CE
  | _ => s
  end.

Definition handlePreview (s : State) : State :=
  match buildPreviewMessage s with
  | Invalid _ => s
  | Composed msg =>
      if negb (truthy msg) then s
      else
        {| confirmMode := true; preview := msg; action := action s;
           strike := strike s; optionType := optionType s;
           marketDirection := marketDirection s;
           buyOptionType := buyOptionType s;
           sellOptionType := sellOptionType s;
           buyPrice := buyPrice s; sellPrice := sellPrice s;
           expiry := expiry s;
           buyStopLoss := buyStopLoss s; sellStopLoss := sellStopLoss s |}
  end.

(** The state the handler of an event sets, before effects run. *)
Definition handle (s : State) (ev : Event) : State :=
  match ev with
  | SetAction a =>
      {| confirmMode := confirmMode s; preview := preview s; action := a;
         strike := strike s; optionType := optionType s;
         marketDirection := marketDirection s;
         buyOptionType := buyOptionType s; sellOptionType := sellOptionType s;
         buyPrice := buyPrice s; sellPrice := sellPrice s; expiry := expiry s;
         buyStopLoss := buyStopLoss s; sellStopLoss := sellStopLoss s |}
  | SetStrike k =>
      {| confirmMode := confirmMode s; preview := preview s; action := action s;
         strike := k; optionType := optionType s;
         marketDirection := marketDirection s;
         buyOptionType := buyOptionType s; sellOptionType := sellOptionType s;
         buyPrice := buyPrice s; sellPrice := sellPrice s; expiry := expiry s;
         buyStopLoss := buyStopLoss s; sellStopLoss := sellStopLoss s |}
  | SetOptionType t =>
      {| confirmMode := confirmMode s; preview := preview s; action := action s;
         strike := strike s; optionType := t;
         marketDirection := marketDirection s;
         buyOptionType := buyOptionType s; sellOptionType := sellOptionType s;
         buyPrice := buyPrice s; sellPrice := sellPrice s; expiry := expiry s;
         buyStopLoss := buyStopLoss s; sellStopLoss := sellStopLoss s |}
  | SetMarketDirection d =>
      {| confirmMode := confirmMode s; preview := preview s; action := action s;
         strike := strike s; optionType := optionType s;
         marketDirection := d;
         buyOptionType := buyOptionType s; sellOptionType := sellOptionType s;
         buyPrice := buyPrice s; sellPrice := sellPrice s; expiry := expiry s;
         buyStopLoss := buyStopLoss s; sellStopLoss := sellStopLoss s |}
  | SetBuyPrice v =>
      {| confirmMode := confirmMode s; preview := preview s; action := action s;
         strike := strike s; optionType := optionType s;
         marketDirection := marketDirection s;
         buyOptionType := buyOptionType s; sellOptionType := sellOptionType s;
         buyPrice := v; sellPrice := sellPrice s; expiry := expiry s;
         buyStopLoss := buyStopLoss s; sellStopLoss := sellStopLoss s |}
  | SetSellPrice v =>
      {| confirmMode := confirmMode s; preview := preview s; action := action s;
         strike := strike s; optionType := optionType s;
         marketDirection := marketDirection s;
         buyOptionType := buyOptionType s; sellOptionType := sellOptionType s;
         buyPrice := buyPrice s; sellPrice := v; expiry := expiry s;
         buyStopLoss := buyStopLoss s; sellStopLoss := sellStopLoss s |}
  | SetBuyStopLoss v =>
      {| confirmMode := confirmMode s; preview := preview s; action := action s;
         strike := strike s; optionType := optionType s;
         marketDirection := marketDirection s;
         buyOptionType := buyOptionType s; sellOptionType := sellOptionType s;
         buyPrice := buyPrice s; sellPrice := sellPrice s; expiry := expiry s;
         buyStopLoss := v; sellStopLoss := sellStopLoss s |}
  | SetSellStopLoss v =>
      {| confirmMode := confirmMode s; preview := preview s; action := action s;
         strike := strike s; optionType := optionType s;
         marketDirection := marketDirection s;
         buyOptionType := buyOptionType s; sellOptionType := sellOptionType s;
         buyPrice := buyPrice s; sellPrice := sellPrice s; expiry := expiry s;
         buyStopLoss := buyStopLoss s; sellStopLoss := v |}
  | Submit => handlePreview s
  | Confirm =>
      {| confirmMode := false; preview := EmptyString; action := action s;
         strike := strike s; optionType := optionType s;
         marketDirection := marketDirection s;
         buyOptionType := buyOptionType s; sellOptionType := sellOptionType s;
         buyPrice := buyPrice s; sellPrice := sellPrice s; expiry := expiry s;
         buyStopLoss := buyStopLoss s; sellStopLoss := sellStopLoss s |}
  | Cancel =>
      {| confirmMode := false; preview := preview s; action := action s;
         strike := strike s; optionType := optionType s;
         marketDirection := marketDirection s;
         buyOptionType := buyOptionType s; sellOptionType := sellOptionType s;
         buyPrice := buyPrice s; sellPrice := sellPrice s; expiry := expiry s;
         buyStopLoss := buyStopLoss s; sellStopLoss := sellStopLoss s |}
  | ResetForms =>
      {| confirmMode := false; preview := EmptyString; action := BUY;
         strike := 24000; optionType := CE; marketDirection := BULLISH;
         buyOptionType := CE; sellOptionType := PE;
         buyPrice := EmptyString; sellPrice := EmptyString;
         expiry := expiry s;
         buyStopLoss := EmptyString; sellStopLoss := EmptyString |}
  end.

Definition sameAction (a b : Action) : bool :=
  match a, b with
  | BUY, BUY | SELL, SELL | BOTH, BOTH => true
  | _, _ => false
  end.

Definition sameDirection (a b : Direction) : bool :=
  match a, b with
  | BULLISH, BULLISH | BEARISH, BEARISH => true
  | _, _ => false
  end.

(** One event: the handler, then the legs effect when one of its
    dependencies changed. *)
Definition step (s : State) (ev : Event) : State :=
  let s' := handle s ev in
  if sameAction (action s) (action s')
     && sameDirection (marketDirection s) (marketDirection s')
  then s'
  else legsEffect s'.

Definition setExpiry (s : State) (label : string) : State :=
  {| confirmMode := confirmMode s; preview := preview s; action := action s;
     strike := strike s; optionType := optionType s;
     marketDirection := marketDirection s;
     buyOptionType := buyOptionType s; sellOptionType := sellOptionType s;
     buyPrice := buyPrice s; sellPrice := sellPrice s; expiry := label;
     buyStopLoss := buyStopLoss s; sellStopLoss := sellStopLoss s |}.

(** The form after mounting on day [today]: both effects have run once. *)
Definition mounted (monthShort : Z -> string) (today : Date) : State :=
  legsEffect (setExpiry initial (expiryLabel monthShort today)).

(** The form after a sequence of events. *)
Definition run (s : State) (evs : list Event) : State := fold_left step evs s.

(** The leg a direction buys, and the one it sells. *)
Definition bought (d : Direction) : OptionType :=
  match d with BULLISH => CE | BEARISH => PE end.
Definition sold (d : Direction) : OptionType :=
  match d with BULLISH => PE | BEARISH => CE end.

(** The invariant of the form: the legs of a directional trade are those
    of its market direction. *)
Definition legsFollowDirection (s : State) : Prop :=
  action s = BOTH ->
  buyOptionType s = bought (marketDirection s)
  /\ sellOptionType s = sold (marketDirection s).

(** A sell leg whose stop loss is no number. *)
Definition sellWithOddStopLoss : State := {|
  confirmMode := false;
  preview := EmptyString;
  action := SELL;
  strike := 25000;
  optionType := PE;
  marketDirection := BULLISH;
  buyOptionType := CE;
  sellOptionType := PE;
  buyPrice := EmptyString;
  sellPrice := "210";
  expiry := "11 Nov";
  buyStopLoss := EmptyString;
  sellStopLoss := "about 1e2"
|}.

(** What an event hands to [onSend]: the preview, on Confirm & Send of the
    preview card, which is rendered in confirm mode only. *)
Definition onSend (s : State) (ev : Event) : option string :=
  match ev with
  | Confirm => if confirmMode s then Some (preview s) else None
  | _ => None
  end.

(** [k / 100] in decimal: its plain digits when it is whole, and with its
    two decimals otherwise. *)
Definition hundredths (k : Z) : string :=
  if k mod 100 =? 0 then Z_to_string (k / 100)
  else Z_to_string (k / 100) ++ "." ++ twoDigit (k mod 100).

End FreshTrade.

(** ** SquareOffSection, [app/telegram/page.js] *)

Module SquareOff.
Import JSString.

(** [exitMode] and [selectedOption] start as the empty string: [None]. *)
Record State := {
  exitMode : option Action;
  marketView : Direction;
  strike : Z;
  ceExit : string;
  peExit : string;
  singleExit : string;
  selectedOption : option OptionType;
  action : string;
  preview : string
}.

Definition squareOffTemplates : list (string * string) :=
  [ ("book100", "Modify stop loss and book 100% profit.");
    ("book50",
     "Modify stop loss and book 50% profit and now keep trailing stop loss at cost for remaining 50% qty.");
    ("trailprofit",
     "Trailing stop loss triggered. Modify stop loss and book profit for remaining 50% quantity.");
    ("trailclose", "Trailing stop loss triggered. Square off position.");
    ("stoploss",
     "Stop loss triggered. Modify your stop loss and square off position.") ].

(** [squareOffTemplates[action]] for an own key of the table; the select
    offers no other value. *)
Fixpoint template (table : list (string * string)) (key : string)
  : option string :=
  match table with
  | [] => None
  | (k, v) :: rest => if String.eqb key k then Some v else template rest key
  end.

Definition initial : State := {|
  exitMode := None;
  marketView := BULLISH;
  strike := hd 25900 strikes;
  ceExit := EmptyString;
  peExit := EmptyString;
  singleExit := EmptyString;
  selectedOption := None;
  action := "book100";
  preview := EmptyString
|}.

Definition buildMessage (s : State) : composed :=
  match template squareOffTemplates (action s) with
  | None => Invalid "Select valid action type."
  | Some actionText =>
      if negb (truthy actionText) then Invalid "Select valid action type."
      else
        match exitMode s with
        | None => Composed EmptyString
        | Some BUY =>
            match selectedOption s with
            | None => Invalid "Select CE or PE to exit from Buy position."
            | Some opt =>
                if negb (truthy (singleExit s)) then Invalid "Enter exit price."
                else
                  Composed
                    ("SQUARE OFF" ++ LF ++ actionText ++ " Sell "
                       ++ strikeText (strike s) ++ " " ++ optionText opt
                       ++ " @ " ++ singleExit s)
            end
        | Some SELL =>
            match selectedOption s with
            | None => Invalid "Select CE or PE to exit from Sell position."
            | Some opt =>
                if negb (truthy (singleExit s)) then Invalid "Enter exit price."
                else
                  Composed
                    ("SQUARE OFF" ++ LF ++ actionText ++ " Buy "
                       ++ strikeText (strike s) ++ " " ++ optionText opt
                       ++ " @ " ++ singleExit s)
            end
        | Some BOTH =>
            if negb (truthy (ceExit s)) || negb (truthy (peExit s))
            then Invalid "Enter both CE and PE exit prices."
            else if isBULLISH (marketView s) then
              Composed
                ("SQUARE OFF" ++ LF ++ actionText ++ " Sell "
                   ++ strikeText (strike s) ++ " CE @ " ++ ceExit s
                   ++ " and Buy " ++ strikeText (strike s) ++ " PE @ "
                   ++ peExit s)
            else
              Composed
                ("SQUARE OFF" ++ LF ++ actionText ++ " Sell "
                   ++ strikeText (strike s) ++ " PE @ " ++ peExit s
                   ++ " and Buy " ++ strikeText (strike s) ++ " CE @ "
                   ++ ceExit s)
        end
  end.

(** Leaving a sold put at 35. *)
Definition leaveSoldPut : State := {|
  exitMode := Some SELL;
  marketView := BULLISH;
  strike := 24000;
  ceExit := EmptyString;
  peExit := EmptyString;
  singleExit := "35";
  selectedOption := Some PE;
  action := "book100";
  preview := EmptyString
|}.

(** *** The form as a transition system *)

Inductive Event : Type :=
| SetExitMode (m : Action)
| SetMarketView (d : Direction)
| SetStrike (k : Z)
| SetSelectedOption (t : OptionType)
| SetSingleExit (v : string)
| SetCeExit (v : string)
| SetPeExit (v : string)
| SetAction (a : string)
| Submit
| Confirm
| Cancel
| ResetForms.

Definition setPreview (s : State) (p : string) : State :=
  {| exitMode := exitMode s; marketView := marketView s; strike := strike s;
     ceExit := ceExit s; peExit := peExit s; singleExit := singleExit s;
     selectedOption := selectedOption s; action := action s; preview := p |}.

Definition handlePreview (s : State) : State :=
  match buildMessage s with
  | Invalid _ => s
  | Composed message => if truthy message then setPreview s message else s
  end.

Definition handle (s : State) (ev : Event) : State :=
  match ev with
  | SetExitMode m =>
      {| exitMode := Some m; marketView := marketView s; strike := strike s;
         ceExit := ceExit s; peExit := peExit s; singleExit := singleExit s;
         selectedOption := selectedOption s; action := action s;
         preview := preview s |}
  | SetMarketView d =>
      {| exitMode := exitMode s; marketView := d; strike := strike s;
         ceExit := ceExit s; peExit := peExit s; singleExit := singleExit s;
         selectedOption := selectedOption s; action := action s;
         preview := preview s |}
  | SetStrike k =>
      {| exitMode := exitMode s; marketView := marketView s; strike := k;
         ceExit := ceExit s; peExit := peExit s; singleExit := singleExit s;
         selectedOption := selectedOption s; action := action s;
         preview := preview s |}
  | SetSelectedOption t =>
      {| exitMode := exitMode s; marketView := marketView s; strike := strike s;
         ceExit := ceExit s; peExit := peExit s; singleExit := singleExit s;
         selectedOption := Some t; action := action s; preview := preview s |}
  | SetSingleExit v =>
      {| exitMode := exitMode s; marketView := marketView s; strike := strike s;
         ceExit := ceExit s; peExit := peExit s; singleExit := v;
         selectedOption := selectedOption s; action := action s;
         preview := preview s |}
  | SetCeExit v =>
      {| exitMode := exitMode s; marketView := marketView s; strike := strike s;
         ceExit := v; peExit := peExit s; singleExit := singleExit s;
         selectedOption := selectedOption s; action := action s;
         preview := preview s |}
  | SetPeExit v =>
      {| exitMode := exitMode s; marketView := marketView s; strike := strike s;
         ceExit := ceExit s; peExit := v; singleExit := singleExit s;
         selectedOption := selectedOption s; action := action s;
         preview := preview s |}
  | SetAction a =>
      {| exitMode := exitMode s; marketView := marketView s; strike := strike s;
         ceExit := ceExit s; peExit := peExit s; singleExit := singleExit s;
         selectedOption := selectedOption s; action := a;
         preview := preview s |}
  | Submit => handlePreview s
  | Confirm =>
      {| exitMode := exitMode s; marketView := marketView s; strike := strike s;
         ceExit := EmptyString; peExit := EmptyString;
         singleExit := EmptyString;
         selectedOption := selectedOption s; action := action s;
         preview := EmptyString |}
  | Cancel => setPreview s EmptyString
  | ResetForms => initial
  end.

(** The form after a sequence of events. *)
Definition run (s : State) (evs : list Event) : State :=
  fold_left handle evs s.

(** What an event hands to [onSend]: the preview, on Confirm & Send of the
    preview card, which is rendered for a non-empty preview only. *)
Definition onSend (s : State) (ev : Event) : option string :=
  match ev with
  | Confirm => if truthy (preview s) then Some (preview s) else None
  | _ => None
  end.

End SquareOff.

(** ** ExpiryTradesSection, [app/telegram/page.js] *)

Module ExpiryTrades.
Import JSString.

Record State := {
  marketView : Direction;
  strike : Z;
  exitPrice : string;
  template : string;
  preview : string
}.

Record Template := { id : string; label : string; text : string }.

Definition expiryTemplates : list Template :=
  [ {| id := "book100";
       label := "Book 100% Profit";
       text := "Modify stop loss and book 100% profit." |};
    {| id := "book50";
       label := "Book 50% Profit (Trailing stop loss for remaining 50%)";
       text :=
         "Modify stop loss and book 50% profit and now keep trailing stop loss at cost for remaining 50% qty." |};
    {| id := "trailprofit";
       label := "Trailing Stop Loss Triggered - Book Remaining Profit";
       text :=
         "Trailing stop loss triggered. Modify stop loss and book profit for remaining 50% quantity." |};
    {| id := "trailclose";
       label := "Trailing Stop Loss Triggered - Square Off";
       text :=
         "Trailing stop loss triggered. Modify your stop loss and square off position." |};
    {| id := "stoploss";
       label := "Stop Loss Triggered - Square Off";
       text :=
         "Stop loss triggered. Modify your stop loss and square off position." |} ].

Definition initial : State := {|
  marketView := BULLISH;
  strike := 25900;
  exitPrice := EmptyString;
  template := "book100";
  preview := EmptyString
|}.

Definition buildMessage (s : State) : composed :=
  if negb (truthy (exitPrice s)) then Invalid "Enter Exit Price"
  else
    match find (fun t => String.eqb (id t) (template s)) expiryTemplates with
    | None => Invalid "Select message type"
    | Some selectedTemplate =>
        let optionType := if isBULLISH (marketView s) then PE else CE in
        Composed
          ("SQUARE OFF" ++ LF ++ text selectedTemplate ++ " Buy "
             ++ strikeText (strike s) ++ " " ++ optionText optionType
             ++ " @ " ++ exitPrice s)
    end.

(** *** The form as a transition system *)

Inductive Event : Type :=
| SetMarketView (d : Direction)
| SetStrike (k : Z)
| SetExitPrice (v : string)
| SetTemplate (t : string)
| Submit
| Confirm
| Cancel
| ResetForms.

Definition setPreview (s : State) (p : string) : State :=
  {| marketView := marketView s; strike := strike s;
     exitPrice := exitPrice s; template := template s; preview := p |}.

Definition handlePreview (s : State) : State :=
  match buildMessage s with
  | Invalid _ => s
  | Composed msg => if truthy msg then setPreview s msg else s
  end.

Definition handle (s : State) (ev : Event) : State :=
  match ev with
  | SetMarketView d =>
      {| marketView := d; strike := strike s; exitPrice := exitPrice s;
         template := template s; preview := preview s |}
  | SetStrike k =>
      {| marketView := marketView s; strike := k; exitPrice := exitPrice s;
         template := template s; preview := preview s |}
  | SetExitPrice v =>
      {| marketView := marketView s; strike := strike s; exitPrice := v;
         template := template s; preview := preview s |}
  | SetTemplate t =>
      {| marketView := marketView s; strike := strike s;
         exitPrice := exitPrice s; template := t; preview := preview s |}
  | Submit => handlePreview s
  | Confirm =>
      {| marketView := marketView s; strike := strike s;
         exitPrice := EmptyString; template := template s;
         preview := EmptyString |}
  | Cancel => setPreview s EmptyString
  | ResetForms => initial
  end.

(** The form after a sequence of events. *)
Definition run (s : State) (evs : list Event) : State :=
  fold_left handle evs s.

(** What an event hands to [onSend]: the preview, on Confirm & Send of the
    preview card, which is rendered for a non-empty preview only. *)
Definition onSend (s : State) (ev : Event) : option string :=
  match ev with
  | Confirm => if truthy (preview s) then Some (preview s) else None
  | _ => None
  end.

End ExpiryTrades.

(** ** IgnoreAlertSection, [app/telegram/page.js] *)

Module IgnoreAlert.

(** [loading], the calls of [onSend] that have not settled yet, and the
    messages handed to [onSend] so far. *)
Record State := {
  loading : bool;
  pending : nat;
  sent : list string
}.

Definition initial : State :=
  {| loading := false; pending := 0; sent := [] |}.

(** A click on the button, and the moment a call of [onSend] settles. *)
Inductive Event : Type := Click | Settled.

(** [handleSend] up to its [await]. *)
Definition handleSend (s : State) : State :=
  if loading s then s
  else {| loading := true;
          pending := S (pending s);
          sent := sent s ++ ["Kindly ignore the alert"] |}.

(** The [finally] block of the call that settles. *)
Definition settle (s : State) : State :=
  match pending s with
  | O => s
  | S n => {| loading := false; pending := n; sent := sent s |}
  end.

Definition step (s : State) (ev : Event) : State :=
  match ev with
  | Click => handleSend s
  | Settled => settle s
  end.

Definition run (s : State) (evs : list Event) : State :=
  fold_left step evs s.

End IgnoreAlert.

(** ** TelegramPage, [app/telegram/page.js] *)

Module TelegramPage.
Import JSString SendMessage.

(** [useSession().status] *)
Inductive SessionStatus : Type := Loading | Authenticated | Unauthenticated.

Inductive Tab : Type := Trade | Squareoff | Expiry | Ignore.

(** What the page renders: one of the three paragraphs of the guard, or
    the tabs with the section of the active one. *)
Inductive Rendered : Type :=
| Paragraph (text : string)
| Sections (activeTab : Tab).

(** [NEXT_PUBLIC_AUTHORIZED_USERS], or the empty string when it is not
    set, through [.split(",").map((s) => s.trim()).filter(Boolean)]. *)
Definition whitelist (NEXT_PUBLIC_AUTHORIZED_USERS : option string)
  : list string :=
  let list :=
    match NEXT_PUBLIC_AUTHORIZED_USERS with
    | Some s => if truthy s then s else EmptyString
    | None => EmptyString
    end in
  filter truthy (map trim (split "," list)).

(** The effect on [[session]]: the value it sets [authorized] to. *)
Definition authorizedEffect (session : option Session)
    (NEXT_PUBLIC_AUTHORIZED_USERS : option string) : bool :=
  match sessionEmail session with
  | None => false
  | Some mail => includes (whitelist NEXT_PUBLIC_AUTHORIZED_USERS) mail
  end.

(** The guard and what follows it. *)
Definition render (status : SessionStatus) (session : option Session)
    (authorized : bool) (activeTab : Tab) : Rendered :=
  match status with
  | Loading => Paragraph "Loading..."
  | _ =>
      match session with
      | None => Paragraph "Please sign in first."
      | Some _ =>
          if negb authorized then Paragraph "Access denied."
          else Sections activeTab
      end
  end.

(** The page once the effect on [[session]] has run. *)
Definition page (status : SessionStatus) (session : option Session)
    (NEXT_PUBLIC_AUTHORIZED_USERS : option string) (activeTab : Tab)
  : Rendered :=
  render status session
    (authorizedEffect session NEXT_PUBLIC_AUTHORIZED_USERS) activeTab.

(** *** sendToTelegram *)

Inductive Toast : Type :=
| ToastError (text : string)
| ToastLoading (text : string)
| ToastSuccess (text : string).

(** What [fetch("/api/sendMessage", ...)] resolves to: the status and, from
    [res.json()], the body, one of those the handler writes. *)
Record Answer := {
  answerStatus : Z;
  answerJson : outcome Body
}.

(** [res.ok] *)
Definition answerOk (res : Answer) : bool :=
  (200 <=? answerStatus res) && (answerStatus res <=? 299).

(** [data?.error ?? "unknown"] *)
Definition errorOf (data : Body) : string :=
  match data with
  | ErrorBody e => e
  | SuccessBody => "unknown"
  end.

(** [JSON.stringify({ message })], as [req.json()] reads it back. *)
Definition requestBody (message : string) : JSON :=
  JObject [("message", JString message)].

(** What a call of [sendToTelegram] does: the toasts it shows, the bodies
    it posts and whether it dispatches [reset-forms]. *)
Record Sent := {
  toasts : list Toast;
  posted : list JSON;
  resetForms : bool
}.

Definition sendToTelegram (fetch : JSON -> outcome Answer) (message : string)
  : Sent :=
  if negb (truthy message)
  then {| toasts := [ToastError "No message to send"];
          posted := [];
          resetForms := false |}
  else
    let loading := ToastLoading "Sending..." in
    let body := requestBody message in
    match bind (fetch body) (fun res =>
          bind (answerJson res) (fun data => Resolved (res, data))) with
    | Resolved (res, data) =>
        if answerOk res
        then {| toasts := [loading; ToastSuccess "Message sent!"];
                posted := [body];
                resetForms := true |}
        else {| toasts := [loading;
                           ToastError ("Failed: " ++ errorOf data)];
                posted := [body];
                resetForms := false |}
    | Rejected _ =>
        {| toasts := [loading; ToastError "Unexpected error"];
           posted := [body];
           resetForms := false |}
    end.

(** *** The page and the handler together *)

(** The handler on a posted body, for the caller's session, the server's
    environment and the answer of the messaging API. *)
Definition handler (session : outcome (option Session)) (e : Env)
    (telegram : outcome TelegramResponse) (body : JSON)
  : list Forwarded * Response :=
  POST {| getServerSession := session;
          env := e;
          json := Resolved body;
          fetch := telegram |}.

Definition answerOf (r : Response) : Answer :=
  {| answerStatus := status r; answerJson := Resolved (body r) |}.

(** [sendToTelegram] whose [fetch] reaches the handler: the calls made to
    the messaging API, and what the page does. *)
Definition publish (session : outcome (option Session)) (e : Env)
    (telegram : outcome TelegramResponse) (message : string)
  : list Forwarded * Sent :=
  let sent :=
    sendToTelegram
      (fun body => Resolved (answerOf (snd (handler session e telegram body))))
      message in
  (flat_map (fun body => fst (handler session e telegram body)) (posted sent),
   sent).

End TelegramPage.

(** * Properties *)

(** ** Strings *)

Section Strings.

Lemma append_empty_r (s : string) : s ++ EmptyString = s.
Proof. induction s as [|c s IH]; cbn; [reflexivity|now rewrite IH]. Qed.

Lemma append_assoc_r (a b c : string) : (a ++ b) ++ c = a ++ (b ++ c).
Proof. induction a as [|x a IH]; cbn; [reflexivity|now rewrite IH]. Qed.

End Strings.

(** ** The dispatch gate *)

Section DispatchGate.
Import JSString SendMessage.

Lemma includes_In (xs : list string) (x : string) :
  includes xs x = true <-> In x xs.
Proof.
  unfold includes. rewrite existsb_exists. split.
  - intros (y & Hin & Heq). apply String.eqb_eq in Heq. now subst.
  - intros Hin. exists x. split; [exact Hin|apply String.eqb_refl].
Qed.

Lemma includes_not_In (xs : list string) (x : string) :
  includes xs x = false <-> ~ In x xs.
Proof.
  rewrite <- includes_In. destruct (includes xs x); split; congruence.
Qed.

Lemma POST_no_email (r : Request) (session : option Session) :
  getServerSession r = Resolved session ->
  sessionEmail session = None ->
  POST r = ([], respond 401 "Unauthorized - not logged in").
Proof.
  intros Hs He. unfold POST, POST_try. rewrite Hs, He. reflexivity.
Qed.

Lemma POST_not_whitelisted (r : Request) (session : option Session)
    (mail : string) :
  getServerSession r = Resolved session ->
  sessionEmail session = Some mail ->
  includes (authorized (env r)) mail = false ->
  POST r = ([], respond 403 "Access denied").
Proof.
  intros Hs He Hw.
  unfold POST, POST_try. rewrite Hs, He, Hw. reflexivity.
Qed.

Lemma POST_falsy_message (r : Request) (session : option Session)
    (mail : string) (message : option JSON) :
  getServerSession r = Resolved session ->
  sessionEmail session = Some mail ->
  includes (authorized (env r)) mail = true ->
  bind (json r) destructureMessage = Resolved message ->
  falsy message = true ->
  POST r = ([], respond 400 "Message cannot be empty").
Proof.
  intros Hs He Hw Hm Hf.
  unfold POST, POST_try. rewrite Hs, He, Hw, Hm, Hf. reflexivity.
Qed.

Lemma POST_forwards_only_past_the_gate (r : Request) (call : Forwarded) :
  In call (fst (POST r)) ->
  exists session mail message,
    getServerSession r = Resolved session
    /\ sessionEmail session = Some mail
    /\ includes (authorized (env r)) mail = true
    /\ bind (json r) destructureMessage = Resolved (Some message)
    /\ falsy (Some message) = false
    /\ text call = message.
Proof.
  unfold POST, POST_try.
  destruct (getServerSession r) as [session|err]; [|intros []].
  destruct (sessionEmail session) as [mail|] eqn:He; [|intros []].
  destruct (includes (authorized (env r)) mail) eqn:Hw; [|intros []].
  destruct (bind (json r) destructureMessage) as [message|err]; [|intros []].
  destruct (falsy message) eqn:Hf; [intros []|].
  cbn [negb].
  match goal with
  | |- context [bind (fetch r) ?k] => destruct (bind (fetch r) k)
  end; cbn [fst In]; intros [<-|[]];
    (destruct message as [m|]; [|discriminate Hf]);
    exists session, mail, m; repeat split; assumption.
Qed.

(** Thrown errors end in a 500 answer; when reading the session throws,
    nothing has been forwarded. *)
Lemma POST_session_error (r : Request) (err : string) :
  getServerSession r = Rejected err -> POST r = ([], respond 500 err).
Proof. intros Hs. unfold POST, POST_try. rewrite Hs. reflexivity. Qed.

Example POST_forwards :
  POST (insider (JObject [("message", JString "BUY")]))
  = ([ {| url := "https://api.telegram.org/botTOKEN/sendMessage";
          chat_id := Some "-1001";
          text := JString "BUY" |} ],
     {| status := 200; body := SuccessBody |}).
Proof. reflexivity. Qed.

Example POST_without_message :
  POST (insider (JObject []))
  = ([], respond 400 "Message cannot be empty").
Proof. reflexivity. Qed.

Example POST_null_body :
  POST (insider JNull) = ([], respond 500 destructureError).
Proof. reflexivity. Qed.

Example POST_unparsable_body :
  POST unparsable = ([], respond 500 "Unexpected end of JSON input").
Proof. reflexivity. Qed.

Example whitelist_of_sampleEnv :
  authorized sampleEnv = ["trader@example.com"; "desk@example.com"].
Proof. reflexivity. Qed.

(** Past the whitelist the body is read before the message is looked at:
    a body that does not parse ends in a 500 answer. *)
Lemma POST_body_error (r : Request) (session : option Session)
    (mail err : string) :
  getServerSession r = Resolved session ->
  sessionEmail session = Some mail ->
  includes (authorized (env r)) mail = true ->
  bind (json r) destructureMessage = Rejected err ->
  POST r = ([], respond 500 err).
Proof.
  intros Hs He Hw Hm.
  unfold POST, POST_try. rewrite Hs, He, Hw, Hm. reflexivity.
Qed.

(** Every body but [null] can be destructured. *)
Lemma destructureMessage_resolves (body : JSON) :
  body <> JNull -> exists message, destructureMessage body = Resolved message.
Proof.
  destruct body; intros Hb; try (eexists; reflexivity).
  now destruct Hb.
Qed.

(** A message that is not falsy is forwarded, once, as the text. *)
Lemma POST_forwards_truthy_message (r : Request) (session : option Session)
    (mail : string) (message : option JSON) :
  getServerSession r = Resolved session ->
  sessionEmail session = Some mail ->
  includes (authorized (env r)) mail = true ->
  bind (json r) destructureMessage = Resolved message ->
  falsy message = false ->
  exists m, message = Some m /\ map text (fst (POST r)) = [m].
Proof.
  intros Hs He Hw Hm Hf.
  destruct message as [m|]; [|discriminate Hf].
  exists m. split; [reflexivity|].
  unfold POST, POST_try. rewrite Hs, He, Hw, Hm, Hf. cbn [negb].
  match goal with
  | |- context [bind (fetch r) ?k] => destruct (bind (fetch r) k)
  end; reflexivity.
Qed.

(** C1, as amended.  The handler gates a request in order: without a session e-mail
    it answers 401; else, with an e-mail that is no member of the
    comma-separated whitelist, 403; else it reads the body, and a body that
    does not parse, or is [null], is answered 500, the destructuring
    throwing before the message is looked at; else, with a [message] that
    is missing or falsy, the empty string included, 400.  In none of these
    cases is anything forwarded, nor when reading the session fails, which
    is answered 500.  Only a request that passes all of them reaches the
    messaging API, once and with the message as the text, so nothing of a
    principal off the whitelist is ever forwarded. *)
Theorem dispatch_gates_in_order (r : Request) :
  (forall err,
     getServerSession r = Rejected err -> POST r = ([], respond 500 err))
  /\ (forall session,
        getServerSession r = Resolved session ->
        (sessionEmail session = None ->
         POST r = ([], respond 401 "Unauthorized - not logged in"))
        /\ (forall mail,
              sessionEmail session = Some mail ->
              (~ In mail (authorized (env r)) ->
               POST r = ([], respond 403 "Access denied"))
              /\ (In mail (authorized (env r)) ->
                  (forall err,
                     json r = Rejected err ->
                     POST r = ([], respond 500 err))
                  /\ (json r = Resolved JNull ->
                      fst (POST r) = [] /\ status (snd (POST r)) = 500)
                  /\ (forall body,
                        json r = Resolved body ->
                        body <> JNull ->
                        exists message,
                          destructureMessage body = Resolved message
                          /\ (message = None
                              \/ message = Some (JString EmptyString) ->
                              falsy message = true)
                          /\ (falsy message = true ->
                              POST r
                              = ([], respond 400 "Message cannot be empty"))
                          /\ (falsy message = false ->
                              exists m,
                                message = Some m
                                /\ map text (fst (POST r)) = [m]))))
        /\ (forall call,
              In call (fst (POST r)) ->
              exists mail message,
                sessionEmail session = Some mail
                /\ In mail (authorized (env r))
                /\ bind (json r) destructureMessage = Resolved (Some message)
                /\ falsy (Some message) = false
                /\ text call = message)).
Proof.
  split; [exact (POST_session_error r)|].
  intros session Hs. split; [|split].
  - intros He. exact (POST_no_email r session Hs He).
  - intros mail He. split.
    + intros Hw. apply includes_not_In in Hw.
      exact (POST_not_whitelisted r session mail Hs He Hw).
    + intros Hw. apply includes_In in Hw. split; [|split].
      * intros err Hj.
        apply (POST_body_error r session mail err Hs He Hw).
        rewrite Hj. reflexivity.
      * intros Hj.
        rewrite (POST_body_error r session mail destructureError Hs He Hw).
        -- split; reflexivity.
        -- rewrite Hj. reflexivity.
      * intros body Hj Hb.
        destruct (destructureMessage_resolves body Hb) as [message Hd].
        assert (Hm : bind (json r) destructureMessage = Resolved message)
          by (rewrite Hj; exact Hd).
        exists message. split; [exact Hd|]. split; [|split].
        -- intros [-> | ->]; reflexivity.
        -- intros Hf.
           exact (POST_falsy_message r session mail message Hs He Hw Hm Hf).
        -- intros Hf.
           exact (POST_forwards_truthy_message r session mail message
                    Hs He Hw Hm Hf).
  - intros call Hin.
    destruct (POST_forwards_only_past_the_gate r call Hin)
      as (session' & mail & message & Hs' & He & Hw & Hm & Hf & Ht).
    rewrite Hs in Hs'. injection Hs' as <-.
    apply includes_In in Hw.
    exists mail, message. auto.
Qed.

(** A whitelisted principal who posts an object without [message]: 400,
    nothing sent. *)
Lemma dispatch_gates_in_order_witness :
  getServerSession (insider (JObject []))
  = Resolved (Some (signedIn "desk@example.com"))
  /\ POST (insider (JObject []))
     = ([], respond 400 "Message cannot be empty").
Proof.
  split; [reflexivity|].
  destruct (dispatch_gates_in_order (insider (JObject []))) as (_ & H).
  destruct (H (Some (signedIn "desk@example.com")) eq_refl) as (_ & Hmail & _).
  destruct (Hmail "desk@example.com" eq_refl) as (_ & Hin).
  destruct Hin as (_ & _ & Hbody).
  - cbn. right. left. reflexivity.
  - destruct (Hbody (JObject []) eq_refl) as (message & Hd & _ & H400 & _).
    + discriminate.
    + apply H400. injection Hd as <-. reflexivity.
Defined.

(** A whitelisted, signed-in principal who posts the body [null]: there is
    no message, yet the answer is 500 and not 400. *)
Lemma null_body_is_answered_500 :
  getServerSession (insider JNull)
  = Resolved (Some (signedIn "desk@example.com"))
  /\ sessionEmail (Some (signedIn "desk@example.com"))
     = Some "desk@example.com"
  /\ In "desk@example.com" (authorized (env (insider JNull)))
  /\ json (insider JNull) = Resolved JNull
  /\ fst (POST (insider JNull)) = []
  /\ status (snd (POST (insider JNull))) = 500
  /\ POST (insider JNull) <> ([], respond 400 "Message cannot be empty").
Proof.
  repeat split; try reflexivity.
  - cbn. right. left. reflexivity.
  - discriminate.
Qed.

(** C9.  Without [AUTHORIZED_USERS] the whitelist is empty, and every
    authenticated request is answered 403 "Access denied" and forwards
    nothing: the gate fails closed. *)
Theorem missing_whitelist_fails_closed
    (r : Request) (session : option Session) (mail : string) :
  AUTHORIZED_USERS (env r) = None ->
  getServerSession r = Resolved session ->
  sessionEmail session = Some mail ->
  authorized (env r) = []
  /\ POST r = ([], respond 403 "Access denied").
Proof.
  intros Hn Hs He.
  assert (Ha : authorized (env r) = []) by (unfold authorized; now rewrite Hn).
  split; [exact Ha|].
  apply (POST_not_whitelisted r session mail Hs He).
  rewrite Ha. reflexivity.
Qed.

Lemma missing_whitelist_fails_closed_witness :
  AUTHORIZED_USERS (env unconfigured) = None
  /\ getServerSession unconfigured
     = Resolved (Some (signedIn "trader@example.com"))
  /\ sessionEmail (Some (signedIn "trader@example.com"))
     = Some "trader@example.com"
  /\ POST unconfigured = ([], respond 403 "Access denied").
Proof.
  repeat (split; [reflexivity|]).
  apply (missing_whitelist_fails_closed unconfigured
           (Some (signedIn "trader@example.com")) "trader@example.com");
    reflexivity.
Defined.

End DispatchGate.

(** ** The calendar *)

Section Calendar.
Import JSString JSNumber JSDate.

Lemma DayFromYear_succ (y : Z) :
  DayFromYear (y + 1) = DayFromYear y + DaysInYear y.
Proof.
  unfold DayFromYear, DaysInYear.
  destruct (Z.eqb_spec (y mod 4) 0), (Z.eqb_spec (y mod 100) 0),
    (Z.eqb_spec (y mod 400) 0); cbn [negb];
    Z.div_mod_to_equations; lia.
Qed.

(** [YearFromTime] is the year the day falls in. *)
Lemma YearFromTime_spec (t : Date) :
  DayFromYear (YearFromTime t) <= t < DayFromYear (YearFromTime t + 1).
Proof.
  unfold YearFromTime.
  set (y := 1970 + t * 400 / 146097).
  assert (Hy : y = 1970 + t * 400 / 146097) by reflexivity.
  clearbody y.
  destruct (Z.ltb_spec t (DayFromYear y)) as [H1|H1].
  - replace (y - 1 + 1) with y by lia.
    unfold DayFromYear in *. Z.div_mod_to_equations. lia.
  - destruct (Z.leb_spec (DayFromYear (y + 1)) t) as [H2|H2]; [|lia].
    unfold DayFromYear in *. Z.div_mod_to_equations. lia.
Qed.

Lemma DaysInYear_cases (y : Z) : DaysInYear y = 365 \/ DaysInYear y = 366.
Proof.
  unfold DaysInYear.
  destruct (y mod 4 =? 0), (y mod 100 =? 0), (y mod 400 =? 0); cbn; auto.
Qed.

Lemma DayWithinYear_range (t : Date) :
  0 <= DayWithinYear t < DaysInYear (YearFromTime t).
Proof.
  unfold DayWithinYear.
  pose proof (YearFromTime_spec t) as H.
  rewrite DayFromYear_succ in H. lia.
Qed.

Lemma MonthFromTime_range (t : Date) : 0 <= MonthFromTime t <= 11.
Proof.
  unfold MonthFromTime.
  repeat match goal with
         | |- context [if ?b then _ else _] => destruct b
         end; lia.
Qed.

Lemma DateFromTime_range (t : Date) : 1 <= DateFromTime t <= 31.
Proof.
  pose proof (DayWithinYear_range t) as Hd.
  unfold DateFromTime, MonthFromTime, InLeapYear in *.
  destruct (Z.eqb_spec (DaysInYear (YearFromTime t)) 366) as [Hl|Hl];
    [|pose proof (DaysInYear_cases (YearFromTime t))];
    repeat match goal with
           | |- context [?a <? ?b] => destruct (Z.ltb_spec a b)
           end; cbn; lia.
Qed.

Lemma getDay_range (t : Date) : 0 <= getDay t <= 6.
Proof. unfold getDay, WeekDay. pose proof (Z.mod_pos_bound (t + 4) 7). lia. Qed.

(** Moving a date by days of the month moves its day number as much:
    [setDate] carries days beyond the month's end over. *)
Lemma setDate_getDate (t : Date) (n : Z) : setDate t (getDate t + n) = t + n.
Proof.
  unfold setDate, getDate, MakeDay, DateFromTime, DayWithinYear, InLeapYear.
  pose proof (MonthFromTime_range t) as Hm.
  rewrite (Z.div_small (MonthFromTime t) 12), (Z.mod_small (MonthFromTime t) 12)
    by lia.
  rewrite Z.add_0_r. lia.
Qed.

Lemma daysUntilTue_spec (day : Z) :
  0 <= day <= 6 ->
  1 <= FreshTrade.daysUntilTue day <= 7
  /\ (day + FreshTrade.daysUntilTue day) mod 7 = 2
  /\ (day = 2 -> FreshTrade.daysUntilTue day = 7)
  /\ (day <> 2 -> FreshTrade.daysUntilTue day <= 6).
Proof.
  intros H. unfold FreshTrade.daysUntilTue.
  assert (C : day = 0 \/ day = 1 \/ day = 2 \/ day = 3 \/ day = 4 \/ day = 5
              \/ day = 6) by lia.
  repeat destruct C as [C|C]; subst day; cbn; repeat split; lia.
Qed.

Lemma nextTuesday_offset (today : Date) :
  FreshTrade.nextTuesday today
  = today + FreshTrade.daysUntilTue (getDay today).
Proof. unfold FreshTrade.nextTuesday. apply setDate_getDate. Qed.

Example day_20396 :
  (YearFromTime 20396, MonthFromTime 20396, DateFromTime 20396, WeekDay 20396)
  = (2025, 10, 4, 2).
Proof. reflexivity. Qed.

Example leap_day :
  (YearFromTime 19782, MonthFromTime 19782, DateFromTime 19782) = (2024, 1, 29).
Proof. reflexivity. Qed.

Example expiry_from_a_monday :
  FreshTrade.expiryLabel enGB 20395 = "04 Nov".
Proof. vm_compute. reflexivity. Qed.

Example expiry_from_a_wednesday :
  FreshTrade.expiryLabel enGB 20397 = "11 Nov".
Proof. vm_compute. reflexivity. Qed.

Example expiry_across_a_year :
  FreshTrade.expiryLabel enGB 20453 = "06 Jan".
Proof. vm_compute. reflexivity. Qed.

End Calendar.

(** ** The expiry label *)

Section ExpiryLabel.
Import JSString JSNumber JSDate FreshTrade.

Lemma removeFirst_noDot (s : string) :
  noDot s = true -> removeFirst "." s = s.
Proof.
  induction s as [|c s IH]; cbn; [reflexivity|].
  destruct (Ascii.eqb c "."); cbn; [discriminate|].
  intros H. now rewrite IH.
Qed.

Lemma stripTrailingDot_noDot (s : string) :
  noDot s = true -> stripTrailingDot s = s.
Proof.
  induction s as [|c s IH]; cbn; [reflexivity|].
  destruct (Ascii.eqb c "."); cbn; [discriminate|].
  intros H. destruct s; [reflexivity|]. now rewrite IH.
Qed.

(** When the only full stop is a final one, removing the first full stop
    is stripping the trailing one. *)
Lemma removeFirst_dotOnlyAtEnd (s : string) :
  dotOnlyAtEnd s = true -> removeFirst "." s = stripTrailingDot s.
Proof.
  induction s as [|c s IH]; cbn; [reflexivity|].
  destruct (Ascii.eqb c ".") eqn:Hc.
  - destruct s; cbn; [reflexivity | discriminate].
  - intros H. rewrite (IH H). destruct s; [|reflexivity].
    cbn. reflexivity.
Qed.

Lemma dotOnlyAtEnd_app (a b : string) :
  noDot a = true -> dotOnlyAtEnd b = true -> dotOnlyAtEnd (a ++ b) = true.
Proof.
  induction a as [|c a IH]; cbn; [auto|].
  destruct (Ascii.eqb c "."); cbn; [discriminate|auto].
Qed.

Lemma twoDigit_shape (n : Z) :
  1 <= n <= 31 ->
  String.length (twoDigit n) = 2%nat /\ noDot (twoDigit n) = true.
Proof.
  intros H.
  assert (All : forallb twoDigitOk (seq 1 31) = true) by (vm_compute; reflexivity).
  rewrite forallb_forall in All.
  specialize (All (Z.to_nat n)).
  unfold twoDigitOk in All. rewrite Z2Nat.id in All by lia.
  apply andb_prop in All; [|apply in_seq; lia].
  destruct All as [L D]. apply Nat.eqb_eq in L. auto.
Qed.

(** C2.  Whatever the day the form is mounted on, the expiry it computes
    is a Tuesday strictly after that day, one to seven days later: seven
    when the day is itself a Tuesday, otherwise one to six, with no
    Tuesday in between.  Its label is the two-digit day of the month, a
    space and the abbreviated month name, without a trailing full stop
    (the month names of the locale carry no other full stop). *)
Theorem expiry_is_the_following_tuesday
    (monthShort : Z -> string) (today : Date) :
  dotOnlyAtEnd (monthShort (MonthFromTime (nextTuesday today))) = true ->
  let e := nextTuesday today in
  getDay e = 2
  /\ 1 <= e - today <= 7
  /\ (getDay today = 2 -> e - today = 7)
  /\ (getDay today <> 2 -> 1 <= e - today <= 6)
  /\ (forall d, today < d < e -> getDay d <> 2)
  /\ String.length (twoDigit (getDate e)) = 2%nat
  /\ expiryLabel monthShort today
     = stripTrailingDot
         (twoDigit (getDate e) ++ " " ++ monthShort (MonthFromTime e)).
Proof.
  intros Hdot e.
  pose proof (getDay_range today) as Hr.
  destruct (daysUntilTue_spec (getDay today) Hr) as (Hb & Hm & H7 & H6).
  assert (He : e = today + daysUntilTue (getDay today))
    by apply nextTuesday_offset.
  assert (Htue : getDay e = 2).
  { rewrite He. unfold getDay, WeekDay in *.
    rewrite <- Hm. Z.div_mod_to_equations. lia. }
  destruct (twoDigit_shape (getDate e) (DateFromTime_range e)) as [Hlen Hnd].
  split; [exact Htue|].
  split; [lia|].
  split; [intros H; specialize (H7 H); lia|].
  split; [intros H; specialize (H6 H); lia|].
  split.
  { intros d Hd Hd2. unfold getDay, WeekDay in Htue, Hd2.
    Z.div_mod_to_equations. lia. }
  split; [exact Hlen|].
  unfold expiryLabel, toLocaleDateString. fold e. fold (getDate e).
  apply removeFirst_dotOnlyAtEnd.
  apply dotOnlyAtEnd_app; [exact Hnd|].
    cbn. exact Hdot.
Qed.

(** Tuesday 4 November 2025 is day 20396; the label is that of Tuesday
    11 November. *)
Lemma expiry_is_the_following_tuesday_witness :
  dotOnlyAtEnd (enGB (MonthFromTime (nextTuesday 20396))) = true
  /\ getDay (nextTuesday 20396) = 2
  /\ nextTuesday 20396 - 20396 = 7
  /\ expiryLabel enGB 20396 = "11 Nov".
Proof.
  split; [vm_compute; reflexivity|].
  destruct (expiry_is_the_following_tuesday enGB 20396)
    as (Ht & _ & H7 & _ & _ & _ & Hl).
  - vm_compute; reflexivity.
  - split; [exact Ht|]. split; [apply H7; vm_compute; reflexivity|].
    rewrite Hl. vm_compute. reflexivity.
Defined.

End ExpiryLabel.

(** ** Rounding to binary64 *)

Section Rounding.
Import JSString JSNumber.

Lemma digits2_pos_lt (p : positive) : Zpos p < 2 ^ Zpos (digits2_pos p).
Proof.
  induction p as [p IH|p IH|]; cbn [digits2_pos];
    rewrite ?Pos2Z.inj_succ, ?Z.pow_succ_r by lia; lia.
Qed.

Lemma digits2_pos_ge (p : positive) : 2 ^ (Zpos (digits2_pos p) - 1) <= Zpos p.
Proof.
  induction p as [p IH|p IH|]; cbn [digits2_pos].
  - rewrite Pos2Z.inj_succ, (Pos2Z.inj_xI p).
    replace (Z.succ (Zpos (digits2_pos p)) - 1)
      with (Z.succ (Zpos (digits2_pos p) - 1)) by lia.
    rewrite Z.pow_succ_r by lia.
    set (a := 2 ^ _) in *. lia.
  - rewrite Pos2Z.inj_succ, (Pos2Z.inj_xO p).
    replace (Z.succ (Zpos (digits2_pos p)) - 1)
      with (Z.succ (Zpos (digits2_pos p) - 1)) by lia.
    rewrite Z.pow_succ_r by lia.
    set (a := 2 ^ _) in *. lia.
  - reflexivity.
Qed.

Lemma Zdigits2_lt (m : Z) : 0 <= m -> m < 2 ^ Zdigits2 m.
Proof.
  destruct m as [|p|p]; cbn [Zdigits2]; intros H; [cbn; lia| |lia].
  apply digits2_pos_lt.
Qed.

Lemma Zdigits2_ge (m : Z) : 0 < m -> 2 ^ (Zdigits2 m - 1) <= m.
Proof.
  destruct m as [|p|p]; cbn [Zdigits2]; intros H; try lia.
  apply digits2_pos_ge.
Qed.

Lemma Zdigits2_nonneg (m : Z) : 0 <= Zdigits2 m.
Proof. destruct m; cbn; lia. Qed.

Lemma iter_pos_invariant {A : Type} (f : A -> A) (P : Z -> A -> Prop) :
  (forall k a, 0 <= k -> P k a -> P (k + 1) (f a)) ->
  forall p k a, 0 <= k -> P k a -> P (k + Zpos p) (iter_pos f p a).
Proof.
  intros Hstep.
  induction p as [p IH|p IH|]; intros k a Hk Ha; cbn [iter_pos].
  - replace (k + Zpos p~1) with (k + 1 + Zpos p + Zpos p) by lia.
    apply IH; [lia|]. apply IH; [lia|]. apply Hstep; assumption.
  - replace (k + Zpos p~0) with (k + Zpos p + Zpos p) by lia.
    apply IH; [lia|]. apply IH; assumption.
  - apply Hstep; assumption.
Qed.


Lemma shr_1_shifted (M k : Z) (r : shr_record) :
  0 <= k -> shifted M k r -> shifted M (k + 1) (shr_1 r).
Proof.
  intros Hk (rem & Hm & HM & Hrem & Hr).
  pose proof (Z.pow_pos_nonneg 2 k ltac:(lia) Hk) as Hpos.
  assert (Hp : 2 ^ (k + 1) = 2 * 2 ^ k)
    by (rewrite Z.pow_add_r by lia; change (2 ^ 1) with 2; lia).
  destruct r as [m rb sb]. cbn [shr_m shr_r] in *.
  unfold shifted. rewrite Hp. set (a := 2 ^ k) in *. cbn [shr_1].
  destruct m as [|[p|p|]|p]; cbn [shr_m shr_r]; try lia.
  - exists rem. repeat split; try lia; try discriminate.
  - exists (a + rem). rewrite (Pos2Z.inj_xI p) in HM. repeat split; lia.
  - exists rem. rewrite (Pos2Z.inj_xO p) in HM.
    repeat split; try lia; try discriminate.
  - exists (a + rem). repeat split; lia.
Qed.

Lemma shr_shifted (m e n : Z) (l : location) :
  0 <= m ->
  let '(r, e') := shr (shr_record_of_loc m l) e n in
  e' = e + Z.max 0 n
  /\ shifted m (e' - e) r
  /\ (l = loc_Exact -> e' = e -> shr_r r = false).
Proof.
  intros Hm. unfold shr.
  assert (H0 : shifted m 0 (shr_record_of_loc m l)).
  { exists 0. destruct l as [|[]]; cbn; repeat split; lia. }
  destruct n as [|p|p].
  - rewrite Z.sub_diag. split; [lia|split; [exact H0|]].
    intros -> _. reflexivity.
  - replace (e + Zpos p - e) with (0 + Zpos p) by lia.
    split; [lia|split; [|intros _ H; lia]].
    apply iter_pos_invariant; [|lia|exact H0].
    intros k a Hk. apply shr_1_shifted. exact Hk.
  - rewrite Z.sub_diag. split; [lia|split; [exact H0|]].
    intros -> _. reflexivity.
Qed.

Lemma fexp_eq (z : Z) : fexp prec emax z = Z.max (z - 53) (-1074).
Proof. reflexivity. Qed.

Lemma shr_fexp_spec (m e : Z) (l : location) :
  0 <= m ->
  let '(r, e') := shr_fexp prec emax m e l in
  e' = Z.max e (Z.max (Zdigits2 m + e - 53) (-1074))
  /\ shifted m (e' - e) r
  /\ (l = loc_Exact -> e' = e -> shr_r r = false)
  /\ 0 <= shr_m r < 2 ^ 53.
Proof.
  intros Hm. unfold shr_fexp. rewrite fexp_eq.
  pose proof (shr_shifted m e (Z.max (Zdigits2 m + e - 53) (-1074) - e) l Hm)
    as H.
  destruct (shr (shr_record_of_loc m l) e
              (Z.max (Zdigits2 m + e - 53) (-1074) - e)) as [r e'].
  destruct H as (He & Hs & Hx).
  split; [lia|]. split; [exact Hs|]. split; [exact Hx|].
  destruct Hs as (rem & Hq & HM & Hrem & _).
  split; [exact Hq|].
  destruct (Z.lt_ge_cases (shr_m r) (2 ^ 53)) as [|Hge]; [assumption|exfalso].
  pose proof (Zdigits2_lt m Hm) as Hd.
  pose proof (Zdigits2_nonneg m) as Hd0.
  assert (Hk : 0 <= e' - e) by lia.
  assert (Hle : 2 ^ Zdigits2 m <= 2 ^ (53 + (e' - e)))
    by (apply Z.pow_le_mono_r; lia).
  rewrite Z.pow_add_r in Hle by lia.
  pose proof (Z.pow_pos_nonneg 2 (e' - e) ltac:(lia) Hk) as Hpos.
  assert (2 ^ 53 * 2 ^ (e' - e) <= shr_m r * 2 ^ (e' - e))
    by (apply Z.mul_le_mono_nonneg_r; lia).
  lia.
Qed.

Lemma round_nearest_even_cases (r : shr_record) :
  round_nearest_even (shr_m r) (loc_of_shr_record r) = shr_m r
  \/ (round_nearest_even (shr_m r) (loc_of_shr_record r) = shr_m r + 1
      /\ shr_r r = true).
Proof.
  destruct r as [m [] []]; cbn; try destruct (Z.even m); auto.
Qed.


Lemma binary_round_aux_wellFormed (sx : bool) (mx ex : Z) (lx : location) :
  0 <= mx -> wellFormed (binary_round_aux prec emax sx mx ex lx).
Proof.
  intros Hm. unfold binary_round_aux.
  pose proof (shr_fexp_spec mx ex lx Hm) as H1.
  destruct (shr_fexp prec emax mx ex lx) as [r1 e1].
  destruct H1 as (_ & _ & _ & Hq1).
  assert (Hm1 : 0 <= round_nearest_even (shr_m r1) (loc_of_shr_record r1))
    by (destruct (round_nearest_even_cases r1) as [-> | [-> _]]; lia).
  pose proof (shr_fexp_spec _ e1 loc_Exact Hm1) as H2.
  destruct (shr_fexp prec emax _ e1 loc_Exact) as [r2 e2].
  destruct H2 as (_ & _ & _ & Hq2).
  destruct (shr_m r2) as [|p|p]; cbn; [exact I| |lia].
  change (emax - prec) with 971.
  destruct (Z.leb_spec e2 971); cbn; [split; lia|exact I].
Qed.

Lemma binary_round_aux_finite (sx : bool) (mx ex : Z) :
  0 <= mx -> ex <= 971 ->
  2 * mx < (2 ^ 54 - 1) * 2 ^ (971 - ex) ->
  isFinite (binary_round_aux prec emax sx mx ex loc_Exact) = true.
Proof.
  intros Hm Hex Hbound. unfold binary_round_aux.
  pose proof (shr_fexp_spec mx ex loc_Exact Hm) as H1.
  destruct (shr_fexp prec emax mx ex loc_Exact) as [r1 e1].
  destruct H1 as (He1 & (rem & _ & HM & Hrem & Hr) & Hx & Hq1).
  pose proof (Z.pow_pos_nonneg 2 (971 - ex) ltac:(lia) ltac:(lia)) as Hpos.
  (* the first exponent stays in range *)
  assert (Hd : Zdigits2 mx + ex <= 1024).
  { destruct (Z.eq_dec mx 0) as [->|Hnz]; [cbn; lia|].
    pose proof (Zdigits2_ge mx ltac:(lia)) as Hge.
    destruct (Z.le_gt_cases (Zdigits2 mx + ex) 1024) as [|Hgt]; [assumption|].
    exfalso.
    assert (Hle : 2 ^ (1025 - ex - 1) <= 2 ^ (Zdigits2 mx - 1))
      by (apply Z.pow_le_mono_r; lia).
    replace (1025 - ex - 1) with (53 + (971 - ex)) in Hle by lia.
    rewrite Z.pow_add_r in Hle by lia. lia. }
  assert (Hle1 : e1 <= 971) by lia.
  assert (Hm1 : 0 <= round_nearest_even (shr_m r1) (loc_of_shr_record r1)
                <= 2 ^ 53
                /\ (e1 = 971 ->
                    round_nearest_even (shr_m r1) (loc_of_shr_record r1)
                    < 2 ^ 53)).
  { destruct (round_nearest_even_cases r1) as [-> | [-> Hrb]]; [lia|].
    split; [lia|]. intros E.
    destruct (Z.lt_ge_cases (shr_m r1 + 1) (2 ^ 53)) as [|Hge]; [assumption|].
    exfalso.
    assert (Hk : 0 < e1 - ex).
    { destruct (Z.eq_dec e1 ex) as [Heq|]; [|lia].
      rewrite (Hx eq_refl Heq) in Hrb. discriminate. }
    specialize (Hr Hrb Hk). rewrite E in *.
    assert (shr_m r1 = 2 ^ 53 - 1) by lia.
    set (a := 2 ^ (971 - ex)) in *. nia. }
  destruct Hm1 as [Hm1 Hcarry].
  pose proof (shr_fexp_spec _ e1 loc_Exact (proj1 Hm1)) as H2.
  destruct (shr_fexp prec emax _ e1 loc_Exact) as [r2 e2].
  destruct H2 as (He2 & _ & _ & Hq2).
  destruct (shr_m r2) as [|p|p]; cbn; [reflexivity| |lia].
  change (emax - prec) with 971.
  assert (Hle2 : e2 <= 971).
  { set (m1 := round_nearest_even (shr_m r1) (loc_of_shr_record r1)) in *.
    destruct (Z.eq_dec m1 0) as [E0|Hnz]; [rewrite E0 in He2; cbn in He2; lia|].
    pose proof (Zdigits2_ge m1 ltac:(lia)) as Hge.
    assert (Hd1 : Zdigits2 m1 <= 54).
    { destruct (Z.le_gt_cases (Zdigits2 m1) 54) as [|Hgt]; [assumption|].
      exfalso.
      assert (2 ^ 54 <= 2 ^ (Zdigits2 m1 - 1)) by (apply Z.pow_le_mono_r; lia).
      lia. }
    destruct (Z.eq_dec e1 971) as [E|]; [|lia].
    specialize (Hcarry E).
    assert (Hd2 : Zdigits2 m1 <= 53).
    { destruct (Z.le_gt_cases (Zdigits2 m1) 53) as [|Hgt]; [assumption|].
      exfalso.
      assert (2 ^ 53 <= 2 ^ (Zdigits2 m1 - 1)) by (apply Z.pow_le_mono_r; lia).
      lia. }
    lia. }
  destruct (Z.leb_spec e2 971); [reflexivity|lia].
Qed.

Lemma shl_align_spec (mx : positive) (ex ex' : Z) :
  let '(mz, ez) := shl_align mx ex ex' in
  ez = Z.min ex ex' /\ Zpos mz = Zpos mx * 2 ^ (ex - ez).
Proof.
  unfold shl_align.
  destruct (ex' - ex) as [|d|d] eqn:Hd.
  - split; [lia|]. rewrite Z.sub_diag. cbn. lia.
  - split; [lia|]. rewrite Z.sub_diag. cbn. lia.
  - split; [lia|].
    replace (ex - ex') with (Zpos d) by lia.
    change (Pos.iter xO mx d) with (shift_pos d mx).
    rewrite shift_pos_correct. change (Z.pow_pos 2 d) with (2 ^ Zpos d). lia.
Qed.

Lemma binary_round_wellFormed (sx : bool) (m : positive) (e : Z) :
  wellFormed (binary_round prec emax sx m e).
Proof.
  unfold binary_round.
  destruct (shl_align m e _) as [mz ez].
  apply binary_round_aux_wellFormed. lia.
Qed.

Lemma binary_round_finite (sx : bool) (m : positive) (e : Z) :
  e <= 971 ->
  2 * Zpos m < (2 ^ 54 - 1) * 2 ^ (971 - e) ->
  isFinite (binary_round prec emax sx m e) = true.
Proof.
  intros He Hb. unfold binary_round.
  pose proof (shl_align_spec m e
                (fexp prec emax (Zpos (digits2_pos m) + e))) as H.
  destruct (shl_align m e _) as [mz ez].
  destruct H as [Hez Hmz].
  apply binary_round_aux_finite; [lia|lia|].
  rewrite Hmz.
  replace (971 - ez) with (971 - e + (e - ez)) by lia.
  rewrite Z.pow_add_r by lia.
  pose proof (Z.pow_pos_nonneg 2 (e - ez) ltac:(lia) ltac:(lia)).
  set (a := 2 ^ (e - ez)) in *. set (b := 2 ^ (971 - e)) in *. nia.
Qed.

Lemma binary_normalize_wellFormed (m e : Z) (szero : bool) :
  wellFormed (binary_normalize prec emax m e szero).
Proof.
  destruct m; cbn [binary_normalize]; [exact I| |];
    apply binary_round_wellFormed.
Qed.

Lemma binary_normalize_finite (m e : Z) (szero : bool) :
  e <= 971 ->
  2 * Z.abs m < (2 ^ 54 - 1) * 2 ^ (971 - e) ->
  isFinite (binary_normalize prec emax m e szero) = true.
Proof.
  intros He Hb.
  destruct m; cbn [binary_normalize]; [reflexivity| |];
    apply binary_round_finite; auto.
Qed.

Lemma ofZ_5 : ofZ 5 = S754_finite false 5629499534213120 (-50).
Proof. vm_compute. reflexivity. Qed.

(** Adding five to a finite number never overflows. *)
Lemma add_five_finite (x : number) :
  wellFormed x -> isFinite x = true ->
  isFinite (add x (ofZ 5)) = true /\ wellFormed (add x (ofZ 5)).
Proof.
  intros Hwf Hfin. rewrite ofZ_5. unfold add.
  destruct x as [s|s| |s m e]; try discriminate.
  - cbn. split; [reflexivity|]. split; [reflexivity|lia].
  - cbn [wellFormed] in Hwf. destruct Hwf as [Hm He].
    cbn [SFadd].
    split; [|apply binary_normalize_wellFormed].
    set (ez := Z.min e (-50)).
    pose proof (shl_align_spec m e ez) as HX.
    pose proof (shl_align_spec 5629499534213120 (-50) ez) as HY.
    destruct (shl_align m e ez) as [X ex'].
    destruct (shl_align 5629499534213120 (-50) ez) as [Y ey'].
    cbn [fst]. destruct HX as [Hex HX]. destruct HY as [Hey HY].
    replace ex' with ez in HX by lia. replace ey' with ez in HY by lia.
    apply binary_normalize_finite; [lia|].
    assert (Habs : Z.abs (cond_Zopp s (Zpos X) + cond_Zopp false (Zpos Y))
                   <= Zpos X + Zpos Y)
      by (destruct s; cbn [cond_Zopp]; lia).
    rewrite HX, HY in Habs. rewrite HX, HY.
    replace (971 - ez) with (1021 + (-50 - ez)) by lia.
    rewrite Z.pow_add_r by lia.
    assert (HB : 2 ^ (e - ez) <= 2 ^ 1021 * 2 ^ (-50 - ez)).
    { rewrite <- Z.pow_add_r by lia. apply Z.pow_le_mono_r; lia. }
    pose proof (Z.pow_pos_nonneg 2 (-50 - ez) ltac:(lia) ltac:(lia)) as HA.
    pose proof (Z.pow_pos_nonneg 2 (e - ez) ltac:(lia) ltac:(lia)) as HB0.
    assert (HT : 2 ^ 54 * 2 ^ (-50 - ez) <= 2 ^ 1021 * 2 ^ (-50 - ez)).
    { apply Z.mul_le_mono_nonneg_r; [lia|].
      apply Z.pow_le_mono_r; lia. }
    set (A := 2 ^ (-50 - ez)) in *. set (B := 2 ^ (e - ez)) in *.
    set (T := 2 ^ 1021 * A) in *.
    assert (H1 : Zpos m * B <= (2 ^ 53 - 1) * B)
      by (apply Z.mul_le_mono_nonneg_r; lia).
    change (2 ^ 53) with 9007199254740992 in *.
    change (2 ^ 54) with 18014398509481984 in *.
    clearbody T A B. lia.
Qed.

Lemma roundDecimal_wellFormed (neg : bool) (m : N) (e10 : Z) :
  wellFormed (roundDecimal neg m e10).
Proof.
  unfold roundDecimal. destruct m as [|p]; [exact I|].
  destruct (Z.leb_spec 0 e10).
  - destruct (Zpos p * 10 ^ e10); try exact I. apply binary_round_wellFormed.
  - apply binary_round_aux_wellFormed.
    apply Z.div_pos; [|apply Z.pow_pos_nonneg; lia].
    apply Z.mul_nonneg_nonneg; [lia|]. apply Z.pow_nonneg. lia.
Qed.

Lemma StringToNumber_wellFormed (val : string) :
  wellFormed (StringToNumber val).
Proof.
  unfold StringToNumber.
  destruct (negb (truthy (trim val))); [exact I|].
  destruct (parseNonDecimal (trim val)).
  - apply binary_normalize_wellFormed.
  - match goal with
    | |- context [let '(neg, u) := ?p in _] => destruct p as [neg u]
    end.
    destruct (String.eqb u "Infinity"); [exact I|].
    destruct (parseUnsignedDecimal u) as [[m e]|]; [|exact I].
    apply roundDecimal_wellFormed.
Qed.


Lemma allDigits_app (a b : string) :
  allDigits (a ++ b) = allDigits a && allDigits b.
Proof.
  induction a as [|c a IH]; cbn; [reflexivity|].
  now rewrite IH, andb_assoc.
Qed.

Lemma allDigits_zeros (n : nat) : allDigits (zeros n) = true.
Proof. induction n; cbn; auto. Qed.

Lemma length_zeros (n : nat) : String.length (zeros n) = n.
Proof. induction n; cbn; auto. Qed.

Lemma length_app (a b : string) :
  String.length (a ++ b) = (String.length a + String.length b)%nat.
Proof. induction a as [|c a IH]; cbn; [reflexivity|now rewrite IH]. Qed.

Lemma allDigits_uint (d : Decimal.uint) :
  allDigits (NilEmpty.string_of_uint d) = true.
Proof. induction d; cbn; auto. Qed.

Lemma N_to_string_digits (n : N) :
  allDigits (N_to_string n) = true /\ truthy (N_to_string n) = true.
Proof.
  unfold N_to_string, NilZero.string_of_uint.
  destruct (N.to_uint n) as [|u|u|u|u|u|u|u|u|u|u]; cbn; auto;
    (split; [apply allDigits_uint|reflexivity]).
Qed.

Lemma Z_to_string_nonneg (z : Z) :
  0 <= z -> Z_to_string z = N_to_string (Z.to_N z).
Proof. destruct z; cbn; intros; [reflexivity|reflexivity|lia]. Qed.

Lemma Z_to_string_literal (z : Z) : isIntegerLiteral (Z_to_string z) = true.
Proof.
  destruct z as [|p|p].
  - reflexivity.
  - unfold Z_to_string.
    destruct (N_to_string_digits (Z.to_N (Zpos p))) as [Hd Ht].
    unfold isIntegerLiteral.
    destruct (N_to_string (Z.to_N (Zpos p))) as [|c r]; [discriminate|].
    assert (Hc : isDigit c = true) by (cbn in Hd; now apply andb_prop in Hd).
    destruct (Ascii.eqb_spec c "-") as [->|]; [discriminate|].
    cbn [truthy andb].
    destruct c as [[] [] [] [] [] [] [] []]; try exact Hd; discriminate.
  - unfold Z_to_string. cbn [append].
    destruct (N_to_string_digits (Npos p)) as [Hd Ht].
    unfold isIntegerLiteral. now rewrite Ht, Hd.
Qed.

Lemma isDigit_not_dot (c : ascii) : isDigit c = true -> Ascii.eqb c "." = false.
Proof.
  destruct (Ascii.eqb_spec c ".") as [->|]; [discriminate|reflexivity].
Qed.

Lemma allDigits_noDot (s : string) :
  allDigits s = true -> noDot s = true.
Proof.
  induction s as [|c s IH]; cbn; [reflexivity|].
  intros H. apply andb_prop in H. destruct H as [Hc Hs].
  now rewrite (isDigit_not_dot c Hc), IH.
Qed.

Lemma beforeDot_app (a b : string) :
  noDot a = true -> beforeDot (a ++ String "." b) = a.
Proof.
  induction a as [|c a IH]; cbn; [reflexivity|].
  destruct (Ascii.eqb c "."); cbn; [discriminate|].
  intros H. now rewrite IH.
Qed.

Lemma afterDot_app (a b : string) :
  noDot a = true -> afterDot (a ++ String "." b) = Some b.
Proof.
  induction a as [|c a IH]; cbn; [reflexivity|].
  destruct (Ascii.eqb c "."); cbn; [discriminate|auto].
Qed.

Lemma allDigits_substring (s : string) (n m : nat) :
  allDigits s = true -> allDigits (substring n m s) = true.
Proof.
  revert n m. induction s as [|c s IH]; intros n m H.
  - destruct n, m; reflexivity.
  - cbn in H. apply andb_prop in H. destruct H as [Hc Hs].
    destruct n as [|n]; [destruct m as [|m]|]; cbn; auto.
    now rewrite Hc, IH.
Qed.

Lemma length_substring (s : string) (n m : nat) :
  (n + m <= String.length s)%nat -> String.length (substring n m s) = m.
Proof.
  revert n m. induction s as [|c s IH]; intros n m H; cbn in H.
  - destruct n, m; cbn; lia.
  - destruct n as [|n]; [destruct m as [|m]|]; cbn; auto.
    + rewrite IH; lia.
    + apply IH. lia.
Qed.

(** A sign, digits, a full stop and two digits have two decimals. *)
Lemma twoDecimals_intro (negative : bool) (a b : string) :
  truthy a = true -> allDigits a = true ->
  allDigits b = true -> String.length b = 2%nat ->
  twoDecimals ((if negative then "-" else EmptyString) ++ a ++ "." ++ b)
  = true.
Proof.
  intros Ht Ha Hb Hl. unfold twoDecimals.
  assert (Hn : noDot ((if negative then "-" else EmptyString) ++ a)
               = true)
    by (destruct negative; cbn; now apply allDigits_noDot).
  rewrite <- append_assoc_r.
  change ("." ++ b) with (String "." b).
  rewrite (beforeDot_app _ b Hn), (afterDot_app _ b Hn), Hl, Hb.
  rewrite andb_true_r. cbn [Nat.eqb].
  destruct negative; cbn [append].
  - unfold isIntegerLiteral. cbn. now rewrite Ht, Ha.
  - unfold isIntegerLiteral.
    destruct a as [|c r]; [discriminate|].
    assert (Hc : isDigit c = true) by (cbn in Ha; now apply andb_prop in Ha).
    destruct c as [[] [] [] [] [] [] [] []]; try exact Ha; discriminate.
Qed.

Lemma scaledRound_nonneg (f : Z) (m : positive) (e : Z) :
  0 <= f -> 0 <= scaledRound f m e.
Proof.
  intros Hf. unfold scaledRound. destruct (Z.leb_spec 0 e).
  - pose proof (Z.pow_nonneg 2 e ltac:(lia)).
    pose proof (Z.pow_nonneg 10 f ltac:(lia)). nia.
  - pose proof (Z.pow_pos_nonneg 2 (- e) ltac:(lia) ltac:(lia)).
    pose proof (Z.pow_nonneg 10 f ltac:(lia)).
    apply Z.div_pos; nia.
Qed.

(** [toFixed(2)] of a finite number below [10^21] has two decimals. *)
Lemma toFixed_two_decimals (x : number) :
  isFinite x = true -> Z.abs (truncate x) < 10 ^ 21 ->
  twoDecimals (toFixed 2 x) = true.
Proof.
  destruct x as [s|s| |s m e]; try discriminate; intros _ Hsmall.
  - reflexivity.
  - unfold toFixed.
    destruct (Z.leb_spec (10 ^ 21) (Z.abs (truncate (S754_finite s m e))));
      [lia|].
    change (2 =? 0) with false. cbv iota.
    pose proof (scaledRound_nonneg 2 m e ltac:(lia)) as Hn.
    rewrite (Z_to_string_nonneg _ Hn).
    destruct (N_to_string_digits (Z.to_N (scaledRound 2 m e))) as [Hd Ht].
    set (ds := N_to_string (Z.to_N (scaledRound 2 m e))) in *.
    set (padded :=
           if Z.of_nat (String.length ds) <=? 2
           then zeros (Z.to_nat (2 + 1 - Z.of_nat (String.length ds))) ++ ds
           else ds).
    assert (Hp : allDigits padded = true
                 /\ (3 <= String.length padded)%nat).
    { subst padded.
      destruct (Z.leb_spec (Z.of_nat (String.length ds)) 2).
      - rewrite allDigits_app, allDigits_zeros, Hd, length_app, length_zeros.
        split; [reflexivity|lia].
      - split; [exact Hd|lia]. }
    destruct Hp as [Hpd Hpl].
    cbv zeta. fold padded.
    apply twoDecimals_intro.
    + assert (L : String.length
                    (substring 0
                       (Z.to_nat (Z.of_nat (String.length padded) - 2)) padded)
                  = Z.to_nat (Z.of_nat (String.length padded) - 2))
        by (apply length_substring; lia).
      destruct (substring 0 _ padded); [cbn in L; lia|reflexivity].
    + now apply allDigits_substring.
    + now apply allDigits_substring.
    + apply length_substring. lia.
Qed.

Lemma fractional_is_small (x : number) :
  wellFormed x -> isInteger x = false -> Z.abs (truncate x) < 10 ^ 21.
Proof.
  assert (H0 : 0 < 10 ^ 21) by (apply Z.pow_pos_nonneg; lia).
  destruct x as [s|s| |s m e]; cbn [truncate];
    try (intros; change (Z.abs 0) with 0; exact H0).
  intros [Hm _] Hi. cbn [isInteger] in Hi.
  apply orb_false_elim in Hi. destruct Hi as [He _]. rewrite He.
  apply Z.leb_gt in He.
  pose proof (Z.pow_pos_nonneg 2 (- e) ltac:(lia) ltac:(lia)) as Hpos.
  assert (Hq : 0 <= Zpos m / 2 ^ (- e) <= Zpos m).
  { split; [apply Z.div_pos; lia|].
    apply Z.div_le_upper_bound; [lia|]. nia. }
  assert (2 ^ 53 < 10 ^ 21) by (apply Z.ltb_lt; vm_compute; reflexivity).
  destruct s; cbn [cond_Zopp]; lia.
Qed.

(** *** Integers below [2^53] *)

Lemma Zdigits2_unique (x n : Z) :
  2 ^ (n - 1) <= x < 2 ^ n -> 0 < x -> Zdigits2 x = n.
Proof.
  intros [Hlo Hhi] Hx.
  pose proof (Zdigits2_lt x ltac:(lia)) as H1.
  pose proof (Zdigits2_ge x Hx) as H2.
  pose proof (Zdigits2_nonneg x) as H0.
  assert (0 < n).
  { destruct (Z.lt_ge_cases 0 n) as [|Hn]; [assumption|exfalso].
    destruct (Z.eq_dec n 0) as [->|]; [cbn in Hhi; lia|].
    rewrite (Z.pow_neg_r 2 n) in Hhi by lia. lia. }
  assert (Zdigits2 x - 1 < n) by (apply (Z.pow_lt_mono_r_iff 2); lia).
  assert (n - 1 < Zdigits2 x) by (apply (Z.pow_lt_mono_r_iff 2); lia).
  lia.
Qed.

Lemma represents_integer (x : number) (v : Z) :
  represents x v -> isInteger x = true /\ truncate x = v.
Proof.
  destruct x as [s|s| |s m e]; cbn [represents]; try contradiction.
  - intros ->. auto.
  - intros H. cbn [isInteger truncate].
    destruct (Z.leb_spec 0 e) as [He|He].
    + split; [reflexivity|].
      rewrite Z.max_l in H by lia. rewrite Z.max_r in H by lia.
      change (2 ^ 0) with 1 in H. destruct s; cbn [cond_Zopp] in *; lia.
    + rewrite Z.max_r in H by lia. rewrite Z.max_l in H by lia.
      change (2 ^ 0) with 1 in H. rewrite Z.mul_1_r in H.
      pose proof (Z.pow_pos_nonneg 2 (- e) ltac:(lia) ltac:(lia)) as Hp.
      assert (Hm : Zpos m = Z.abs v * 2 ^ (- e))
        by (destruct s; cbn [cond_Zopp] in H; nia).
      split.
      * cbn [orb]. rewrite Hm, Z.mod_mul by lia. reflexivity.
      * rewrite Hm, Z.div_mul by lia.
        destruct s; cbn [cond_Zopp] in *; nia.
Qed.

Lemma integer_represents (x : number) :
  isInteger x = true -> represents x (truncate x).
Proof.
  destruct x as [s|s| |s m e]; cbn [isInteger]; try discriminate.
  - reflexivity.
  - intros H. cbn [represents truncate].
    destruct (Z.leb_spec 0 e) as [He|He].
    + rewrite Z.max_l by lia. rewrite Z.max_r by lia.
      change (2 ^ 0) with 1. destruct s; cbn [cond_Zopp]; lia.
    + cbn [orb] in H. apply Z.eqb_eq in H.
      rewrite Z.max_r by lia. rewrite Z.max_l by lia.
      change (2 ^ 0) with 1. rewrite Z.mul_1_r.
      pose proof (Z.pow_pos_nonneg 2 (- e) ltac:(lia) ltac:(lia)) as Hp.
      pose proof (Z.div_mod (Zpos m) (2 ^ (- e)) ltac:(lia)) as Hdm.
      rewrite H in Hdm.
      destruct s; cbn [cond_Zopp]; lia.
Qed.

Lemma pow2_split (a b : Z) : 0 <= a -> 0 <= b -> 2 ^ (a + b) = 2 ^ a * 2 ^ b.
Proof. intros. apply Z.pow_add_r; assumption. Qed.

(** Rounding an integer below [2^53] changes nothing. *)
Lemma binary_round_exact (sx : bool) (m : positive) (e v : Z) :
  0 < v < 2 ^ 53 ->
  Zpos m * 2 ^ Z.max e 0 = v * 2 ^ Z.max (- e) 0 ->
  represents (binary_round prec emax sx m e) (cond_Zopp sx v).
Proof.
  intros Hv Hval.
  pose proof (digits2_pos_lt m) as Hlt.
  pose proof (digits2_pos_ge m) as Hge.
  set (d := Zpos (digits2_pos m)) in *.
  assert (Hd0 : 0 < d) by (subst d; lia).
  (* the value has at most 53 bits *)
  assert (Hd : d + e <= 53).
  { destruct (Z.le_gt_cases (d + e) 53) as [|Hgt]; [assumption|exfalso].
    destruct (Z.le_gt_cases 0 e) as [He|He].
    - rewrite Z.max_l, Z.max_r in Hval by lia.
      change (2 ^ 0) with 1 in Hval.
      assert (2 ^ 53 <= 2 ^ (d - 1 + e)) by (apply Z.pow_le_mono_r; lia).
      rewrite pow2_split in H by lia.
      pose proof (Z.pow_pos_nonneg 2 e ltac:(lia) He).
      assert (2 ^ (d - 1) * 2 ^ e <= Zpos m * 2 ^ e)
        by (apply Z.mul_le_mono_nonneg_r; lia).
      lia.
    - rewrite Z.max_r, Z.max_l in Hval by lia.
      change (2 ^ 0) with 1 in Hval.
      assert (2 ^ (53 + - e) <= 2 ^ (d - 1)) by (apply Z.pow_le_mono_r; lia).
      rewrite pow2_split in H by lia.
      pose proof (Z.pow_pos_nonneg 2 (- e) ltac:(lia) ltac:(lia)).
      assert (v * 2 ^ (- e) < 2 ^ 53 * 2 ^ (- e))
        by (apply Z.mul_lt_mono_pos_r; lia).
      lia. }
  unfold binary_round. fold d. rewrite fexp_eq.
  set (t := Z.max (d + e - 53) (-1074)).
  assert (Ht : -1074 <= t <= 0) by lia.
  pose proof (shl_align_spec m e t) as Hsh.
  destruct (shl_align m e t) as [mz ez].
  destruct Hsh as [Hez Hmz].
  assert (Hez0 : ez <= 0) by lia.
  (* the aligned mantissa is the value at exponent [ez] *)
  assert (Hmzv : Zpos mz = v * 2 ^ (- ez)).
  { rewrite Hmz.
    destruct (Z.le_gt_cases 0 e) as [He|He].
    - rewrite Z.max_l, Z.max_r in Hval by lia.
      change (2 ^ 0) with 1 in Hval.
      replace (e - ez) with (e + - ez) by lia.
      rewrite pow2_split by lia. lia.
    - rewrite Z.max_r, Z.max_l in Hval by lia.
      change (2 ^ 0) with 1 in Hval.
      replace (- ez) with (- e + (e - ez)) by lia.
      rewrite pow2_split by lia. lia. }
  assert (Hdz : Zdigits2 (Zpos mz) = d + (e - ez)).
  { apply Zdigits2_unique; [|lia].
    rewrite Hmz.
    replace (d + (e - ez) - 1) with (d - 1 + (e - ez)) by lia.
    rewrite !pow2_split by lia.
    pose proof (Z.pow_pos_nonneg 2 (e - ez) ltac:(lia) ltac:(lia)).
    split.
    - apply Z.mul_le_mono_nonneg_r; lia.
    - apply Z.mul_lt_mono_pos_r; lia. }
  unfold binary_round_aux.
  pose proof (shr_fexp_spec (Zpos mz) ez loc_Exact ltac:(lia)) as H1.
  destruct (shr_fexp prec emax (Zpos mz) ez loc_Exact) as [r1 e1].
  destruct H1 as (He1 & (rem & _ & HM & Hrem & Hr) & Hx & Hq1).
  rewrite Hdz in He1.
  assert (E1 : e1 = t) by lia. clear He1. subst e1.
  (* nothing is shifted out *)
  assert (Hq : shr_m r1 = v * 2 ^ (- t) /\ rem = 0).
  { rewrite Hmzv in HM.
    replace (- ez) with (- t + (t - ez)) in HM by lia.
    rewrite pow2_split, Z.mul_assoc in HM by lia.
    pose proof (Z.pow_pos_nonneg 2 (t - ez) ltac:(lia) ltac:(lia)) as HA.
    set (A := 2 ^ (t - ez)) in *. set (B := v * 2 ^ (- t)) in *.
    assert ((B - shr_m r1) * A = rem) by lia.
    assert (B - shr_m r1 = 0) by nia.
    lia. }
  destruct Hq as [Hq ->].
  assert (Hrb : shr_r r1 = false).
  { destruct (shr_r r1) eqn:E; [|reflexivity].
    destruct (Z.eq_dec t ez) as [Heq|]; [now apply Hx|].
    specialize (Hr eq_refl ltac:(lia)).
    pose proof (Z.pow_pos_nonneg 2 (t - ez) ltac:(lia) ltac:(lia)). lia. }
  assert (Hm1 : round_nearest_even (shr_m r1) (loc_of_shr_record r1)
                = shr_m r1).
  { destruct (round_nearest_even_cases r1) as [E | [_ E]]; [exact E|].
    rewrite Hrb in E. discriminate. }
  rewrite Hm1.
  pose proof (Z.pow_pos_nonneg 2 (- t) ltac:(lia) ltac:(lia)) as Hpt.
  assert (Hqpos : 0 < shr_m r1) by nia.
  pose proof (shr_fexp_spec (shr_m r1) t loc_Exact ltac:(lia)) as H2.
  destruct (shr_fexp prec emax (shr_m r1) t loc_Exact) as [r2 e2].
  destruct H2 as (He2 & (rem2 & _ & HM2 & Hrem2 & _) & _ & _).
  assert (Hdq : Zdigits2 (shr_m r1) <= 53).
  { pose proof (Zdigits2_ge (shr_m r1) Hqpos).
    destruct (Z.le_gt_cases (Zdigits2 (shr_m r1)) 53) as [|Hgt]; [assumption|].
    exfalso.
    assert (2 ^ 53 <= 2 ^ (Zdigits2 (shr_m r1) - 1))
      by (apply Z.pow_le_mono_r; lia).
    lia. }
  assert (E2 : e2 = t) by lia. clear He2. subst e2.
  rewrite Z.sub_diag in HM2, Hrem2. change (2 ^ 0) with 1 in HM2, Hrem2.
  assert (Hm2 : shr_m r2 = shr_m r1) by lia.
  rewrite Hm2.
  destruct (shr_m r1) as [|p|p] eqn:Ep; try lia.
  change (emax - prec) with 971.
  destruct (Z.leb_spec t 971); [|lia].
  cbn [represents].
  rewrite Z.max_r, Z.max_l by lia. change (2 ^ 0) with 1.
  destruct sx; cbn [cond_Zopp]; lia.
Qed.

(** The same at any scale [2^N] that makes both sides integers. *)
Lemma represents_scale (z e v N : Z) :
  Z.max 0 (- e) <= N ->
  (z * 2 ^ Z.max e 0 = v * 2 ^ Z.max (- e) 0
   <-> z * 2 ^ (e + N) = v * 2 ^ N).
Proof.
  intros HN.
  destruct (Z.le_gt_cases 0 e) as [He|He].
  - rewrite Z.max_l, Z.max_r by lia. change (2 ^ 0) with 1.
    rewrite pow2_split by lia.
    pose proof (Z.pow_pos_nonneg 2 N ltac:(lia) ltac:(lia)) as HP.
    set (A := 2 ^ e) in *. set (B := 2 ^ N) in *.
    split; intros H; nia.
  - rewrite Z.max_r, Z.max_l by lia. change (2 ^ 0) with 1.
    assert (E : 2 ^ N = 2 ^ (- e) * 2 ^ (e + N))
      by (rewrite <- pow2_split by lia; f_equal; lia).
    rewrite E.
    pose proof (Z.pow_pos_nonneg 2 (e + N) ltac:(lia) ltac:(lia)) as HP.
    pose proof (Z.pow_pos_nonneg 2 (- e) ltac:(lia) ltac:(lia)) as HQ.
    clear E. set (A := 2 ^ (- e)) in *. set (B := 2 ^ (e + N)) in *.
    split; intros H; nia.
Qed.

Lemma binary_normalize_exact (z e v : Z) :
  Z.abs v < 2 ^ 53 ->
  z * 2 ^ Z.max e 0 = v * 2 ^ Z.max (- e) 0 ->
  represents (binary_normalize prec emax z e false) v.
Proof.
  intros Hv Hval.
  pose proof (Z.pow_pos_nonneg 2 (Z.max e 0) ltac:(lia) ltac:(lia)) as HA.
  pose proof (Z.pow_pos_nonneg 2 (Z.max (- e) 0) ltac:(lia) ltac:(lia)) as HB.
  destruct z as [|m|m]; cbn [binary_normalize].
  - cbn [represents]. nia.
  - assert (0 < v) by nia.
    apply (binary_round_exact false m e v); [lia|exact Hval].
  - assert (v < 0) by nia.
    replace v with (cond_Zopp true (- v)) by (cbn; lia).
    apply (binary_round_exact true m e (- v)); [lia|].
    rewrite <- Pos2Z.opp_pos in Hval. lia.
Qed.

Lemma ofZ_exact (p : Z) : Z.abs p < 2 ^ 53 -> represents (ofZ p) p.
Proof.
  intros Hp. apply binary_normalize_exact; [exact Hp|].
  cbn. reflexivity.
Qed.

(** The sum of two integers is exact when it stays below [2^53]. *)
Lemma add_exact (x y : number) (a b : Z) :
  represents x a -> represents y b -> Z.abs (a + b) < 2 ^ 53 ->
  represents (add x y) (a + b).
Proof.
  destruct x as [sx|sx| |sx mx ex]; cbn [represents]; try contradiction;
    destruct y as [sy|sy| |sy my ey]; cbn [represents]; try contradiction.
  - intros -> -> _. unfold add. cbn. destruct sx, sy; reflexivity.
  - intros -> Hy _. unfold add. cbn. exact Hy.
  - intros Hx -> _. unfold add. cbn. rewrite Z.add_0_r. exact Hx.
  - intros Hx Hy Hsum. unfold add. cbn [SFadd].
    assert (HN : exists N,
               Z.max 0 (- Z.min ex ey) <= N
               /\ Z.max 0 (- ex) <= N /\ Z.max 0 (- ey) <= N)
      by (exists (Z.max 0 (- Z.min ex ey)); clear; lia).
    destruct HN as (N & HNz & HNx & HNy).
    assert (Hzx : Z.min ex ey <= ex) by (clear; lia).
    assert (Hzy : Z.min ex ey <= ey) by (clear; lia).
    pose proof (shl_align_spec mx ex (Z.min ex ey)) as HX.
    pose proof (shl_align_spec my ey (Z.min ex ey)) as HY.
    set (ez := Z.min ex ey) in *. clearbody ez.
    destruct (shl_align mx ex ez) as [X ex'].
    destruct (shl_align my ey ez) as [Y ey'].
    cbn [fst]. destruct HX as [Hex HX]. destruct HY as [Hey HY].
    rewrite Z.min_r in Hex, Hey by assumption. subst ex' ey'.
    apply binary_normalize_exact; [exact Hsum|].
    apply (proj2 (represents_scale _ ez (a + b) N HNz)).
    pose proof (proj1 (represents_scale _ ex a N HNx) Hx) as Hx'.
    pose proof (proj1 (represents_scale _ ey b N HNy) Hy) as Hy'.
    clear Hx Hy Hsum.
    assert (Pz : 0 <= ez + N) by (clear - HNz; lia).
    assert (EX : cond_Zopp sx (Zpos X) * 2 ^ (ez + N)
                 = cond_Zopp sx (Zpos mx) * 2 ^ (ex + N)).
    { replace (ex + N) with (ex - ez + (ez + N)) by (clear; lia).
      rewrite (pow2_split (ex - ez) (ez + N)) by (clear - Hzx Pz; lia).
      rewrite HX. clear. destruct sx; cbn [cond_Zopp]; lia. }
    assert (EY : cond_Zopp sy (Zpos Y) * 2 ^ (ez + N)
                 = cond_Zopp sy (Zpos my) * 2 ^ (ey + N)).
    { replace (ey + N) with (ey - ez + (ez + N)) by (clear; lia).
      rewrite (pow2_split (ey - ez) (ez + N)) by (clear - Hzy Pz; lia).
      rewrite HY. clear. destruct sy; cbn [cond_Zopp]; lia. }
    clear - EX EY Hx' Hy'. lia.
Qed.

End Rounding.

(** ** Composing a fresh trade *)

Section FreshTradeMessages.
Import JSString JSNumber JSDate FreshTrade.

Lemma truthy_app_r (a b : string) : truthy b = true -> truthy (a ++ b) = true.
Proof. destruct a; cbn; auto. Qed.

(** A range text is never the empty string. *)
Lemma getRangeText_truthy (val range : string) :
  getRangeText val = Some range -> truthy range = true.
Proof.
  unfold getRangeText.
  destruct (negb (isFinite (StringToNumber val))); [discriminate|].
  intros [= <-]. apply truthy_app_r. reflexivity.
Qed.

Lemma noRange_Some (val range : string) :
  getRangeText val = Some range -> noRange (getRangeText val) = false.
Proof.
  intros H. rewrite H. cbn. now rewrite (getRangeText_truthy val range H).
Qed.

(** The range fails exactly on a price that is no finite number. *)
Lemma noRange_iff (val : string) :
  noRange (getRangeText val) = negb (isFinite (StringToNumber val)).
Proof.
  destruct (getRangeText val) as [range|] eqn:H.
  - rewrite <- H, (noRange_Some val range H).
    unfold getRangeText in H.
    destruct (isFinite (StringToNumber val)); [reflexivity|discriminate].
  - unfold getRangeText in H.
    destruct (isFinite (StringToNumber val)); [discriminate|reflexivity].
Qed.

(** The empty string is the number zero, so it has a range. *)
Lemma getRangeText_empty : getRangeText EmptyString = Some "0 - 5".
Proof. vm_compute. reflexivity. Qed.

(** How [format] renders a finite, well-formed side: by [String(n)] when
    it is an integer, its plain digits when a safe one, and with two
    decimals otherwise. *)
Lemma format_side (n : number) :
  wellFormed n -> isFinite n = true ->
  (isInteger n = true ->
   format n = NumberToString n
   /\ (isSafeInteger n = true ->
       format n = Z_to_string (truncate n)
       /\ isIntegerLiteral (format n) = true))
  /\ (isInteger n = false ->
      format n = toFixed 2 n /\ twoDecimals (format n) = true).
Proof.
  intros Hwf Hfin. unfold format. split; intros Hi; rewrite Hi.
  - split; [reflexivity|]. intros Hsafe.
    assert (E : NumberToString n = Z_to_string (truncate n)).
    { destruct n as [z|z| |z m e]; try discriminate; [reflexivity|].
      unfold NumberToString. now rewrite Hsafe. }
    rewrite E. split; [reflexivity|apply Z_to_string_literal].
  - split; [reflexivity|].
    apply toFixed_two_decimals; [exact Hfin|].
    apply fractional_is_small; assumption.
Qed.

(** X1.  Composing a buy leg fails, with its validation message, exactly
    on a price that is no finite number; the empty string is none of
    these. *)
Theorem fresh_buy_invalid_iff (s : State) :
  action s = BUY ->
  (buildPreviewMessage s = Invalid "Enter valid buy price"
   <-> isFinite (StringToNumber (buyPrice s)) = false).
Proof.
  intros Ha. unfold buildPreviewMessage. rewrite Ha, noRange_iff.
  destruct (isFinite (StringToNumber (buyPrice s))); cbn; split;
    congruence.
Qed.

(** A price with a decimal comma is no number. *)
Lemma fresh_buy_invalid_iff_witness :
  buildPreviewMessage (run (mounted enGB 20396) [SetBuyPrice "160,5"])
  = Invalid "Enter valid buy price".
Proof.
  refine (proj2 (fresh_buy_invalid_iff
                   (run (mounted enGB 20396) [SetBuyPrice "160,5"]) _) _);
    reflexivity.
Defined.

(** X5.  Composing a sell leg fails, with its validation message, exactly
    on a price that is no finite number. *)
Lemma fresh_sell_invalid_iff (s : State) :
  action s = SELL ->
  (buildPreviewMessage s = Invalid "Enter valid sell price"
   <-> isFinite (StringToNumber (sellPrice s)) = false).
Proof.
  intros Ha. unfold buildPreviewMessage. rewrite Ha, noRange_iff.
  destruct (isFinite (StringToNumber (sellPrice s))); cbn; split;
    congruence.
Qed.

(** A price with two decimal points is no number. *)
Lemma fresh_sell_invalid_iff_witness :
  buildPreviewMessage
    (run (mounted enGB 20396) [SetAction SELL; SetSellPrice "95.5.0"])
  = Invalid "Enter valid sell price".
Proof.
  refine (proj2 (fresh_sell_invalid_iff
                   (run (mounted enGB 20396)
                      [SetAction SELL; SetSellPrice "95.5.0"]) _) _);
    reflexivity.
Defined.

Example range_of_text : getRangeText "abc" = None.
Proof. reflexivity. Qed.

Example range_of_spaces : getRangeText "  " = Some "0 - 5".
Proof. vm_compute. reflexivity. Qed.

Example range_of_tiny : getRangeText "1e-20" = Some "0.00 - 5".
Proof. vm_compute. reflexivity. Qed.

Example range_beyond_safe_integers :
  getRangeText "9007199254740992"
  = Some "9007199254740992 - 9007199254740996".
Proof. vm_compute. reflexivity. Qed.

(** X2.  Composing a directional trade fails, with its validation message,
    exactly when one of its two prices is no finite number. *)
Theorem fresh_both_invalid_iff (s : State) :
  action s = BOTH ->
  (buildPreviewMessage s = Invalid "Enter both buy and sell prices"
   <-> isFinite (StringToNumber (buyPrice s)) = false
       \/ isFinite (StringToNumber (sellPrice s)) = false).
Proof.
  intros Ha. unfold buildPreviewMessage. rewrite Ha, !noRange_iff.
  destruct (isFinite (StringToNumber (buyPrice s))),
    (isFinite (StringToNumber (sellPrice s))); cbn; split;
    try congruence; auto; intros [H|H]; discriminate.
Qed.

Lemma fresh_both_invalid_iff_witness :
  buildPreviewMessage
    (run (mounted enGB 20396) [SetAction BOTH; SetBuyPrice "160";
                               SetSellPrice "12,5"])
  = Invalid "Enter both buy and sell prices".
Proof.
  refine (proj2 (fresh_both_invalid_iff
                   (run (mounted enGB 20396)
                      [SetAction BOTH; SetBuyPrice "160";
                       SetSellPrice "12,5"]) _) _);
    [reflexivity | right; reflexivity].
Defined.

(** C4, at its failing input.  The form as it opens on 4 November 2025,
    with the buy price still empty: composing does not fail, the message
    names the band of a zero price. *)
Theorem fresh_buy_composes_from_empty_price :
  buyPrice (mounted enGB 20396) = EmptyString
  /\ buildPreviewMessage (mounted enGB 20396)
     = Composed
         ("FRESH TRADE" ++ LF ++ LF ++ DQUOTE ++ "BUY" ++ DQUOTE ++ " 11 Nov "
            ++ DQUOTE ++ "Nifty 24000 CE" ++ DQUOTE ++ " between 0 - 5").
Proof. split; vm_compute; reflexivity. Qed.

(** C6.  Strike 24000, CE, buy price "160", expiry "11 Nov", no stop loss:
    the message is exactly the header, a blank line and the one leg,
    whatever the other fields hold. *)
Theorem fresh_buy_scenario
    (confirmMode : bool) (preview : string) (direction : Direction)
    (buyLeg sellLeg : OptionType) (sellPrice sellStopLoss : string) :
  buildPreviewMessage
    {| confirmMode := confirmMode; preview := preview; action := BUY;
       strike := 24000; optionType := CE; marketDirection := direction;
       buyOptionType := buyLeg; sellOptionType := sellLeg;
       buyPrice := "160"; sellPrice := sellPrice; expiry := "11 Nov";
       buyStopLoss := EmptyString; sellStopLoss := sellStopLoss |}
  = Composed
      ("FRESH TRADE" ++ LF ++ LF ++ DQUOTE ++ "BUY" ++ DQUOTE ++ " 11 Nov "
         ++ DQUOTE ++ "Nifty 24000 CE" ++ DQUOTE ++ " between 160 - 165").
Proof. vm_compute. reflexivity. Qed.

Lemma truthy_false (v : string) : truthy v = false <-> v = EmptyString.
Proof. destruct v; cbn; split; congruence. Qed.

Lemma truthy_true (v : string) : truthy v = true <-> v <> EmptyString.
Proof. destruct v; cbn; split; congruence. Qed.

(** C10.  The stop-loss fields are never validated.  Once the prices give
    their ranges, an empty stop loss appends nothing and any other string is
    copied as it is into the appended line "Stop loss for <strike> <side>
    is <stopLoss>"; with both legs, the line names both stop losses when
    both are given and the one given otherwise. *)
Theorem stop_loss_is_copied_verbatim (s : State) :
  (action s = BUY ->
   forall range, getRangeText (buyPrice s) = Some range ->
   let main :=
     "FRESH TRADE" ++ LF ++ LF
       ++ leg "BUY" (expiry s) (strike s) (optionType s) range in
   (buyStopLoss s = EmptyString -> buildPreviewMessage s = Composed main)
   /\ (buyStopLoss s <> EmptyString ->
       buildPreviewMessage s
       = Composed
           (main ++ LF ++ LF ++ "Stop loss for " ++ strikeText (strike s)
              ++ " " ++ optionText (optionType s) ++ " is " ++ buyStopLoss s)))
  /\ (action s = SELL ->
      forall range, getRangeText (sellPrice s) = Some range ->
      let main :=
        "FRESH TRADE" ++ LF ++ LF
          ++ leg "SELL" (expiry s) (strike s) (optionType s) range in
      (sellStopLoss s = EmptyString -> buildPreviewMessage s = Composed main)
      /\ (sellStopLoss s <> EmptyString ->
          buildPreviewMessage s
          = Composed
              (main ++ LF ++ LF ++ "Stop loss for " ++ strikeText (strike s)
                 ++ " " ++ optionText (optionType s) ++ " is "
                 ++ sellStopLoss s)))
  /\ (action s = BOTH ->
      forall buyRange sellRange,
      getRangeText (buyPrice s) = Some buyRange ->
      getRangeText (sellPrice s) = Some sellRange ->
      let main :=
        "FRESH TRADE" ++ LF ++ LF
          ++ leg "BUY" (expiry s) (strike s) (buyOptionType s) buyRange ++ LF
          ++ "AND" ++ LF
          ++ leg "SELL" (expiry s) (strike s) (sellOptionType s) sellRange in
      (buyStopLoss s = EmptyString -> sellStopLoss s = EmptyString ->
       buildPreviewMessage s = Composed main)
      /\ (buyStopLoss s <> EmptyString -> sellStopLoss s = EmptyString ->
          buildPreviewMessage s
          = Composed
              (main ++ LF ++ LF ++ "Stop loss for " ++ strikeText (strike s)
                 ++ " " ++ optionText (buyOptionType s) ++ " is "
                 ++ buyStopLoss s))
      /\ (buyStopLoss s = EmptyString -> sellStopLoss s <> EmptyString ->
          buildPreviewMessage s
          = Composed
              (main ++ LF ++ LF ++ "Stop loss for " ++ strikeText (strike s)
                 ++ " " ++ optionText (sellOptionType s) ++ " is "
                 ++ sellStopLoss s))
      /\ (buyStopLoss s <> EmptyString -> sellStopLoss s <> EmptyString ->
          buildPreviewMessage s
          = Composed
              (main ++ LF ++ LF ++ "Stop loss for " ++ strikeText (strike s)
                 ++ " " ++ optionText (buyOptionType s) ++ " is "
                 ++ buyStopLoss s ++ " and " ++ strikeText (strike s)
                 ++ " " ++ optionText (sellOptionType s) ++ " is "
                 ++ sellStopLoss s))).
Proof.
  split; [|split].
  - intros Ha range Hr main. subst main.
    unfold buildPreviewMessage. rewrite Ha, (noRange_Some _ _ Hr), Hr. cbn [rangeText].
    split; intros Hsl.
    + rewrite Hsl. cbn [truthy]. now rewrite !append_empty_r.
    + apply truthy_true in Hsl. rewrite Hsl. now rewrite !append_assoc_r.
  - intros Ha range Hr main. subst main.
    unfold buildPreviewMessage. rewrite Ha, (noRange_Some _ _ Hr), Hr. cbn [rangeText].
    split; intros Hsl.
    + rewrite Hsl. cbn [truthy]. now rewrite !append_empty_r.
    + apply truthy_true in Hsl. rewrite Hsl. now rewrite !append_assoc_r.
  - intros Ha buyRange sellRange Hb Hs main. subst main.
    unfold buildPreviewMessage.
    rewrite Ha, (noRange_Some _ _ Hb), (noRange_Some _ _ Hs), Hb, Hs.
    cbn [rangeText orb].
    split; [|split; [|split]]; intros Hx Hy.
    + rewrite Hx, Hy. cbn [truthy andb orb]. now rewrite !append_empty_r.
    + apply truthy_true in Hx. rewrite Hx, Hy. cbn [truthy andb orb].
      now rewrite !append_assoc_r.
    + apply truthy_true in Hy. rewrite Hx, Hy. cbn [truthy andb orb].
      now rewrite !append_assoc_r.
    + apply truthy_true in Hx. apply truthy_true in Hy. rewrite Hx, Hy.
      cbn [andb]. now rewrite !append_assoc_r.
Qed.

(** A stop loss that is no number is copied all the same. *)
Lemma stop_loss_is_copied_verbatim_witness :
  action sellWithOddStopLoss = SELL
  /\ getRangeText (sellPrice sellWithOddStopLoss) = Some "210 - 215"
  /\ sellStopLoss sellWithOddStopLoss = "about 1e2"
  /\ buildPreviewMessage sellWithOddStopLoss
     = Composed
         ("FRESH TRADE" ++ LF ++ LF
            ++ leg "SELL" "11 Nov" 25000 PE "210 - 215"
            ++ LF ++ LF ++ "Stop loss for 25000 PE is about 1e2").
Proof.
  split; [reflexivity|]. split; [vm_compute; reflexivity|].
  split; [reflexivity|].
  destruct (stop_loss_is_copied_verbatim sellWithOddStopLoss)
    as (_ & Hsell & _).
  destruct (Hsell eq_refl "210 - 215") as [_ H]; [vm_compute; reflexivity|].
  apply H. discriminate.
Defined.

End FreshTradeMessages.

(** ** The legs of a directional trade *)

Section DirectionalLegs.
Import JSString JSNumber JSDate FreshTrade.

Lemma legsEffect_follows (s : State) : legsFollowDirection (legsEffect s).
Proof.
  unfold legsFollowDirection, legsEffect.
  destruct (action s) eqn:Ha; cbn; try congruence.
  destruct (marketDirection s) eqn:Hd; cbn; rewrite Hd; auto.
Qed.

Lemma sameAction_eq (a b : Action) : sameAction a b = true -> a = b.
Proof. destruct a, b; cbn; congruence. Qed.

Lemma sameDirection_eq (a b : Direction) : sameDirection a b = true -> a = b.
Proof. destruct a, b; cbn; congruence. Qed.

Lemma handlePreview_fields (s : State) :
  action (handlePreview s) = action s
  /\ marketDirection (handlePreview s) = marketDirection s
  /\ buyOptionType (handlePreview s) = buyOptionType s
  /\ sellOptionType (handlePreview s) = sellOptionType s.
Proof.
  unfold handlePreview.
  destruct (buildPreviewMessage s) as [msg|]; [|auto].
  destruct (negb (truthy msg)); cbn; auto.
Qed.

(** No handler sets a leg, except the reset, which sets all of them. *)
Lemma handle_keeps_legs (s : State) (ev : Event) :
  ev <> ResetForms ->
  buyOptionType (handle s ev) = buyOptionType s
  /\ sellOptionType (handle s ev) = sellOptionType s.
Proof.
  destruct ev; cbn; auto; [|congruence].
  intros _. destruct (handlePreview_fields s) as (_ & _ & Hb & Hs). auto.
Qed.

Lemma step_preserves (s : State) (ev : Event) :
  legsFollowDirection s -> legsFollowDirection (step s ev).
Proof.
  intros Inv. unfold step.
  destruct (sameAction (action s) (action (handle s ev))
            && sameDirection (marketDirection s) (marketDirection (handle s ev)))
    eqn:Hsame; [|apply legsEffect_follows].
  apply andb_prop in Hsame. destruct Hsame as [Ha Hd].
  apply sameAction_eq in Ha. apply sameDirection_eq in Hd.
  assert (Reset : ev = ResetForms \/ ev <> ResetForms)
    by (destruct ev; auto; right; discriminate).
  destruct Reset as [-> | Hev].
  - unfold legsFollowDirection. cbn. discriminate.
  - destruct (handle_keeps_legs s ev Hev) as [Hb Hs].
    unfold legsFollowDirection in *. rewrite <- Ha, <- Hd, Hb, Hs. exact Inv.
Qed.

Lemma mounted_follows (monthShort : Z -> string) (today : Date) :
  legsFollowDirection (mounted monthShort today).
Proof. apply legsEffect_follows. Qed.

Lemma run_preserves (evs : list Event) (s : State) :
  legsFollowDirection s -> legsFollowDirection (run s evs).
Proof.
  unfold run. revert s.
  induction evs as [|ev evs IH]; cbn; intros s Inv; [exact Inv|].
  apply IH, step_preserves, Inv.
Qed.

(** C5.  In every state the form can reach, whatever was selected before,
    a directional trade has the legs its market direction fixes: Bullish
    buys CE and sells PE, Bearish buys PE and sells CE; the legs are never
    equal, and it is these legs the composed message names. *)
Theorem both_legs_follow_direction
    (monthShort : Z -> string) (today : Date) (evs : list Event) :
  let s := run (mounted monthShort today) evs in
  action s = BOTH ->
  (marketDirection s = BULLISH ->
   buyOptionType s = CE /\ sellOptionType s = PE)
  /\ (marketDirection s = BEARISH ->
      buyOptionType s = PE /\ sellOptionType s = CE)
  /\ buyOptionType s <> sellOptionType s
  /\ (forall buyRange sellRange,
        getRangeText (buyPrice s) = Some buyRange ->
        getRangeText (sellPrice s) = Some sellRange ->
        exists stopLossMsg,
          buildPreviewMessage s
          = Composed
              ("FRESH TRADE" ++ LF ++ LF
                 ++ leg "BUY" (expiry s) (strike s)
                      (bought (marketDirection s)) buyRange ++ LF
                 ++ "AND" ++ LF
                 ++ leg "SELL" (expiry s) (strike s)
                      (sold (marketDirection s)) sellRange
                 ++ stopLossMsg)).
Proof.
  intros s Ha.
  destruct (run_preserves evs _ (mounted_follows monthShort today) Ha)
    as [Hb Hs].
  fold s in Hb, Hs.
  split; [|split; [|split]].
  - intros Hd. rewrite Hb, Hs, Hd. auto.
  - intros Hd. rewrite Hb, Hs, Hd. auto.
  - rewrite Hb, Hs. destruct (marketDirection s); cbn; discriminate.
  - intros buyRange sellRange Hbr Hsr.
    unfold buildPreviewMessage.
    rewrite Ha, (noRange_Some _ _ Hbr), (noRange_Some _ _ Hsr), Hbr, Hsr.
    cbn [rangeText orb]. rewrite Hb, Hs.
    eexists. rewrite !append_assoc_r. reflexivity.
Qed.

(** A trader picks PE for a single leg, turns to a directional trade,
    makes it Bearish and enters both prices. *)
Lemma both_legs_follow_direction_witness :
  let s :=
    run (mounted enGB 20396)
      [SetOptionType PE; SetAction BOTH; SetMarketDirection BEARISH;
       SetBuyPrice "160"; SetSellPrice "95.5"] in
  action s = BOTH
  /\ buyOptionType s = PE /\ sellOptionType s = CE
  /\ buyOptionType s <> sellOptionType s.
Proof.
  cbv zeta. split; [reflexivity|].
  destruct (both_legs_follow_direction enGB 20396
              [SetOptionType PE; SetAction BOTH; SetMarketDirection BEARISH;
               SetBuyPrice "160"; SetSellPrice "95.5"] eq_refl)
    as (_ & Hbear & Hne & _).
  destruct (Hbear eq_refl) as [Hb Hs].
  repeat split; assumption.
Defined.

End DirectionalLegs.

(** ** The strike grid *)

Section StrikeGrid.

(** X4.  The strikes on offer are the multiples of 50 from 24000 to
    50000. *)
Theorem strikes_grid (k : Z) :
  In k strikes <-> 24000 <= k <= 50000 /\ k mod 50 = 0.
Proof.
  unfold strikes. rewrite in_map_iff. split.
  - intros (i & <- & Hi). apply in_seq in Hi.
    split; [lia|].
    rewrite Z.mod_add by lia. reflexivity.
  - intros [Hr Hm].
    exists (Z.to_nat ((k - 24000) / 50)).
    assert (Hd : k - 24000 = 50 * ((k - 24000) / 50)).
    { apply Z.div_exact; [lia|].
      rewrite Zminus_mod, Hm. reflexivity. }
    split.
    + rewrite Z2Nat.id by (apply Z.div_pos; lia). lia.
    + apply in_seq.
      assert ((k - 24000) / 50 <= 520)
        by (apply Z.div_le_upper_bound; lia).
      assert (0 <= (k - 24000) / 50) by (apply Z.div_pos; lia).
      lia.
Qed.

Example first_and_last_strike :
  hd 0 strikes = 24000
  /\ last strikes 0 = 50000
  /\ List.length strikes = 521%nat.
Proof. repeat split; vm_compute; reflexivity. Qed.

End StrikeGrid.

(** ** Squaring off *)

Section SquareOffMessages.
Import JSString.

Lemma template_truthy (key actionText : string) :
  SquareOff.template SquareOff.squareOffTemplates key = Some actionText ->
  truthy actionText = true.
Proof.
  unfold SquareOff.squareOffTemplates. cbn [SquareOff.template].
  repeat match goal with
         | |- context [String.eqb key ?k] => destruct (String.eqb key k)
         end; intros [= <-]; reflexivity.
Qed.

(** C7.  Closing both legs, the market view fixes the direction: Bullish
    sells the CE at its exit price and buys the PE at its own, Bearish
    sells the PE and buys the CE.  For a Bullish view, strike 25900, exits
    120 and 125 and the template [book100] the message is exactly the one
    of the scenario. *)
Theorem square_off_both_follows_market_view :
  (forall (s : SquareOff.State) (actionText : string),
     SquareOff.exitMode s = Some BOTH ->
     SquareOff.template SquareOff.squareOffTemplates (SquareOff.action s)
     = Some actionText ->
     SquareOff.ceExit s <> EmptyString ->
     SquareOff.peExit s <> EmptyString ->
     let K := strikeText (SquareOff.strike s) in
     (SquareOff.marketView s = BULLISH ->
      SquareOff.buildMessage s
      = Composed
          ("SQUARE OFF" ++ LF ++ actionText ++ " Sell " ++ K ++ " CE @ "
             ++ SquareOff.ceExit s ++ " and Buy " ++ K ++ " PE @ "
             ++ SquareOff.peExit s))
     /\ (SquareOff.marketView s = BEARISH ->
         SquareOff.buildMessage s
         = Composed
             ("SQUARE OFF" ++ LF ++ actionText ++ " Sell " ++ K ++ " PE @ "
                ++ SquareOff.peExit s ++ " and Buy " ++ K ++ " CE @ "
                ++ SquareOff.ceExit s)))
  /\ (forall (singleExit preview : string) (selected : option OptionType),
        SquareOff.buildMessage
          {| SquareOff.exitMode := Some BOTH;
             SquareOff.marketView := BULLISH;
             SquareOff.strike := 25900;
             SquareOff.ceExit := "120";
             SquareOff.peExit := "125";
             SquareOff.singleExit := singleExit;
             SquareOff.selectedOption := selected;
             SquareOff.action := "book100";
             SquareOff.preview := preview |}
        = Composed
            ("SQUARE OFF" ++ LF
               ++ "Modify stop loss and book 100% profit. Sell 25900 CE @ 120 and Buy 25900 PE @ 125")).
Proof.
  split.
  - intros s actionText Hm Ht Hce Hpe K. subst K.
    unfold SquareOff.buildMessage.
    rewrite Ht, (template_truthy _ _ Ht), Hm.
    apply truthy_true in Hce. apply truthy_true in Hpe.
    rewrite Hce, Hpe. cbn [negb orb].
    split; intros ->; reflexivity.
  - intros. vm_compute. reflexivity.
Qed.

(** A Bearish close at strike 24500 under the template [stoploss]. *)
Lemma square_off_both_follows_market_view_witness :
  SquareOff.buildMessage
    {| SquareOff.exitMode := Some BOTH;
       SquareOff.marketView := BEARISH;
       SquareOff.strike := 24500;
       SquareOff.ceExit := "80";
       SquareOff.peExit := "140.5";
       SquareOff.singleExit := EmptyString;
       SquareOff.selectedOption := None;
       SquareOff.action := "stoploss";
       SquareOff.preview := EmptyString |}
  = Composed
      ("SQUARE OFF" ++ LF
         ++ "Stop loss triggered. Modify your stop loss and square off position."
         ++ " Sell 24500 PE @ 140.5 and Buy 24500 CE @ 80").
Proof.
  refine (proj2 (proj1 square_off_both_follows_market_view _ _ _ _ _ _) _);
    first [reflexivity | discriminate].
Defined.

(** X3.  Closing a single leg: leaving a bought option sells it, leaving a
    sold one buys it back; either needs the CE/PE choice and an exit price. *)
Theorem square_off_single_leg (s : SquareOff.State) (actionText : string) :
  SquareOff.template SquareOff.squareOffTemplates (SquareOff.action s)
  = Some actionText ->
  (SquareOff.exitMode s = Some BUY \/ SquareOff.exitMode s = Some SELL) ->
  let verb :=
    match SquareOff.exitMode s with
    | Some SELL => " Buy "
    | _ => " Sell "
    end in
  (forall opt,
     SquareOff.selectedOption s = Some opt ->
     SquareOff.singleExit s <> EmptyString ->
     SquareOff.buildMessage s
     = Composed
         ("SQUARE OFF" ++ LF ++ actionText ++ verb
            ++ strikeText (SquareOff.strike s) ++ " " ++ optionText opt
            ++ " @ " ++ SquareOff.singleExit s))
  /\ (SquareOff.selectedOption s = None
      \/ SquareOff.singleExit s = EmptyString ->
      exists toast, SquareOff.buildMessage s = Invalid toast).
Proof.
  intros Ht Hmode verb. subst verb.
  unfold SquareOff.buildMessage.
  rewrite Ht, (template_truthy _ _ Ht). cbn [negb].
  split.
  - intros opt Ho Hp. apply truthy_true in Hp.
    destruct Hmode as [-> | ->]; rewrite Ho, Hp; reflexivity.
  - intros [Ho | Hp].
    + destruct Hmode as [-> | ->]; rewrite Ho; eexists; reflexivity.
    + destruct Hmode as [-> | ->]; rewrite Hp;
        destruct (SquareOff.selectedOption s); eexists; reflexivity.
Qed.

Lemma square_off_single_leg_witness :
  SquareOff.buildMessage SquareOff.leaveSoldPut
  = Composed
      ("SQUARE OFF" ++ LF
         ++ "Modify stop loss and book 100% profit. Buy 24000 PE @ 35").
Proof.
  destruct (square_off_single_leg SquareOff.leaveSoldPut
              "Modify stop loss and book 100% profit." eq_refl
              (or_intror eq_refl)) as [H _].
  apply (H PE); [reflexivity|discriminate].
Defined.

(** C8.  On the expiry day the leg bought back is fixed by the market
    view alone, PE for Bullish and CE for Bearish: with an exit price and
    one of the five template ids the message is the header, the template's
    text and that purchase; without an exit price, or with another
    template id, composing fails with a validation message. *)
Theorem expiry_single_buys_back_by_market_view (s : ExpiryTrades.State) :
  map ExpiryTrades.id ExpiryTrades.expiryTemplates
  = ["book100"; "book50"; "trailprofit"; "trailclose"; "stoploss"]
  /\ (ExpiryTrades.exitPrice s <> EmptyString ->
      forall t,
        In t ExpiryTrades.expiryTemplates ->
        ExpiryTrades.template s = ExpiryTrades.id t ->
        ExpiryTrades.buildMessage s
        = Composed
            ("SQUARE OFF" ++ LF ++ ExpiryTrades.text t ++ " Buy "
               ++ strikeText (ExpiryTrades.strike s) ++ " "
               ++ optionText
                    (match ExpiryTrades.marketView s with
                     | BULLISH => PE
                     | BEARISH => CE
                     end)
               ++ " @ " ++ ExpiryTrades.exitPrice s))
  /\ (ExpiryTrades.exitPrice s = EmptyString ->
      ExpiryTrades.buildMessage s = Invalid "Enter Exit Price")
  /\ (ExpiryTrades.exitPrice s <> EmptyString ->
      ~ In (ExpiryTrades.template s)
          (map ExpiryTrades.id ExpiryTrades.expiryTemplates) ->
      ExpiryTrades.buildMessage s = Invalid "Select message type").
Proof.
  split; [reflexivity|]. split; [|split].
  - intros Hp t Hin Ht. apply truthy_true in Hp.
    unfold ExpiryTrades.buildMessage. rewrite Hp, Ht. cbn [negb].
    unfold ExpiryTrades.expiryTemplates in *. cbn [In] in Hin.
    destruct (ExpiryTrades.marketView s);
      repeat destruct Hin as [<- | Hin]; try contradiction; reflexivity.
  - intros Hp. unfold ExpiryTrades.buildMessage. rewrite Hp. reflexivity.
  - intros Hp Hnot. apply truthy_true in Hp.
    unfold ExpiryTrades.buildMessage. rewrite Hp. cbn [negb].
    destruct (find _ ExpiryTrades.expiryTemplates) as [t|] eqn:Hf;
      [|reflexivity].
    apply find_some in Hf. destruct Hf as [Hin Heq].
    apply String.eqb_eq in Heq. exfalso. apply Hnot.
    rewrite <- Heq. apply in_map, Hin.
Qed.

(** A Bullish view at the default strike buys back the PE. *)
Lemma expiry_single_buys_back_by_market_view_witness :
  ExpiryTrades.buildMessage
    {| ExpiryTrades.marketView := BULLISH;
       ExpiryTrades.strike := 25900;
       ExpiryTrades.exitPrice := "42";
       ExpiryTrades.template := "trailclose";
       ExpiryTrades.preview := EmptyString |}
  = Composed
      ("SQUARE OFF" ++ LF
         ++ "Trailing stop loss triggered. Modify your stop loss and square off position."
         ++ " Buy 25900 PE @ 42").
Proof.
  refine (proj1 (proj2 (expiry_single_buys_back_by_market_view _))
            _ {| ExpiryTrades.id := "trailclose";
                 ExpiryTrades.label := "Trailing Stop Loss Triggered - Square Off";
                 ExpiryTrades.text :=
                   "Trailing stop loss triggered. Modify your stop loss and square off position." |}
            _ _);
    [discriminate | cbn; auto 6 | reflexivity].
Defined.

End SquareOffMessages.

(** ** What the handler answers *)

Section HandlerAnswers.
Import JSString SendMessage.

(** What the handler does once the gate is passed: one call, and the
    answer by what the messaging API says. *)
Lemma POST_past_the_gate (r : Request) (session : option Session)
    (mail : string) (message : option JSON) :
  getServerSession r = Resolved session ->
  sessionEmail session = Some mail ->
  includes (authorized (env r)) mail = true ->
  bind (json r) destructureMessage = Resolved message ->
  falsy message = false ->
  POST r
  = ([ {| url := "https://api.telegram.org/bot"
                   ++ orUndefined (TELEGRAM_BOT_TOKEN (env r))
                   ++ "/sendMessage";
          chat_id := TELEGRAM_CHAT_ID (env r);
          text := match message with Some m => m | None => JNull end |} ],
     match fetch r with
     | Rejected err => respond 500 err
     | Resolved res =>
         match description res with
         | Rejected err => respond 500 err
         | Resolved d =>
             if ok res then {| status := 200; body := SuccessBody |}
             else respond 500
                    (match d with
                     | Some s => if truthy s then s else "Failed to send message"
                     | None => "Failed to send message"
                     end)
         end
     end).
Proof.
  intros Hs He Hw Hm Hf. unfold POST, POST_try.
  rewrite Hs, He, Hw, Hm, Hf. cbn [negb].
  destruct (fetch r) as [res|err]; cbn [bind]; [|reflexivity].
  destruct (description res) as [d|err]; cbn [bind]; [|reflexivity].
  destruct (ok res); reflexivity.
Qed.

(** Either a gate or an error stops the request before any call, or the
    gate is passed. *)
Lemma POST_gate_cases (r : Request) :
  (fst (POST r) = []
   /\ In (status (snd (POST r))) [400; 401; 403; 500]
   /\ body (snd (POST r)) <> SuccessBody)
  \/ (exists session mail message,
        getServerSession r = Resolved session
        /\ sessionEmail session = Some mail
        /\ includes (authorized (env r)) mail = true
        /\ bind (json r) destructureMessage = Resolved message
        /\ falsy message = false).
Proof.
  destruct (getServerSession r) as [session|err] eqn:Hs.
  2:{ left. rewrite (POST_session_error r err Hs). cbn. intuition discriminate. }
  destruct (sessionEmail session) as [mail|] eqn:He.
  2:{ left. rewrite (POST_no_email r session Hs He). cbn. intuition discriminate. }
  destruct (includes (authorized (env r)) mail) eqn:Hw.
  2:{ left. rewrite (POST_not_whitelisted r session mail Hs He Hw). cbn.
      intuition discriminate. }
  destruct (bind (json r) destructureMessage) as [message|err] eqn:Hm.
  2:{ left. unfold POST, POST_try. rewrite Hs, He, Hw, Hm. cbn.
      intuition discriminate. }
  destruct (falsy message) eqn:Hf.
  { left. rewrite (POST_falsy_message r session mail message Hs He Hw Hm Hf).
    cbn. intuition discriminate. }
  right. exists session, mail, message. auto.
Qed.

(** X6.  The handler calls the messaging API at most once for a request, at
    the [sendMessage] URL of the configured bot and for the configured
    chat; neither setting is checked: a token that is not set is spelled
    "undefined" in the URL. *)
Theorem handler_calls_the_bot_at_most_once (r : Request) :
  (List.length (fst (POST r)) <= 1)%nat
  /\ (forall call,
        In call (fst (POST r)) ->
        url call
        = "https://api.telegram.org/bot"
            ++ orUndefined (TELEGRAM_BOT_TOKEN (env r)) ++ "/sendMessage"
        /\ chat_id call = TELEGRAM_CHAT_ID (env r))
  /\ (TELEGRAM_BOT_TOKEN (env r) = None ->
      forall call,
        In call (fst (POST r)) ->
        url call = "https://api.telegram.org/botundefined/sendMessage").
Proof.
  destruct (POST_gate_cases r)
    as [(Hn & _) | (session & mail & message & Hs & He & Hw & Hm & Hf)].
  - rewrite Hn. cbn. split; [lia|]. split; [intros call []|intros _ call []].
  - rewrite (POST_past_the_gate r session mail message Hs He Hw Hm Hf).
    cbn [fst List.length In]. split; [lia|]. split.
    + intros call [<-|[]]. split; reflexivity.
    + intros Hn call [<-|[]]. cbn [url]. rewrite Hn. reflexivity.
Qed.

(** X7.  The handler answers 200 exactly when the request passed the gate
    and the messaging API answered, with a body that parses, that it
    accepted the message.  Its status is one of 200, 400, 401, 403 and
    500, and every answer but the 200 carries an error text. *)
Theorem handler_succeeds_iff_delivered (r : Request) :
  (status (snd (POST r)) = 200
   <-> exists session mail message res d,
         getServerSession r = Resolved session
         /\ sessionEmail session = Some mail
         /\ In mail (authorized (env r))
         /\ bind (json r) destructureMessage = Resolved (Some message)
         /\ falsy (Some message) = false
         /\ fetch r = Resolved res
         /\ description res = Resolved d
         /\ ok res = true)
  /\ (status (snd (POST r)) = 200
      <-> snd (POST r) = {| status := 200; body := SuccessBody |})
  /\ In (status (snd (POST r))) [200; 400; 401; 403; 500]
  /\ (status (snd (POST r)) <> 200 ->
      exists error, body (snd (POST r)) = ErrorBody error).
Proof.
  destruct (POST_gate_cases r)
    as [(Hn & Hst & Hb) | (session & mail & message & Hs & He & Hw & Hm & Hf)].
  - assert (H200 : status (snd (POST r)) <> 200)
      by (cbn [In] in Hst; intuition congruence).
    split; [|split; [|split]].
    + split; [intros H; contradiction|].
      intros (session & mail & message & res & d & Hs & He & Hw & Hm & Hf & _).
      apply includes_In in Hw.
      rewrite (POST_past_the_gate r session mail _ Hs He Hw Hm Hf) in Hn.
      discriminate Hn.
    + split; [intros H; contradiction|]. intros H. rewrite H in H200.
      now contradiction H200.
    + cbn [In] in *. intuition.
    + intros _. destruct (body (snd (POST r))) as [e|]; [eauto|congruence].
  - rewrite (POST_past_the_gate r session mail message Hs He Hw Hm Hf).
    cbn [snd].
    assert (Hmsg : exists m, message = Some m)
      by (destruct message as [m|]; [eauto|discriminate Hf]).
    destruct Hmsg as [m ->].
    destruct (fetch r) as [res|err] eqn:Hfetch.
    + destruct (description res) as [d|err] eqn:Hd.
      * destruct (ok res) eqn:Hok.
        -- split; [|split; [|split]].
           ++ split; [|reflexivity]. intros _.
              exists session, mail, m, res, d. apply includes_In in Hw. auto 10.
           ++ split; reflexivity.
           ++ cbn. auto.
           ++ intros H. now contradiction H.
        -- split; [|split; [|split]].
           ++ split; [discriminate|].
              intros (_ & _ & _ & res' & _ & _ & _ & _ & _ & _ & [= <-] & _ & Hok').
              congruence.
           ++ split; discriminate.
           ++ cbn. auto 6.
           ++ intros _. eexists. reflexivity.
      * split; [|split; [|split]].
        -- split; [discriminate|].
           intros (_ & _ & _ & res' & d' & _ & _ & _ & _ & _ & [= <-] & Hd' & _).
           congruence.
        -- split; discriminate.
        -- cbn. auto 6.
        -- intros _. eexists. reflexivity.
    + split; [|split; [|split]].
      * split; [discriminate|].
        intros (_ & _ & _ & res' & d' & _ & _ & _ & _ & _ & [=] & _).
      * split; discriminate.
      * cbn. auto 6.
      * intros _. eexists. reflexivity.
Qed.

(** X8.  Once the call is made, whatever goes wrong with it is answered
    500: a failed call with its error, an answer whose body does not parse
    with the parse error, even when the API accepted the message, and a
    refusal with the description the API gives, or "Failed to send
    message" when it gives none or an empty one. *)
Theorem handler_reports_a_failed_call (r : Request) (call : Forwarded) :
  In call (fst (POST r)) ->
  (forall err, fetch r = Rejected err -> snd (POST r) = respond 500 err)
  /\ (forall res err,
        fetch r = Resolved res -> description res = Rejected err ->
        snd (POST r) = respond 500 err)
  /\ (forall res d,
        fetch r = Resolved res -> description res = Resolved d ->
        ok res = false ->
        snd (POST r)
        = respond 500
            (match d with
             | Some s => if truthy s then s else "Failed to send message"
             | None => "Failed to send message"
             end)).
Proof.
  intros Hin.
  destruct (POST_forwards_only_past_the_gate r call Hin)
    as (session & mail & message & Hs & He & Hw & Hm & Hf & _).
  rewrite (POST_past_the_gate r session mail _ Hs He Hw Hm Hf). cbn [snd].
  split; [|split].
  - intros err ->. reflexivity.
  - intros res err -> ->. reflexivity.
  - intros res d -> -> ->. reflexivity.
Qed.

(** The API refuses the message of a whitelisted principal. *)
Lemma handler_reports_a_failed_call_witness :
  snd (POST refusing) = respond 500 "Bad Request: chat not found".
Proof.
  destruct (handler_reports_a_failed_call refusing
              {| url := "https://api.telegram.org/botTOKEN/sendMessage";
                 chat_id := Some "-1001";
                 text := JString "BUY" |}) as (_ & _ & H).
  - left. reflexivity.
  - apply (H {| ok := false;
                description := Resolved (Some "Bad Request: chat not found") |}
             (Some "Bad Request: chat not found")); reflexivity.
Defined.

End HandlerAnswers.

(** ** The two whitelists *)

Section Whitelists.
Import JSString SendMessage TelegramPage.

Lemma trimStart_clean (s : string) :
  trimStart s = EmptyString
  \/ exists c u, trimStart s = String c u /\ isWhiteSpaceChar c = false.
Proof.
  induction s as [|c s IH]; cbn [trimStart]; [auto|].
  destruct (isWhiteSpaceChar c) eqn:Hc; [exact IH|].
  right. exists c, s. auto.
Qed.

Lemma trimEnd_idempotent (s : string) : trimEnd (trimEnd s) = trimEnd s.
Proof.
  induction s as [|c s IH]; [reflexivity|].
  cbn [trimEnd].
  destruct (trimEnd s) as [|d u] eqn:Hs.
  - destruct (isWhiteSpaceChar c) eqn:Hc; [reflexivity|].
    cbn [trimEnd]. now rewrite Hc.
  - cbn [trimEnd] in *. now rewrite IH.
Qed.

Lemma trimEnd_head (c : ascii) (s : string) :
  isWhiteSpaceChar c = false ->
  exists u, trimEnd (String c s) = String c u.
Proof.
  intros Hc. cbn [trimEnd]. rewrite Hc.
  destruct (trimEnd s); eauto.
Qed.

(** Trimming twice is trimming once. *)
Lemma trim_idempotent (s : string) : trim (trim s) = trim s.
Proof.
  unfold trim.
  destruct (trimStart_clean s) as [E | (c & u & E & Hc)]; rewrite E.
  - reflexivity.
  - destruct (trimEnd_head c u Hc) as [v Hv]. rewrite Hv.
    cbn [trimStart]. rewrite Hc. rewrite <- Hv. apply trimEnd_idempotent.
Qed.

Lemma hasChar_trimStart (c : ascii) (s : string) :
  hasChar c s = false -> hasChar c (trimStart s) = false.
Proof.
  induction s as [|a s IH]; cbn [trimStart hasChar]; [auto|].
  intros H. apply orb_false_elim in H. destruct H as [Ha Hs].
  destruct (isWhiteSpaceChar a); [auto|].
  cbn [hasChar]. now rewrite Ha, Hs.
Qed.

Lemma hasChar_trimEnd (c : ascii) (s : string) :
  hasChar c s = false -> hasChar c (trimEnd s) = false.
Proof.
  induction s as [|a s IH]; cbn [trimEnd hasChar]; [auto|].
  intros H. apply orb_false_elim in H. destruct H as [Ha Hs].
  specialize (IH Hs).
  destruct (trimEnd s) as [|d u].
  - destruct (isWhiteSpaceChar a); cbn [hasChar]; [reflexivity|].
    now rewrite Ha.
  - cbn [hasChar] in *. now rewrite Ha, IH.
Qed.

Lemma hasChar_split (sep : ascii) (s w : string) :
  In w (split sep s) -> hasChar sep w = false.
Proof.
  revert w. induction s as [|c s IH]; cbn [split]; intros w.
  - intros [<-|[]]. reflexivity.
  - destruct (Ascii.eqb c sep) eqn:Hc.
    + intros [<-|H]; [reflexivity|auto].
    + destruct (split sep s) as [|v vs].
      * intros [<-|[]]. cbn. now rewrite Hc.
      * intros [<-|H].
        -- cbn [hasChar]. rewrite Hc. apply IH. left. reflexivity.
        -- apply IH. right. exact H.
Qed.

(** The entries of the handler's whitelist are trimmed and hold no comma. *)
Lemma authorized_entries (e : Env) (mail : string) :
  In mail (authorized e) -> trim mail = mail /\ hasChar "," mail = false.
Proof.
  unfold authorized. destruct (AUTHORIZED_USERS e) as [s|]; [|intros []].
  rewrite in_map_iff. intros (w & <- & Hw). split.
  - apply trim_idempotent.
  - unfold trim. apply hasChar_trimEnd, hasChar_trimStart.
    exact (hasChar_split _ _ _ Hw).
Qed.

(** X9.  The whitelist holds trimmed entries without a comma, and the
    session e-mail is compared as it is: a principal whose e-mail starts
    or ends with white space, or holds a comma, is answered 403 whatever
    the whitelist. *)
Theorem untrimmed_email_is_denied
    (r : Request) (session : option Session) (mail : string) :
  getServerSession r = Resolved session ->
  sessionEmail session = Some mail ->
  trim mail <> mail \/ hasChar "," mail = true ->
  POST r = ([], respond 403 "Access denied").
Proof.
  intros Hs He Hbad.
  apply (POST_not_whitelisted r session mail Hs He).
  apply includes_not_In. intros Hin.
  destruct (authorized_entries _ _ Hin) as [Ht Hc].
  destruct Hbad as [Hbad|Hbad]; congruence.
Qed.

(** An e-mail of the whitelist followed by a space. *)
Lemma untrimmed_email_is_denied_witness :
  POST padded = ([], respond 403 "Access denied").
Proof.
  apply (untrimmed_email_is_denied padded
           (Some (signedIn "desk@example.com ")) "desk@example.com ");
    [reflexivity | reflexivity | left; vm_compute; discriminate].
Defined.

(** The page's whitelist is the handler's without its empty entries. *)
Lemma whitelist_authorized (e : Env) :
  whitelist (AUTHORIZED_USERS e) = filter truthy (authorized e).
Proof.
  unfold whitelist, authorized.
  destruct (AUTHORIZED_USERS e) as [s|]; [|reflexivity].
  destruct s; reflexivity.
Qed.

Lemma sessionEmail_truthy (session : option Session) (mail : string) :
  sessionEmail session = Some mail -> truthy mail = true.
Proof.
  unfold sessionEmail.
  destruct session as [s|]; [|discriminate].
  destruct (user s) as [u|]; [|discriminate].
  destruct (email u) as [m|]; [|discriminate].
  destruct (truthy m) eqn:Hm; [|discriminate].
  intros [= <-]. exact Hm.
Qed.

Lemma includes_whitelist (e : Env) (mail : string) :
  truthy mail = true ->
  includes (whitelist (AUTHORIZED_USERS e)) mail
  = includes (authorized e) mail.
Proof.
  intros Hm. rewrite whitelist_authorized.
  destruct (includes (authorized e) mail) eqn:H.
  - apply includes_In. apply filter_In. apply includes_In in H. auto.
  - apply includes_not_In. apply includes_not_In in H.
    intros Hin. apply filter_In in Hin. tauto.
Qed.

(** The status of the answer to a whitelisted principal. *)
Lemma POST_whitelisted_status (r : Request) (session : option Session)
    (mail : string) :
  getServerSession r = Resolved session ->
  sessionEmail session = Some mail ->
  includes (authorized (env r)) mail = true ->
  In (status (snd (POST r))) [200; 400; 500].
Proof.
  intros Hs He Hw.
  destruct (bind (json r) destructureMessage) as [message|err] eqn:Hm.
  2:{ unfold POST, POST_try. rewrite Hs, He, Hw, Hm. cbn. auto. }
  destruct (falsy message) eqn:Hf.
  { rewrite (POST_falsy_message r session mail message Hs He Hw Hm Hf).
    cbn. auto. }
  rewrite (POST_past_the_gate r session mail message Hs He Hw Hm Hf).
  cbn [snd].
  destruct (fetch r) as [res|err]; [|cbn; auto].
  destruct (description res) as [d|err]; [|cbn; auto].
  destruct (ok res); cbn; auto.
Qed.

(** X10.  When [NEXT_PUBLIC_AUTHORIZED_USERS] holds what [AUTHORIZED_USERS]
    holds, the page and the handler agree on every session: the page sets
    [authorized] exactly for the sessions the handler answers neither 401
    nor 403. *)
Theorem page_guard_agrees_with_dispatch_gate
    (r : Request) (session : option Session) :
  getServerSession r = Resolved session ->
  (authorizedEffect session (AUTHORIZED_USERS (env r)) = true
   <-> status (snd (POST r)) <> 401 /\ status (snd (POST r)) <> 403).
Proof.
  intros Hs. unfold authorizedEffect.
  destruct (sessionEmail session) as [mail|] eqn:He.
  - rewrite (includes_whitelist _ _ (sessionEmail_truthy _ _ He)).
    destruct (includes (authorized (env r)) mail) eqn:Hw.
    + pose proof (POST_whitelisted_status r session mail Hs He Hw) as H.
      cbn [In] in H. split; [intros _|reflexivity].
      split; intros E; rewrite E in H; intuition discriminate.
    + rewrite (POST_not_whitelisted r session mail Hs He Hw). cbn.
      split; [discriminate|]. intros [_ H]. now contradiction H.
  - rewrite (POST_no_email r session Hs He). cbn.
    split; [discriminate|]. intros [H _]. now contradiction H.
Qed.

Lemma page_guard_agrees_with_dispatch_gate_witness :
  authorizedEffect (Some (signedIn "eve@example.com"))
    (AUTHORIZED_USERS (env outsider)) = false
  /\ status (snd (POST outsider)) = 403.
Proof.
  pose proof (page_guard_agrees_with_dispatch_gate outsider
                (Some (signedIn "eve@example.com")) eq_refl) as H.
  split; [|reflexivity].
  destruct (authorizedEffect (Some (signedIn "eve@example.com"))
              (AUTHORIZED_USERS (env outsider))) eqn:E; [|reflexivity].
  destruct (proj1 H eq_refl) as [_ H3]. now contradiction H3.
Defined.

(** X11.  Once its effect has run, the page renders the tabs exactly when
    the session is loaded and its e-mail is an entry of the public
    whitelist; a whitelist that is not set, or empty, admits nobody. *)
Theorem sections_only_for_the_whitelisted
    (status : SessionStatus) (session : option Session) (v : option string)
    (tab : Tab) :
  (page status session v tab = Sections tab
   <-> status <> Loading
       /\ exists mail, sessionEmail session = Some mail
                       /\ In mail (whitelist v))
  /\ (forall text, page status session v tab = Paragraph text ->
      text = "Loading..." \/ text = "Please sign in first."
      \/ text = "Access denied.")
  /\ (v = None \/ v = Some EmptyString ->
      exists text, page status session v tab = Paragraph text).
Proof.
  unfold page, render, authorizedEffect. split; [|split].
  - destruct status; (split; [|intros [Hl (mail & He & Hin)]]);
      try discriminate; try (now contradiction Hl).
    all: try (destruct session as [s|]; [|discriminate];
              destruct (sessionEmail (Some s)) as [mail|]; [|discriminate];
              destruct (includes (whitelist v) mail) eqn:Hw; [|discriminate];
              intros _; split; [discriminate|];
              exists mail; split; [reflexivity|]; now apply includes_In).
    all: destruct session as [s|]; [|discriminate He];
      rewrite He; apply includes_In in Hin; rewrite Hin; reflexivity.
  - intros text.
    destruct status; [intros [= <-]; auto|..];
      (destruct session as [s|]; [|intros [= <-]; auto];
       destruct (sessionEmail (Some s)) as [mail|];
       [destruct (includes (whitelist v) mail)|]; cbn [negb];
       [discriminate|intros [= <-]; auto|intros [= <-]; auto]).
  - intros Hv.
    assert (Hw : whitelist v = []) by (destruct Hv as [-> | ->]; reflexivity).
    rewrite Hw.
    destruct status; [eexists; reflexivity|..];
      (destruct session as [s|]; [|eexists; reflexivity];
       destruct (sessionEmail (Some s)); eexists; reflexivity).
Qed.

End Whitelists.

(** ** From the page to the messaging API *)

Section Publishing.
Import JSString SendMessage TelegramPage.

(** The handler on the body the page posts for a non-empty message. *)
Lemma handler_on_a_message (session : outcome (option Session)) (e : Env)
    (telegram : outcome TelegramResponse) (message : string) :
  truthy message = true ->
  (fst (handler session e telegram (requestBody message)) = []
   /\ In (status (snd (handler session e telegram (requestBody message))))
        [401; 403; 500]
   /\ ~ (exists s mail, session = Resolved s
                        /\ sessionEmail s = Some mail
                        /\ In mail (authorized e)))
  \/ (exists s mail,
        session = Resolved s
        /\ sessionEmail s = Some mail
        /\ In mail (authorized e)
        /\ handler session e telegram (requestBody message)
           = ([ {| url := "https://api.telegram.org/bot"
                            ++ orUndefined (TELEGRAM_BOT_TOKEN e)
                            ++ "/sendMessage";
                   chat_id := TELEGRAM_CHAT_ID e;
                   text := JString message |} ],
              match telegram with
              | Rejected err => respond 500 err
              | Resolved res =>
                  match description res with
                  | Rejected err => respond 500 err
                  | Resolved d =>
                      if ok res then {| status := 200; body := SuccessBody |}
                      else respond 500
                             (match d with
                              | Some s =>
                                  if truthy s then s
                                  else "Failed to send message"
                              | None => "Failed to send message"
                              end)
                  end
              end)).
Proof.
  intros Hm. unfold handler.
  set (r := {| getServerSession := session; env := e;
               json := Resolved (requestBody message); fetch := telegram |}).
  destruct session as [s|err] eqn:Hs.
  2:{ left. rewrite (POST_session_error r err eq_refl). cbn.
      split; [reflexivity|]. split; [auto|].
      intros (s & mail & [=] & _). }
  destruct (sessionEmail s) as [mail|] eqn:He.
  2:{ left. rewrite (POST_no_email r s eq_refl He). cbn.
      split; [reflexivity|]. split; [auto|].
      intros (s' & mail & [= <-] & He' & _). congruence. }
  destruct (includes (authorized e) mail) eqn:Hw.
  2:{ left. rewrite (POST_not_whitelisted r s mail eq_refl He Hw). cbn.
      split; [reflexivity|]. split; [auto|].
      intros (s' & mail' & [= <-] & He' & Hin).
      apply includes_not_In in Hw. congruence. }
  right. exists s, mail. split; [reflexivity|]. split; [exact He|].
  split; [now apply includes_In|].
  apply (POST_past_the_gate r s mail (Some (JString message)));
    try reflexivity; try assumption.
  cbn. now rewrite Hm.
Qed.

Lemma publish_of_a_message (session : outcome (option Session)) (e : Env)
    (telegram : outcome TelegramResponse) (message : string) :
  truthy message = true ->
  let answer := handler session e telegram (requestBody message) in
  publish session e telegram message
  = (fst answer,
     if answerOk (answerOf (snd answer))
     then {| toasts := [ToastLoading "Sending..."; ToastSuccess "Message sent!"];
             posted := [requestBody message];
             resetForms := true |}
     else {| toasts := [ToastLoading "Sending...";
                        ToastError ("Failed: " ++ errorOf (body (snd answer)))];
             posted := [requestBody message];
             resetForms := false |}).
Proof.
  intros Hm answer. unfold publish, sendToTelegram. rewrite Hm.
  cbn [negb bind answerJson answerOf]. fold answer.
  destruct (answerOk _); cbn [posted flat_map]; now rewrite app_nil_r.
Qed.

Lemma publish_of_nothing (session : outcome (option Session)) (e : Env)
    (telegram : outcome TelegramResponse) :
  publish session e telegram EmptyString
  = ([], {| toasts := [ToastError "No message to send"];
            posted := [];
            resetForms := false |}).
Proof. reflexivity. Qed.

(** X12.  From the page to the messaging API: what is forwarded is the
    message itself, once, and only for a non-empty message of a whitelisted
    principal.  The page posts no empty message, so the handler's answer
    400 never comes back to it. *)
Theorem publish_forwards_the_message
    (session : outcome (option Session)) (e : Env)
    (telegram : outcome TelegramResponse) (message : string) :
  (forall call,
     In call (fst (publish session e telegram message)) ->
     fst (publish session e telegram message) = [call]
     /\ text call = JString message
     /\ message <> EmptyString
     /\ exists s mail, session = Resolved s
                       /\ sessionEmail s = Some mail
                       /\ In mail (authorized e))
  /\ (forall body,
        In body (posted (snd (publish session e telegram message))) ->
        body = requestBody message
        /\ message <> EmptyString
        /\ status (snd (handler session e telegram body)) <> 400)
  /\ (message = EmptyString ->
      publish session e telegram message
      = ([], {| toasts := [ToastError "No message to send"];
                posted := [];
                resetForms := false |})).
Proof.
  destruct (truthy message) eqn:Hm.
  - assert (Hne : message <> EmptyString) by now apply truthy_true.
    rewrite (publish_of_a_message session e telegram message Hm).
    cbn [fst snd].
    destruct (handler_on_a_message session e telegram message Hm)
      as [(Hn & Hst & _) | (s & mail & Hs & He & Hw & Hh)].
    + split; [|split].
      * rewrite Hn. intros call [].
      * intros body Hb.
        assert (Hbody : body = requestBody message)
          by (destruct (answerOk _); cbn in Hb; intuition).
        subst body. split; [reflexivity|]. split; [exact Hne|].
        cbn [In] in Hst. intros E. rewrite E in Hst. intuition discriminate.
      * intros E. congruence.
    + split; [|split].
      * rewrite Hh. cbn [fst]. intros call [<-|[]].
        split; [reflexivity|]. split; [reflexivity|]. split; [exact Hne|].
        exists s, mail. auto.
      * intros body Hb.
        assert (Hbody : body = requestBody message)
          by (destruct (answerOk _); cbn in Hb; intuition).
        subst body. split; [reflexivity|]. split; [exact Hne|].
        rewrite Hh. cbn [snd].
        destruct telegram as [res|err]; [|discriminate].
        destruct (description res) as [d|err]; [|discriminate].
        destruct (ok res); discriminate.
      * intros E. congruence.
  - apply truthy_false in Hm. subst message.
    rewrite publish_of_nothing. cbn [fst snd posted].
    split; [intros call []|]. split; [intros body []|reflexivity].
Qed.

(** X13.  The forms are reset, under the toast "Message sent!", exactly
    when the message is not empty, the principal is on the whitelist and
    the messaging API accepted the message with a body that parses; a
    message that was not accepted leaves the forms as they are, under a
    toast that starts with "Failed: ". *)
Theorem publish_resets_iff_delivered
    (session : outcome (option Session)) (e : Env)
    (telegram : outcome TelegramResponse) (message : string) :
  let sent := snd (publish session e telegram message) in
  (resetForms sent = true
   <-> message <> EmptyString
       /\ exists s mail res d,
            session = Resolved s
            /\ sessionEmail s = Some mail
            /\ In mail (authorized e)
            /\ telegram = Resolved res
            /\ description res = Resolved d
            /\ ok res = true)
  /\ (resetForms sent = true ->
      toasts sent = [ToastLoading "Sending..."; ToastSuccess "Message sent!"])
  /\ (resetForms sent = false ->
      message <> EmptyString ->
      exists error,
        toasts sent
        = [ToastLoading "Sending..."; ToastError ("Failed: " ++ error)]).
Proof.
  intros sent. subst sent.
  destruct (truthy message) eqn:Hm.
  - assert (Hne : message <> EmptyString) by now apply truthy_true.
    rewrite (publish_of_a_message session e telegram message Hm).
    cbn [snd].
    destruct (handler_on_a_message session e telegram message Hm)
      as [(Hn & Hst & Hnot) | (s & mail & Hs & He & Hw & Hh)].
    + assert (Hok : answerOk
                      (answerOf (snd (handler session e telegram
                                        (requestBody message)))) = false).
      { unfold answerOk, answerOf. cbn [answerStatus].
        cbn [In] in Hst.
        destruct Hst as [<-|[<-|[<-|[]]]]; reflexivity. }
      rewrite Hok. cbn [resetForms toasts].
      split; [|split].
      * split; [discriminate|].
        intros (_ & s & mail & res & d & Hs & He & Hw & _).
        exfalso. apply Hnot. exists s, mail. auto.
      * discriminate.
      * intros _ _. eexists. reflexivity.
    + rewrite Hh. cbn [snd].
      destruct telegram as [res|err] eqn:Ht.
      * destruct (description res) as [d|err] eqn:Hd.
        -- destruct (ok res) eqn:Hok.
           ++ cbn [answerOk answerOf answerStatus status resetForms toasts].
              change ((200 <=? 200) && (200 <=? 299)) with true. cbv iota.
              cbn [resetForms toasts].
              split; [|split].
              ** split; [intros _|reflexivity]. split; [exact Hne|].
                 exists s, mail, res, d. auto 10.
              ** reflexivity.
              ** discriminate.
           ++ change (answerOk (answerOf (respond 500 _))) with false.
              cbv iota. cbn [resetForms toasts].
              split; [|split].
              ** split; [discriminate|].
                 intros (_ & _ & _ & res' & _ & _ & _ & _ & [= <-] & _ & Hok').
                 congruence.
              ** discriminate.
              ** intros _ _. eexists. reflexivity.
        -- change (answerOk (answerOf (respond 500 _))) with false.
           cbv iota. cbn [resetForms toasts].
           split; [|split].
           ++ split; [discriminate|].
              intros (_ & _ & _ & res' & d' & _ & _ & _ & [= <-] & Hd' & _).
              congruence.
           ++ discriminate.
           ++ intros _ _. eexists. reflexivity.
      * change (answerOk (answerOf (respond 500 _))) with false.
        cbv iota. cbn [resetForms toasts].
        split; [|split].
        -- split; [discriminate|].
           intros (_ & _ & _ & res' & d' & _ & _ & _ & [=] & _).
        -- discriminate.
        -- intros _ _. eexists. reflexivity.
  - apply truthy_false in Hm. subst message.
    rewrite publish_of_nothing. cbn [snd resetForms toasts].
    split; [|split].
    + split; [discriminate|]. intros [H _]. now contradiction H.
    + discriminate.
    + intros _ H. now contradiction H.
Qed.

End Publishing.

(** ** The forms as transition systems *)

Section IgnoreAlerts.
Import IgnoreAlert.

Lemma run_snoc (s : State) (evs : list Event) (ev : Event) :
  run s (evs ++ [ev])%list = step (run s evs) ev.
Proof. unfold run. now rewrite fold_left_app. Qed.

(** X14.  However the button is clicked, at most one call of [onSend] is
    under way, [loading] is set exactly while one is, a click in the
    meantime sends nothing, and every message sent is the fixed text. *)
Theorem ignore_alert_sends_one_at_a_time (evs : list Event) :
  let s := run initial evs in
  (pending s <= 1)%nat
  /\ (loading s = true <-> pending s = 1%nat)
  /\ (loading s = true -> step s Click = s)
  /\ (loading s = false ->
      sent (step s Click) = (sent s ++ ["Kindly ignore the alert"])%list)
  /\ Forall (eq "Kindly ignore the alert") (sent s).
Proof.
  intros s. subst s.
  assert (Inv : (loading (run initial evs) = true
                 /\ pending (run initial evs) = 1%nat
                 \/ loading (run initial evs) = false
                    /\ pending (run initial evs) = 0%nat)
                /\ Forall (eq "Kindly ignore the alert")
                     (sent (run initial evs))).
  { induction evs as [|ev evs IH] using rev_ind.
    - cbn. auto.
    - rewrite run_snoc. destruct IH as [[[Hl Hp]|[Hl Hp]] Hs];
        destruct ev; cbn [step]; unfold handleSend, settle;
        rewrite ?Hl, ?Hp; cbn [loading pending sent]; auto.
      split; [auto|]. apply Forall_app. auto. }
  destruct Inv as [[[Hl Hp]|[Hl Hp]] Hs]; rewrite Hl, Hp;
    cbn [step]; unfold handleSend; rewrite Hl; cbn [sent];
    repeat split; auto; try lia; try discriminate.
Qed.

End IgnoreAlerts.

Section FreshTradeForm.
Import JSString JSNumber JSDate FreshTrade.

Lemma fresh_run_snoc (s : State) (evs : list Event) (ev : Event) :
  run s (evs ++ [ev])%list = step (run s evs) ev.
Proof. unfold run. now rewrite fold_left_app. Qed.

Lemma legsEffect_fields (s : State) :
  confirmMode (legsEffect s) = confirmMode s
  /\ preview (legsEffect s) = preview s
  /\ expiry (legsEffect s) = expiry s.
Proof.
  unfold legsEffect. destruct (action s); auto.
  destruct (isBULLISH (marketDirection s)); auto.
Qed.

Lemma step_fields (s : State) (ev : Event) :
  confirmMode (step s ev) = confirmMode (handle s ev)
  /\ preview (step s ev) = preview (handle s ev)
  /\ expiry (step s ev) = expiry (handle s ev).
Proof.
  unfold step. destruct (_ && _); [auto|apply legsEffect_fields].
Qed.

Lemma handlePreview_expiry (s : State) :
  expiry (handlePreview s) = expiry s.
Proof.
  unfold handlePreview. destruct (buildPreviewMessage s) as [msg|]; [|auto].
  destruct (negb (truthy msg)); reflexivity.
Qed.

Lemma handle_expiry (s : State) (ev : Event) :
  expiry (handle s ev) = expiry s.
Proof. destruct ev; try reflexivity. apply handlePreview_expiry. Qed.

Lemma run_expiry (evs : list Event) (s : State) :
  expiry (run s evs) = expiry s.
Proof.
  unfold run. revert s. induction evs as [|ev evs IH]; intros s; [reflexivity|].
  cbn [fold_left]. rewrite IH.
  destruct (step_fields s ev) as (_ & _ & ->). apply handle_expiry.
Qed.

Lemma mounted_eq (monthShort : Z -> string) (today : Date) :
  mounted monthShort today = setExpiry initial (expiryLabel monthShort today).
Proof. reflexivity. Qed.

(** X15.  The expiry label is computed once, when the form mounts: no event
    changes it afterwards.  A reset, from whatever state, gives back the
    form exactly as it was mounted. *)
Theorem reset_restores_the_mounted_form
    (monthShort : Z -> string) (today : Date) (evs : list Event) :
  expiry (run (mounted monthShort today) evs) = expiryLabel monthShort today
  /\ run (mounted monthShort today) (evs ++ [ResetForms])%list
     = mounted monthShort today.
Proof.
  assert (He : expiry (run (mounted monthShort today) evs)
               = expiryLabel monthShort today)
    by (rewrite run_expiry; reflexivity).
  split; [exact He|].
  rewrite fresh_run_snoc. unfold step. cbn [handle action marketDirection].
  rewrite He.
  destruct (sameAction _ _ && sameDirection _ _); reflexivity.
Qed.

Lemma handlePreview_cases (s : State) :
  (handlePreview s = s
   /\ (forall msg, buildPreviewMessage s = Composed msg -> msg = EmptyString))
  \/ (exists msg,
        buildPreviewMessage s = Composed msg
        /\ msg <> EmptyString
        /\ confirmMode (handlePreview s) = true
        /\ preview (handlePreview s) = msg).
Proof.
  unfold handlePreview.
  destruct (buildPreviewMessage s) as [msg|t]; [|left; split; [auto|discriminate]].
  destruct msg as [|c msg]; cbn [truthy negb].
  - left. split; [reflexivity|]. now intros msg [= <-].
  - right. eexists. split; [reflexivity|]. split; [discriminate|]. auto.
Qed.

(** Every fresh-trade message opens with the header and a blank line. *)
Lemma buildPreviewMessage_header (s : State) (msg : string) :
  buildPreviewMessage s = Composed msg ->
  exists rest, msg = "FRESH TRADE" ++ LF ++ LF ++ rest.
Proof.
  unfold buildPreviewMessage.
  destruct (action s).
  - destruct (noRange _); [discriminate|]. intros [= <-].
    eexists. rewrite !append_assoc_r. reflexivity.
  - destruct (noRange _); [discriminate|]. intros [= <-].
    eexists. rewrite !append_assoc_r. reflexivity.
  - destruct (noRange _ || noRange _); [discriminate|]. intros [= <-].
    eexists. rewrite !append_assoc_r. reflexivity.
Qed.

(** X16.  What Confirm & Send hands over is never empty, opens with the
    header, and is a message the form composed at an earlier Preview: the
    one of the last Preview that succeeded, whatever was edited since. *)
Theorem fresh_trade_sends_what_it_previewed
    (monthShort : Z -> string) (today : Date) (evs : list Event)
    (ev : Event) (msg : string) :
  onSend (run (mounted monthShort today) evs) ev = Some msg ->
  ev = Confirm
  /\ msg <> EmptyString
  /\ (exists rest, msg = "FRESH TRADE" ++ LF ++ LF ++ rest)
  /\ exists before after,
       evs = (before ++ Submit :: after)%list
       /\ buildPreviewMessage (run (mounted monthShort today) before)
          = Composed msg.
Proof.
  assert (Inv : confirmMode (run (mounted monthShort today) evs) = true ->
                preview (run (mounted monthShort today) evs) <> EmptyString
                /\ exists before after,
                     evs = (before ++ Submit :: after)%list
                     /\ buildPreviewMessage
                          (run (mounted monthShort today) before)
                        = Composed
                            (preview (run (mounted monthShort today) evs))).
  { induction evs as [|e evs IH] using rev_ind; [discriminate|].
    rewrite fresh_run_snoc.
    set (s := run (mounted monthShort today) evs) in *.
    destruct (step_fields s e) as (-> & -> & _).
    assert (Keep : confirmMode (handle s e) = confirmMode s ->
                   preview (handle s e) = preview s ->
                   confirmMode (handle s e) = true ->
                   preview (handle s e) <> EmptyString
                   /\ exists before after,
                        (evs ++ [e] = before ++ Submit :: after)%list
                        /\ buildPreviewMessage
                             (run (mounted monthShort today) before)
                           = Composed (preview (handle s e))).
    { intros Hc Hp H. rewrite Hc in H. rewrite Hp.
      destruct (IH H) as (Hne & before & after & -> & Hb).
      split; [exact Hne|]. exists before, (after ++ [e])%list.
      split; [|exact Hb]. now rewrite <- app_assoc. }
    destruct e; try (apply Keep; reflexivity); try discriminate.
    destruct (handlePreview_cases s) as [[E _] | (m & Hb & Hne & Hc & Hp)].
    - apply Keep; cbn [handle]; now rewrite E.
    - cbn [handle]. intros _. rewrite Hp. split; [exact Hne|].
      exists evs, []. split; [reflexivity|exact Hb]. }
  unfold onSend. destruct ev; try discriminate.
  destruct (confirmMode (run (mounted monthShort today) evs)) eqn:Hc;
    [|discriminate].
  intros [= <-].
  destruct (Inv eq_refl) as (Hne & before & after & Hevs & Hb).
  split; [reflexivity|]. split; [exact Hne|].
  split; [exact (buildPreviewMessage_header _ _ Hb)|].
  exists before, after. auto.
Qed.

Lemma fresh_trade_sends_what_it_previewed_witness :
  let evs := [SetBuyPrice "160"; Submit; SetBuyPrice "170"] in
  let msg :=
    "FRESH TRADE" ++ LF ++ LF ++ DQUOTE ++ "BUY" ++ DQUOTE ++ " 11 Nov "
      ++ DQUOTE ++ "Nifty 24000 CE" ++ DQUOTE ++ " between 160 - 165" in
  onSend (run (mounted enGB 20396) evs) Confirm = Some msg
  /\ buyPrice (run (mounted enGB 20396) evs) = "170"
  /\ buildPreviewMessage (run (mounted enGB 20396) [SetBuyPrice "160"])
     = Composed msg.
Proof.
  cbv zeta.
  assert (H : onSend (run (mounted enGB 20396)
                        [SetBuyPrice "160"; Submit; SetBuyPrice "170"]) Confirm
              = Some ("FRESH TRADE" ++ LF ++ LF ++ DQUOTE ++ "BUY" ++ DQUOTE
                        ++ " 11 Nov " ++ DQUOTE ++ "Nifty 24000 CE" ++ DQUOTE
                        ++ " between 160 - 165"))
    by (vm_compute; reflexivity).
  split; [exact H|]. split; [reflexivity|].
  destruct (fresh_trade_sends_what_it_previewed enGB 20396 _ _ _ H)
    as (_ & _ & _ & before & after & Hevs & Hb).
  destruct before as [|e1 [|e2 [|e3 before]]]; cbn in Hevs;
    try discriminate Hevs.
  - injection Hevs as He1 _. subst e1. exact Hb.
  - exfalso. injection Hevs as _ _ _ Hevs. destruct before; discriminate Hevs.
Defined.

End FreshTradeForm.

Section SquareOffForm.
Import JSString SquareOff.

Lemma square_off_run_snoc (s : State) (evs : list Event) (ev : Event) :
  run s (evs ++ [ev])%list = handle (run s evs) ev.
Proof. unfold run. now rewrite fold_left_app. Qed.

(** A message that is not empty comes from an exit mode. *)
Lemma buildMessage_exitMode (s : State) (msg : string) :
  buildMessage s = Composed msg -> msg <> EmptyString -> exitMode s <> None.
Proof.
  unfold buildMessage.
  destruct (template squareOffTemplates (action s)) as [t|]; [|discriminate].
  destruct (negb (truthy t)); [discriminate|].
  destruct (exitMode s); [discriminate|].
  intros [= <-] H. now contradiction H.
Qed.

Lemma square_off_handlePreview_cases (s : State) :
  handlePreview s = s
  \/ (exists msg,
        buildMessage s = Composed msg
        /\ msg <> EmptyString
        /\ handlePreview s = setPreview s msg).
Proof.
  unfold handlePreview.
  destruct (buildMessage s) as [msg|t]; [|auto].
  destruct msg as [|c msg]; cbn [truthy]; [auto|].
  right. eexists. split; [reflexivity|]. split; [discriminate|reflexivity].
Qed.

(** Every square-off message that is not empty opens with the header. *)
Lemma buildMessage_header (s : State) (msg : string) :
  buildMessage s = Composed msg -> msg <> EmptyString ->
  exists rest, msg = "SQUARE OFF" ++ LF ++ rest.
Proof.
  unfold buildMessage.
  destruct (template squareOffTemplates (action s)) as [t|]; [|discriminate].
  destruct (negb (truthy t)); [discriminate|].
  destruct (exitMode s) as [[| |]|].
  - destruct (selectedOption s); [|discriminate].
    destruct (negb (truthy (singleExit s))); [discriminate|].
    intros [= <-] _. eexists. reflexivity.
  - destruct (selectedOption s); [|discriminate].
    destruct (negb (truthy (singleExit s))); [discriminate|].
    intros [= <-] _. eexists. reflexivity.
  - destruct (_ || _); [discriminate|].
    destruct (isBULLISH (marketView s)); intros [= <-] _; eexists;
      reflexivity.
  - intros [= <-] H. now contradiction H.
Qed.

(** X17.  What Confirm & Send hands over is never empty, opens with the
    header, and is a message the form composed, under an exit mode, at an
    earlier Preview. *)
Theorem square_off_sends_what_it_previewed
    (evs : list Event) (ev : Event) (msg : string) :
  onSend (run initial evs) ev = Some msg ->
  ev = Confirm
  /\ msg <> EmptyString
  /\ (exists rest, msg = "SQUARE OFF" ++ LF ++ rest)
  /\ exists before after,
       evs = (before ++ Submit :: after)%list
       /\ buildMessage (run initial before) = Composed msg
       /\ exitMode (run initial before) <> None.
Proof.
  assert (Inv : preview (run initial evs) <> EmptyString ->
                exists before after,
                  evs = (before ++ Submit :: after)%list
                  /\ buildMessage (run initial before)
                     = Composed (preview (run initial evs))).
  { induction evs as [|e evs IH] using rev_ind;
      [intros H; now contradiction H|].
    rewrite square_off_run_snoc.
    set (s := run initial evs) in *.
    assert (Keep : preview (handle s e) = preview s ->
                   preview (handle s e) <> EmptyString ->
                   exists before after,
                     (evs ++ [e])%list = (before ++ Submit :: after)%list
                     /\ buildMessage (run initial before)
                        = Composed (preview (handle s e))).
    { intros Hp H. rewrite Hp in *.
      destruct (IH H) as (before & after & -> & Hb).
      exists before, (after ++ [e])%list.
      split; [|exact Hb]. now rewrite <- app_assoc. }
    destruct e; try (apply Keep; reflexivity);
      try (intros H; now contradiction H).
    destruct (square_off_handlePreview_cases s) as [E | (m & Hb & Hne & E)].
    - apply Keep. cbn [handle]. now rewrite E.
    - cbn [handle]. rewrite E. cbn [setPreview preview]. intros _.
      exists evs, []. split; [reflexivity|exact Hb]. }
  unfold onSend. destruct ev; try discriminate.
  destruct (truthy (preview (run initial evs))) eqn:Ht; [|discriminate].
  intros [= <-]. apply truthy_true in Ht.
  destruct (Inv Ht) as (before & after & Hevs & Hb).
  split; [reflexivity|]. split; [exact Ht|].
  split; [exact (buildMessage_header _ _ Hb Ht)|].
  exists before, after. split; [exact Hevs|]. split; [exact Hb|].
  exact (buildMessage_exitMode _ _ Hb Ht).
Qed.

Lemma square_off_sends_what_it_previewed_witness :
  let evs := [SetExitMode SELL; SetSelectedOption PE; SetSingleExit "35";
              Submit; SetSingleExit "40"] in
  let msg :=
    "SQUARE OFF" ++ LF
      ++ "Modify stop loss and book 100% profit. Buy 24000 PE @ 35" in
  onSend (run initial evs) Confirm = Some msg
  /\ singleExit (run initial evs) = "40"
  /\ exists before after,
       evs = (before ++ Submit :: after)%list
       /\ buildMessage (run initial before) = Composed msg.
Proof.
  cbv zeta.
  assert (H : onSend
                (run initial
                   [SetExitMode SELL; SetSelectedOption PE;
                    SetSingleExit "35"; Submit; SetSingleExit "40"]) Confirm
              = Some ("SQUARE OFF" ++ LF
                        ++ "Modify stop loss and book 100% profit. Buy 24000 PE @ 35"))
    by (vm_compute; reflexivity).
  split; [exact H|]. split; [reflexivity|].
  destruct (square_off_sends_what_it_previewed _ _ _ H)
    as (_ & _ & _ & before & after & Hevs & Hb & _).
  exists before, after. auto.
Defined.


End SquareOffForm.

Section ExpiryTradesForm.
Import JSString ExpiryTrades.

Lemma expiry_run_snoc (s : State) (evs : list Event) (ev : Event) :
  run s (evs ++ [ev])%list = handle (run s evs) ev.
Proof. unfold run. now rewrite fold_left_app. Qed.

Lemma expiry_handlePreview_cases (s : State) :
  handlePreview s = s
  \/ (exists msg,
        buildMessage s = Composed msg
        /\ msg <> EmptyString
        /\ handlePreview s = setPreview s msg).
Proof.
  unfold handlePreview.
  destruct (buildMessage s) as [msg|t]; [|auto].
  destruct msg as [|c msg]; cbn [truthy]; [auto|].
  right. eexists. split; [reflexivity|]. split; [discriminate|reflexivity].
Qed.

(** Every expiry-day message opens with the header. *)
Lemma expiry_buildMessage_header (s : State) (msg : string) :
  buildMessage s = Composed msg ->
  exists rest, msg = "SQUARE OFF" ++ LF ++ rest.
Proof.
  unfold buildMessage.
  destruct (negb (truthy (exitPrice s))); [discriminate|].
  destruct (find _ expiryTemplates); [|discriminate].
  intros [= <-]. eexists. reflexivity.
Qed.

(** X19.  What Confirm & Send hands over is never empty, opens with the
    header, and is a message the form composed at an earlier Preview. *)
Theorem expiry_trade_sends_what_it_previewed
    (evs : list Event) (ev : Event) (msg : string) :
  onSend (run initial evs) ev = Some msg ->
  ev = Confirm
  /\ msg <> EmptyString
  /\ (exists rest, msg = "SQUARE OFF" ++ LF ++ rest)
  /\ exists before after,
       evs = (before ++ Submit :: after)%list
       /\ buildMessage (run initial before) = Composed msg.
Proof.
  assert (Inv : preview (run initial evs) <> EmptyString ->
                exists before after,
                  evs = (before ++ Submit :: after)%list
                  /\ buildMessage (run initial before)
                     = Composed (preview (run initial evs))).
  { induction evs as [|e evs IH] using rev_ind;
      [intros H; now contradiction H|].
    rewrite expiry_run_snoc.
    set (s := run initial evs) in *.
    assert (Keep : preview (handle s e) = preview s ->
                   preview (handle s e) <> EmptyString ->
                   exists before after,
                     (evs ++ [e])%list = (before ++ Submit :: after)%list
                     /\ buildMessage (run initial before)
                        = Composed (preview (handle s e))).
    { intros Hp H. rewrite Hp in *.
      destruct (IH H) as (before & after & -> & Hb).
      exists before, (after ++ [e])%list.
      split; [|exact Hb]. now rewrite <- app_assoc. }
    destruct e; try (apply Keep; reflexivity);
      try (intros H; now contradiction H).
    destruct (expiry_handlePreview_cases s) as [E | (m & Hb & Hne & E)].
    - apply Keep. cbn [handle]. now rewrite E.
    - cbn [handle]. rewrite E. cbn [setPreview preview]. intros _.
      exists evs, []. split; [reflexivity|exact Hb]. }
  unfold onSend. destruct ev; try discriminate.
  destruct (truthy (preview (run initial evs))) eqn:Ht; [|discriminate].
  intros [= <-]. apply truthy_true in Ht.
  destruct (Inv Ht) as (before & after & Hevs & Hb).
  split; [reflexivity|]. split; [exact Ht|].
  split; [exact (expiry_buildMessage_header _ _ Hb)|].
  exists before, after. auto.
Qed.

(** The price is changed after the Preview; the message keeps the old one. *)
Lemma expiry_trade_sends_what_it_previewed_witness :
  let evs := [SetMarketView BEARISH; SetExitPrice "42"; Submit;
              SetExitPrice "45"] in
  let msg :=
    "SQUARE OFF" ++ LF
      ++ "Modify stop loss and book 100% profit. Buy 25900 CE @ 42" in
  onSend (run initial evs) Confirm = Some msg
  /\ exitPrice (run initial evs) = "45"
  /\ exists before after,
       evs = (before ++ Submit :: after)%list
       /\ buildMessage (run initial before) = Composed msg.
Proof.
  cbv zeta.
  assert (H : onSend
                (run initial
                   [SetMarketView BEARISH; SetExitPrice "42"; Submit;
                    SetExitPrice "45"]) Confirm
              = Some ("SQUARE OFF" ++ LF
                        ++ "Modify stop loss and book 100% profit. Buy 25900 CE @ 42"))
    by (vm_compute; reflexivity).
  split; [exact H|]. split; [reflexivity|].
  destruct (expiry_trade_sends_what_it_previewed _ _ _ H)
    as (_ & _ & _ & before & after & Hevs & Hb).
  exists before, after. auto.
Defined.

(** X20.  Confirm & Send blanks the exit price with the preview: a Preview
    pressed right after fails with "Enter Exit Price" and shows nothing, so
    that nothing can be sent again before a price is entered anew. *)
Theorem expiry_confirm_blanks_the_price (s : State) :
  buildMessage (handle s Confirm) = Invalid "Enter Exit Price"
  /\ handle (handle s Confirm) Submit = handle s Confirm
  /\ forall ev, onSend (handle (handle s Confirm) Submit) ev = None.
Proof.
  assert (Hb : buildMessage (handle s Confirm) = Invalid "Enter Exit Price")
    by reflexivity.
  assert (Hs : handle (handle s Confirm) Submit = handle s Confirm).
  { cbn [handle]. unfold handlePreview. reflexivity. }
  split; [exact Hb|]. split; [exact Hs|].
  intros ev. rewrite Hs. destruct ev; reflexivity.
Qed.

End ExpiryTradesForm.

(** ** Whole-number prices and strikes *)

Section WholeNumbers.
Import JSString JSNumber FreshTrade.

Lemma digitsValue_acc (d : Decimal.uint) (acc : positive) :
  digitsValue 10 (Npos acc) (NilEmpty.string_of_uint d)
  = Some (Npos (Pos.of_uint_acc d acc)).
Proof.
  revert acc.
  induction d as [|d IH|d IH|d IH|d IH|d IH|d IH|d IH|d IH|d IH|d IH];
    intros acc;
    cbn [NilEmpty.string_of_uint digitsValue Pos.of_uint_acc];
    [reflexivity|..];
    match goal with
    | |- context [digitValue 10 ?c] =>
        let v := eval vm_compute in (digitValue 10 c) in
        change (digitValue 10 c) with v
    end; cbv iota; rewrite <- IH; f_equal; lia.
Qed.

Lemma digitsValue_uint (d : Decimal.uint) :
  digitsValue 10 0 (NilEmpty.string_of_uint d) = Some (Pos.of_uint d).
Proof.
  induction d as [|d IH|d IH|d IH|d IH|d IH|d IH|d IH|d IH|d IH|d IH];
    cbn [NilEmpty.string_of_uint digitsValue Pos.of_uint];
    [reflexivity|..];
    match goal with
    | |- context [digitValue 10 ?c] =>
        let v := eval vm_compute in (digitValue 10 c) in
        change (digitValue 10 c) with v
    end; cbv iota; [exact IH|..]; apply digitsValue_acc.
Qed.

Lemma N_to_string_NilEmpty (n : N) :
  N_to_string n = NilEmpty.string_of_uint (N.to_uint n).
Proof.
  unfold N_to_string, NilZero.string_of_uint.
  destruct n as [|p]; [reflexivity|].
  cbn [N.to_uint].
  pose proof (DecimalPos.Unsigned.to_uint_nonnil p) as H.
  destruct (Pos.to_uint p); [congruence|reflexivity..].
Qed.

Lemma decimalValue_N_to_string (n : N) : decimalValue (N_to_string n) = n.
Proof.
  unfold decimalValue.
  rewrite N_to_string_NilEmpty, digitsValue_uint.
  apply DecimalN.Unsigned.of_to.
Qed.

Lemma spanDigits_allDigits (s : string) :
  allDigits s = true -> spanDigits s = (s, EmptyString).
Proof.
  induction s as [|c s IH]; cbn; [reflexivity|].
  destruct (isDigit c); cbn; [|discriminate].
  intros H. now rewrite (IH H).
Qed.

Lemma isDigit_not_space (c : ascii) : isDigit c = true -> isWhiteSpaceChar c = false.
Proof.
  unfold isDigit, isWhiteSpaceChar.
  destruct c as [[] [] [] [] [] [] [] []]; vm_compute; congruence.
Qed.

Lemma trimStart_digit (c : ascii) (s : string) :
  isWhiteSpaceChar c = false -> trimStart (String c s) = String c s.
Proof. intros H. cbn [trimStart]. now rewrite H. Qed.

Lemma trimEnd_allDigits (s : string) : allDigits s = true -> trimEnd s = s.
Proof.
  induction s as [|c s IH]; cbn [trimEnd allDigits]; [reflexivity|].
  intros H. apply andb_prop in H. destruct H as [Hc Hs].
  rewrite (IH Hs). rewrite (isDigit_not_space c Hc).
  destruct s; reflexivity.
Qed.

Lemma trim_allDigits (s : string) : allDigits s = true -> trim s = s.
Proof.
  intros H. unfold trim.
  destruct s as [|c s]; [reflexivity|].
  cbn [allDigits] in H. pose proof H as H'. apply andb_prop in H'. destruct H' as [Hc Hs].
  rewrite trimStart_digit by (apply isDigit_not_space, Hc).
  apply trimEnd_allDigits. cbn [allDigits]. exact H.
Qed.

Lemma trim_minus_digits (s : string) :
  allDigits s = true -> trim (String "-" s) = String "-" s.
Proof.
  intros H. unfold trim. rewrite trimStart_digit by reflexivity.
  cbn [trimEnd]. rewrite (trimEnd_allDigits s H).
  destruct s; reflexivity.
Qed.

Lemma parseNonDecimal_digits (s : string) :
  allDigits s = true -> parseNonDecimal s = None.
Proof.
  destruct s as [|a [|c s]]; [reflexivity| |].
  { intros _. destruct a as [[] [] [] [] [] [] [] []]; reflexivity. }
  cbn [allDigits]. intros H.
  apply andb_prop in H. destruct H as [_ H]. apply andb_prop in H. destruct H as [Hc _].
  unfold parseNonDecimal.
  destruct a as [[] [] [] [] [] [] [] []]; try reflexivity.
  destruct c as [[] [] [] [] [] [] [] []]; try reflexivity; discriminate Hc.
Qed.

Lemma digits_not_Infinity (s : string) :
  allDigits s = true -> String.eqb s "Infinity" = false.
Proof.
  destruct s as [|c s]; [reflexivity|]. cbn [allDigits]. intros H.
  apply andb_prop in H. destruct H as [Hc _].
  destruct (String.eqb_spec (String c s) "Infinity") as [E|E]; [|reflexivity].
  injection E as -> _. discriminate Hc.
Qed.

Lemma parseUnsignedDecimal_digits (s : string) :
  allDigits s = true -> truthy s = true ->
  parseUnsignedDecimal s = Some (decimalValue s, 0).
Proof.
  intros H T. unfold parseUnsignedDecimal.
  rewrite (spanDigits_allDigits s H), T. reflexivity.
Qed.

Lemma roundDecimal_integer (neg : bool) (n : N) :
  roundDecimal neg n 0 = binary_normalize prec emax (cond_Zopp neg (Z.of_N n)) 0 neg.
Proof.
  destruct n as [|p]; cbn [roundDecimal].
  - destruct neg; reflexivity.
  - change (0 <=? 0) with true. cbv iota.
    change (10 ^ 0) with 1. rewrite Z.mul_1_r.
    destruct neg; reflexivity.
Qed.

Lemma StringToNumber_digits (s : string) :
  allDigits s = true -> truthy s = true ->
  StringToNumber s = roundDecimal false (decimalValue s) 0.
Proof.
  intros Hd Ht. unfold StringToNumber.
  rewrite (trim_allDigits _ Hd), Ht. cbn [negb].
  rewrite (parseNonDecimal_digits _ Hd).
  pose proof (digits_not_Infinity _ Hd) as Hi.
  pose proof (parseUnsignedDecimal_digits _ Hd Ht) as Hp.
  destruct s as [|c s]; [discriminate Ht|].
  cbn [allDigits] in Hd. apply andb_prop in Hd. destruct Hd as [Hc _].
  destruct c as [[] [] [] [] [] [] [] []]; try discriminate Hc;
    cbv beta iota; rewrite Hi, Hp; reflexivity.
Qed.

Lemma StringToNumber_minus_digits (s : string) :
  allDigits s = true -> truthy s = true ->
  StringToNumber (String "-" s) = roundDecimal true (decimalValue s) 0.
Proof.
  intros Hd Ht. unfold StringToNumber.
  rewrite (trim_minus_digits _ Hd). cbn [truthy negb].
  change (parseNonDecimal (String "-" s)) with (@None N).
  cbv beta iota.
  rewrite (digits_not_Infinity _ Hd), (parseUnsignedDecimal_digits _ Hd Ht).
  reflexivity.
Qed.

(** [Number(String(k))] is [k] *)
Lemma StringToNumber_Z_to_string (p : Z) :
  StringToNumber (Z_to_string p) = ofZ p.
Proof.
  unfold Z_to_string.
  destruct p as [|p|p].
  - reflexivity.
  - destruct (N_to_string_digits (Z.to_N (Zpos p))) as [Hd Ht].
    rewrite (StringToNumber_digits _ Hd Ht).
    rewrite decimalValue_N_to_string, roundDecimal_integer. reflexivity.
  - destruct (N_to_string_digits (Npos p)) as [Hd Ht].
    change ("-" ++ N_to_string (N.pos p)) with (String "-" (N_to_string (N.pos p))).
    rewrite (StringToNumber_minus_digits _ Hd Ht).
    rewrite decimalValue_N_to_string, roundDecimal_integer. reflexivity.
Qed.

Lemma ofZ_finite (p : Z) : Z.abs p < 2 ^ 53 -> isFinite (ofZ p) = true.
Proof.
  intros H. pose proof (ofZ_exact p H) as R.
  destruct (ofZ p); cbn in *; try reflexivity; contradiction.
Qed.

Lemma format_integer (x : number) (v : Z) :
  represents x v -> Z.abs v < 2 ^ 53 -> format x = Z_to_string v.
Proof.
  intros R Hv. destruct (represents_integer x v R) as [Hi Ht].
  unfold format. rewrite Hi.
  destruct x as [z|z| |z m e]; try contradiction.
  - cbn in R. subst v. reflexivity.
  - unfold NumberToString, isSafeInteger. rewrite Hi, Ht.
    cbn [andb]. apply Z.ltb_lt in Hv. rewrite Hv. reflexivity.
Qed.

(** X21.  A price typed as the decimal digits of a whole number [p], with
    [|p| + 5 < 2^53], has the range "p - (p+5)", both sides in plain
    digits. *)
Theorem range_text_of_whole_price (p : Z) :
  Z.abs p + 5 < 2 ^ 53 ->
  getRangeText (Z_to_string p)
  = Some (Z_to_string p ++ " - " ++ Z_to_string (p + 5)).
Proof.
  intros H. unfold getRangeText.
  rewrite StringToNumber_Z_to_string.
  rewrite ofZ_finite by lia. cbn [negb].
  assert (Rp : represents (ofZ p) p) by (apply ofZ_exact; lia).
  assert (R5 : represents (ofZ 5) 5) by (apply ofZ_exact; reflexivity).
  pose proof (add_exact _ _ _ _ Rp R5 ltac:(lia)) as Rh.
  rewrite (format_integer _ _ Rp) by lia.
  rewrite (format_integer _ _ Rh) by lia.
  reflexivity.
Qed.

Lemma range_text_of_whole_price_witness :
  getRangeText "160" = Some "160 - 165"
  /\ getRangeText "-3" = Some "-3 - 2".
Proof.
  split.
  - exact (range_text_of_whole_price 160 eq_refl).
  - exact (range_text_of_whole_price (-3) eq_refl).
Defined.

(** X22.  A strike select offers each strike under the text [String] gives
    it, its plain digits, and stores [Number] of the text chosen: that is
    the strike itself, and the messages print it in the same digits. *)
Theorem strike_select_round_trip (k : Z) :
  In k strikes ->
  NumberToString (ofZ k) = strikeText k
  /\ StringToNumber (strikeText k) = ofZ k.
Proof.
  intros Hin. unfold strikeText.
  assert (H : Z.abs k < 2 ^ 53).
  { unfold strikes in Hin. apply in_map_iff in Hin.
    destruct Hin as (i & <- & Hi). apply in_seq in Hi.
    assert (2 ^ 53 = 9007199254740992) by reflexivity. lia. }
  assert (E : NumberToString (ofZ k) = Z_to_string k).
  { pose proof (format_integer _ _ (ofZ_exact k H) H) as F.
    unfold format in F.
    destruct (represents_integer _ _ (ofZ_exact k H)) as [Hi _].
    now rewrite Hi in F. }
  split; [exact E|]. apply StringToNumber_Z_to_string.
Qed.

Lemma strike_select_round_trip_witness :
  In 25900 strikes
  /\ NumberToString (ofZ 25900) = "25900"
  /\ StringToNumber "25900" = ofZ 25900.
Proof.
  assert (Hin : In 25900 strikes).
  { unfold strikes. apply in_map_iff. exists 38%nat.
    split; [reflexivity|]. apply in_seq. lia. }
  split; [exact Hin|].
  exact (strike_select_round_trip 25900 Hin).
Defined.

End WholeNumbers.

(** ** Rounding to nearest *)

Section NearestRounding.
Import JSString JSNumber.

Lemma placed_0 (M r d : Z) :
  0 <= M -> 0 < d -> 0 <= r < d ->
  placed M r d 0 (shr_record_of_loc M (locate r d)).
Proof.
  intros HM Hd Hr. exists r. unfold locate.
  change (2 ^ 0) with 1. rewrite Z.mul_1_r.
  destruct (Z.eqb_spec r 0) as [->|Hnz].
  - cbn [shr_record_of_loc shr_m shr_r shr_s]. repeat split; lia.
  - destruct (Z.compare_spec (2 * r) d);
      cbn [shr_record_of_loc shr_m shr_r shr_s]; repeat split; lia.
Qed.

Lemma shr_1_placed (M r d k : Z) (s : shr_record) :
  0 <= k -> 0 < d -> placed M r d k s -> placed M r d (k + 1) (shr_1 s).
Proof.
  intros Hk Hd (rem & Hm & HM & Hrem & Hr & Hs).
  pose proof (Z.pow_pos_nonneg 2 k ltac:(lia) Hk) as Hpos.
  assert (Hp : 2 ^ (k + 1) = 2 * 2 ^ k)
    by (rewrite Z.pow_add_r by lia; change (2 ^ 1) with 2; lia).
  destruct s as [m rb sb]. cbn [shr_m shr_r shr_s] in *.
  unfold placed. rewrite Hp. set (a := 2 ^ k) in *.
  assert (HD : 0 < d * a) by nia.
  set (D := d * a) in *.
  replace (d * (2 * a)) with (2 * D) by (subst D; ring).
  cbn [shr_1].
  destruct m as [|[p|p|]|p]; cbn [shr_m shr_r shr_s]; try lia.
  - exists rem. destruct rb, sb; cbn [orb]; repeat split; try lia.
  - exists (D + rem). rewrite (Pos2Z.inj_xI p) in HM.
    destruct rb, sb; cbn [orb]; repeat split; try lia.
  - exists rem. rewrite (Pos2Z.inj_xO p) in HM.
    destruct rb, sb; cbn [orb]; repeat split; try lia.
  - exists (D + rem).
    destruct rb, sb; cbn [orb]; repeat split; try lia.
Qed.

Lemma shr_placed (M r d e n : Z) :
  0 <= M -> 0 < d -> 0 <= r < d ->
  let '(s, e') := shr (shr_record_of_loc M (locate r d)) e n in
  e' = e + Z.max 0 n /\ placed M r d (e' - e) s.
Proof.
  intros HM Hd Hr. unfold shr.
  pose proof (placed_0 M r d HM Hd Hr) as H0.
  destruct n as [|p|p].
  - rewrite Z.sub_diag. split; [lia|exact H0].
  - replace (e + Zpos p - e) with (0 + Zpos p) by lia.
    split; [lia|].
    apply (iter_pos_invariant shr_1 (fun k s => placed M r d k s));
      [|lia|exact H0].
    intros k a Hk. apply shr_1_placed; assumption.
  - rewrite Z.sub_diag. split; [lia|exact H0].
Qed.

Lemma shr_fexp_placed (M r d e : Z) :
  0 <= M -> 0 < d -> 0 <= r < d ->
  let '(s, e') := shr_fexp prec emax M e (locate r d) in
  e' = Z.max e (Z.max (Zdigits2 M + e - 53) (-1074))
  /\ placed M r d (e' - e) s.
Proof.
  intros HM Hd Hr. unfold shr_fexp. rewrite fexp_eq.
  pose proof (shr_placed M r d e
                (Z.max (Zdigits2 M + e - 53) (-1074) - e) HM Hd Hr) as H.
  destruct (shr (shr_record_of_loc M (locate r d)) e
              (Z.max (Zdigits2 M + e - 53) (-1074) - e)) as [s e'].
  destruct H as [He Hs]. split; [lia|exact Hs].
Qed.

(** Rounding to nearest leaves at most half a unit. *)
Lemma round_nearest_even_placed (M r d k : Z) (s : shr_record) :
  placed M r d k s ->
  let m1 := round_nearest_even (shr_m s) (loc_of_shr_record s) in
  shr_m s <= m1 <= shr_m s + 1
  /\ 2 * Z.abs (m1 * (d * 2 ^ k) - (M * d + r)) <= d * 2 ^ k.
Proof.
  intros (rem & Hm & HM & Hrem & Hr & Hs).
  destruct s as [m rb sb]. cbn [shr_m shr_r shr_s] in *.
  set (D := d * 2 ^ k) in *.
  destruct rb, sb; cbn [loc_of_shr_record round_nearest_even];
    try destruct (Z.even m); cbv zeta; split; try lia.
Qed.

(** Rounding a mantissa of at least 53 bits, in the range of the normal
    numbers: a finite number with a full mantissa, half a unit away at
    most. *)
Lemma binary_round_aux_near (sx : bool) (mx ex r d : Z) :
  0 < mx -> 0 < d -> 0 <= r < d ->
  53 <= Zdigits2 mx ->
  -1074 <= Zdigits2 mx + ex - 53 ->
  Zdigits2 mx + ex <= 1023 ->
  exists m e,
    binary_round_aux prec emax sx mx ex (locate r d) = S754_finite sx m e
    /\ 2 ^ 52 <= Zpos m < 2 ^ 53
    /\ ex <= e
    /\ 2 * Z.abs (Zpos m * (d * 2 ^ (e - ex)) - (mx * d + r))
       <= d * 2 ^ (e - ex).
Proof.
  intros Hmx Hd Hr Hdig Hlow Hhigh. unfold binary_round_aux.
  pose proof (shr_fexp_placed mx r d ex ltac:(lia) Hd Hr) as H1.
  destruct (shr_fexp prec emax mx ex (locate r d)) as [s1 e1].
  destruct H1 as [He1 Hp1].
  assert (Ee1 : e1 = ex + (Zdigits2 mx - 53)) by lia.
  set (k := Zdigits2 mx - 53) in *.
  assert (Hk : 0 <= k) by lia.
  replace (e1 - ex) with k in Hp1 by lia.
  pose proof (round_nearest_even_placed mx r d k s1 Hp1) as Hround.
  cbv zeta in Hround.
  set (m1 := round_nearest_even (shr_m s1) (loc_of_shr_record s1)) in *.
  destruct Hround as [Hm1 Herr].
  pose proof (Z.pow_pos_nonneg 2 k ltac:(lia) Hk) as Hpos.
  (* the quotient has exactly 53 bits *)
  assert (Hm0 : 2 ^ 52 <= shr_m s1 < 2 ^ 53).
  { destruct Hp1 as (rem & Hq & HM & Hrem & _).
    pose proof (Zdigits2_lt mx ltac:(lia)) as Hlt.
    pose proof (Zdigits2_ge mx Hmx) as Hge.
    replace (Zdigits2 mx) with (53 + k) in Hlt by lia.
    replace (Zdigits2 mx - 1) with (52 + k) in Hge by lia.
    rewrite Z.pow_add_r in Hlt, Hge by lia.
    set (a := 2 ^ k) in *. set (q := shr_m s1) in *.
    assert (H52 : 2 ^ 52 = 4503599627370496) by reflexivity.
    assert (H53 : 2 ^ 53 = 9007199254740992) by reflexivity.
    rewrite H52, H53 in *. nia. }
  assert (H52 : 2 ^ 52 = 4503599627370496) by reflexivity.
  assert (H53 : 2 ^ 53 = 9007199254740992) by reflexivity.
  pose proof (shr_fexp_placed m1 0 1 e1 ltac:(lia) ltac:(lia) ltac:(lia)) as H2.
  change (locate 0 1) with loc_Exact in H2.
  destruct (shr_fexp prec emax m1 e1 loc_Exact) as [s2 e2].
  destruct H2 as [He2 (rem2 & Hq2 & HM2 & Hrem2 & _)].
  rewrite Z.mul_1_l, Z.mul_1_r, Z.add_0_r in *.
  destruct (Z.eq_dec m1 (2 ^ 53)) as [Ecarry|Hnc].
  - (* the mantissa overflows by rounding *)
    assert (Ed : Zdigits2 m1 = 54)
      by (apply Zdigits2_unique; rewrite Ecarry; cbn; lia).
    rewrite Ed in He2.
    assert (Ee2 : e2 = e1 + 1) by lia.
    replace (e2 - e1) with 1 in * by lia.
    change (2 ^ 1) with 2 in *.
    assert (Eq2 : shr_m s2 = 2 ^ 52) by lia.
    rewrite Eq2. change (2 ^ 52) with (Zpos 4503599627370496).
    cbv iota. change (emax - prec) with 971.
    destruct (Z.leb_spec e2 971); [|lia].
    exists 4503599627370496%positive, e2.
    split; [reflexivity|]. split; [lia|]. split; [lia|].
    replace (e2 - ex) with (k + 1) by lia.
    rewrite Z.pow_add_r by lia. change (2 ^ 1) with 2.
    set (a := 2 ^ k) in *.
    replace (Zpos 4503599627370496 * (d * (a * 2))) with (m1 * (d * a))
      by (rewrite Ecarry, H53; ring).
    nia.
  - assert (Ed : Zdigits2 m1 = 53)
      by (apply Zdigits2_unique; lia).
    rewrite Ed in He2.
    assert (Ee2 : e2 = e1) by lia.
    replace (e2 - e1) with 0 in * by lia.
    change (2 ^ 0) with 1 in *.
    assert (Eq2 : shr_m s2 = m1) by lia.
    rewrite Eq2.
    destruct m1 as [|p|p]; try lia.
    change (emax - prec) with 971.
    destruct (Z.leb_spec e2 971); [|lia].
    exists p, e2.
    split; [reflexivity|]. split; [lia|]. split; [lia|].
    replace (e2 - ex) with k by lia. exact Herr.
Qed.

Lemma Zdigits2_lower (x n : Z) : 0 < x -> 2 ^ (n - 1) <= x -> n <= Zdigits2 x.
Proof.
  intros Hx H.
  destruct (Z.le_gt_cases n (Zdigits2 x)) as [|Hgt]; [assumption|exfalso].
  pose proof (Zdigits2_lt x ltac:(lia)) as Hlt.
  pose proof (Zdigits2_nonneg x).
  assert (2 ^ Zdigits2 x <= 2 ^ (n - 1)) by (apply Z.pow_le_mono_r; lia).
  lia.
Qed.

Lemma Zdigits2_upper (x n : Z) : 0 < x -> 0 <= n -> x < 2 ^ n -> Zdigits2 x <= n.
Proof.
  intros Hx Hn H.
  destruct (Z.le_gt_cases (Zdigits2 x) n) as [|Hgt]; [assumption|exfalso].
  pose proof (Zdigits2_ge x Hx) as Hge.
  assert (2 ^ n <= 2 ^ (Zdigits2 x - 1)) by (apply Z.pow_le_mono_r; lia).
  lia.
Qed.

(** The exponent of an approximation of a value below [2^40]. *)
Lemma approximates_exponent (m : positive) (e n d ulps : Z) :
  approximates (S754_finite false m e) n d ulps ->
  0 < d -> ulps <= 2 -> n < 2 ^ 40 * d ->
  12 <= - e.
Proof.
  intros (He & Hm & Herr) Hd Hu Hn.
  destruct (Z.le_gt_cases 12 (- e)) as [|Hlt]; [assumption|exfalso].
  assert (Hp : 2 ^ (- e) <= 2 ^ 11) by (apply Z.pow_le_mono_r; lia).
  pose proof (Z.pow_pos_nonneg 2 (- e) ltac:(lia) ltac:(lia)) as Hpos.
  set (a := 2 ^ (- e)) in *.
  assert (H52 : 2 ^ 52 = 4503599627370496) by reflexivity.
  assert (H40 : 2 ^ 40 = 1099511627776) by reflexivity.
  assert (H11 : 2 ^ 11 = 2048) by reflexivity.
  rewrite H52, H40, H11 in *.
  assert (n * a < 1099511627776 * d * 2048) by nia.
  nia.
Qed.

(** A decimal with one or two fractional digits, below [2^40], rounds to
    a number half a unit away at most. *)
Lemma roundDecimal_near (p : positive) (j : Z) :
  1 <= j <= 2 -> Zpos p < 2 ^ 40 ->
  approximates (roundDecimal false (Npos p) (- j)) (Zpos p) (10 ^ j) 1.
Proof.
  intros Hj Hp. unfold roundDecimal.
  destruct (Z.leb_spec 0 (- j)) as [|_]; [lia|].
  rewrite Z.opp_involutive.
  set (den := 10 ^ j).
  assert (Hden : den = 10 \/ den = 100).
  { subst den. assert (C : j = 1 \/ j = 2) by lia.
    destruct C as [-> | ->]; auto. }
  assert (Hlden : 3 <= Z.log2 den <= 6)
    by (destruct Hden as [-> | ->]; cbn; lia).
  pose proof (Z.log2_spec (Zpos p) ltac:(lia)) as Hlp.
  pose proof (Z.log2_nonneg (Zpos p)) as Hl0.
  assert (Hl40 : Z.log2 (Zpos p) < 40).
  { apply Z.log2_lt_pow2; lia. }
  set (L := Z.log2 (Zpos p)) in *.
  set (shift := Z.max 0 (64 + Z.log2 den - L)).
  assert (Hshift : shift = 64 + Z.log2 den - L) by lia.
  set (num := Zpos p * 2 ^ shift).
  cbv zeta.
  fold (locate (num mod den) den).
  pose proof (Z.div_mod num den ltac:(lia)) as Hdm.
  pose proof (Z.mod_pos_bound num den ltac:(lia)) as Hr.
  set (q := num / den) in *. set (r := num mod den) in *.
  pose proof (Z.pow_pos_nonneg 2 shift ltac:(lia) ltac:(lia)) as Hps.
  (* the quotient has at least 64 bits *)
  assert (Hnum_lo : 2 ^ (64 + Z.log2 den) <= num).
  { subst num. replace (64 + Z.log2 den) with (L + shift) by lia.
    rewrite Z.pow_add_r by lia. nia. }
  assert (Hden_hi : den < 2 ^ (Z.log2 den + 1)).
  { pose proof (Z.log2_spec den ltac:(lia)) as H. 
    replace (Z.log2 den + 1) with (Z.succ (Z.log2 den)) by lia. lia. }
  assert (Hq63 : 2 ^ 63 <= q).
  { replace (64 + Z.log2 den) with (63 + (Z.log2 den + 1)) in Hnum_lo by lia.
    rewrite Z.pow_add_r in Hnum_lo by lia.
    set (b := 2 ^ (Z.log2 den + 1)) in *.
    assert (H63 : 2 ^ 63 = 9223372036854775808) by reflexivity.
    rewrite H63 in *. nia. }
  assert (Hq : 0 < q) by (assert (0 < 2 ^ 63) by reflexivity; lia).
  assert (Hd64 : 64 <= Zdigits2 q) by (apply Zdigits2_lower; [lia|exact Hq63]).
  assert (Hdup : Zdigits2 q <= L + 1 + shift).
  { apply Zdigits2_upper; [lia|lia|].
    rewrite Z.pow_add_r by lia.
    replace (L + 1) with (Z.succ L) by lia.
    assert (num < 2 ^ Z.succ L * 2 ^ shift) by (subst num; nia).
    nia. }
  destruct (binary_round_aux_near false q (- shift) r den)
    as (m & e & -> & Hm & He & Herr); try lia.
  replace (q * den + r) with num in Herr by lia.
  replace (e - - shift) with (e + shift) in Herr by lia.
  assert (Ht : 0 <= e + shift) by lia.
  pose proof (Z.pow_pos_nonneg 2 (e + shift) ltac:(lia) Ht) as HpT.
  assert (H52 : 2 ^ 52 = 4503599627370496) by reflexivity.
  assert (H40 : 2 ^ 40 = 1099511627776) by reflexivity.
  (* the exponent is not positive *)
  assert (He0 : e <= 0).
  { destruct (Z.le_gt_cases e 0) as [|Hgt]; [assumption|exfalso].
    assert (HT : 2 * 2 ^ shift <= 2 ^ (e + shift)).
    { replace (e + shift) with (shift + 1 + (e - 1)) by lia.
      rewrite !Z.pow_add_r by lia. change (2 ^ 1) with 2.
      pose proof (Z.pow_pos_nonneg 2 (e - 1) ltac:(lia) ltac:(lia)). nia. }
    subst num. set (S := 2 ^ shift) in *. set (T := 2 ^ (e + shift)) in *.
    rewrite H52, H40 in *.
    assert (Zpos p * S < 1099511627776 * T) by nia.
    assert (4503599627370496 * den * T <= Zpos m * (den * T)) by nia.
    nia. }
  cbn [approximates]. split; [exact He0|]. split; [exact Hm|].
  assert (Es : 2 ^ shift = 2 ^ (- e) * 2 ^ (e + shift)).
  { rewrite <- Z.pow_add_r by lia. f_equal. lia. }
  subst num. rewrite Es in Herr.
  set (T := 2 ^ (e + shift)) in *. set (a := 2 ^ (- e)) in *.
  replace (Zpos m * (den * T) - Zpos p * (a * T))
    with ((Zpos m * den - Zpos p * a) * T) in Herr by ring.
  rewrite Z.abs_mul, (Z.abs_eq T) in Herr by lia.
  nia.
Qed.

(** Five more than an approximation of [n / d] is one unit away at most
    from [n / d + 5]. *)
Lemma add_five_near (x : number) (n d : Z) :
  approximates x n d 1 ->
  1 <= n -> 1 <= d <= 100 -> n + 5 * d < 2 ^ 40 * d ->
  approximates (add x (ofZ 5)) (n + 5 * d) d 2.
Proof.
  intros Hx Hn Hd Hbound.
  destruct x as [sx|sx| |[|] m e]; cbn [approximates] in Hx; try contradiction.
  pose proof (approximates_exponent m e n d 1 Hx ltac:(lia) ltac:(lia)
                ltac:(lia)) as HE.
  destruct Hx as (He & Hm & Hlow).
  assert (H52 : 2 ^ 52 = 4503599627370496) by reflexivity.
  assert (H53 : 2 ^ 53 = 9007199254740992) by reflexivity.
  assert (H40 : 2 ^ 40 = 1099511627776) by reflexivity.
  (* the exponent is not too small *)
  assert (HE60 : - e <= 60).
  { destruct (Z.le_gt_cases (- e) 60) as [|Hgt]; [assumption|exfalso].
    assert (Hp : 2 ^ 61 <= 2 ^ (- e)) by (apply Z.pow_le_mono_r; lia).
    assert (H61 : 2 ^ 61 = 2305843009213693952) by reflexivity.
    set (a := 2 ^ (- e)) in *. rewrite H53, H61 in *.
    assert (H1 : Zpos m * d <= 9007199254740991 * d)
      by (apply Z.mul_le_mono_nonneg_r; lia).
    assert (H2 : 1 * a <= n * a)
      by (apply Z.mul_le_mono_nonneg_r; lia).
    clear - H1 H2 Hlow Hp Hd. lia. }
  unfold add. rewrite ofZ_5. cbn [SFadd cond_Zopp].
  set (ez := Z.min e (-50)).
  assert (Hez : ez <= e /\ ez <= -50 /\ -60 <= ez) by lia.
  pose proof (shl_align_spec m e ez) as HX.
  pose proof (shl_align_spec 5629499534213120 (-50) ez) as HY.
  destruct (shl_align m e ez) as [X ex'].
  destruct (shl_align 5629499534213120 (-50) ez) as [Y ey'].
  cbn [fst]. destruct HX as [Hex HX]. destruct HY as [Hey HY].
  replace (Z.min e ez) with ez in Hex by lia.
  replace (Z.min (-50) ez) with ez in Hey by lia.
  subst ex' ey'.
  (* the parts of the sum over the common exponent *)
  pose proof (Z.pow_pos_nonneg 2 (- ez) ltac:(lia) ltac:(lia)) as HpZ.
  pose proof (Z.pow_pos_nonneg 2 (e - ez) ltac:(lia) ltac:(lia)) as Hpa.
  pose proof (Z.pow_pos_nonneg 2 (- e) ltac:(lia) ltac:(lia)) as HpE.
  assert (EZ : 2 ^ (- ez) = 2 ^ (- e) * 2 ^ (e - ez)).
  { rewrite <- Z.pow_add_r by lia.
    replace (- e + (e - ez)) with (- ez) by lia. reflexivity. }
  assert (EY : Zpos Y = 5 * 2 ^ (- ez)).
  { rewrite HY. replace (- ez) with (50 + (-50 - ez)) by lia.
    rewrite Z.pow_add_r by lia.
    change (2 ^ 50) with 1125899906842624. lia. }
  change (Zpos X + Zpos Y) with (Zpos (X + Y)).
  cbn [binary_normalize]. unfold binary_round.
  assert (HS : Zpos (X + Y) = Zpos m * 2 ^ (e - ez) + 5 * 2 ^ (- ez))
    by (rewrite Pos2Z.inj_add, HX, EY; reflexivity).
  set (S := Zpos (X + Y)) in *.
  change (Zpos (digits2_pos (X + Y))) with (Zdigits2 S).
  set (a := 2 ^ (e - ez)) in *. set (PE := 2 ^ (- e)) in *.
  set (ZZ := 2 ^ (- ez)) in *.
  assert (HE12 : 2 ^ 12 <= PE) by (apply Z.pow_le_mono_r; lia).
  change (2 ^ 12) with 4096 in HE12.
  (* the sum is below 2^41 over the common exponent *)
  assert (HSup : S < 2 ^ 41 * ZZ).
  { assert (H41 : 2 ^ 41 = 2199023255552) by reflexivity.
    rewrite H41, H40 in *. rewrite HS, EZ.
    assert (H1 : Zpos m * d <= n * PE + d) by lia.
    assert (H2 : n * PE <= (1099511627776 * d - 5 * d - 1) * PE)
      by (apply Z.mul_le_mono_nonneg_r; lia).
    assert (H3 : Zpos m * d <= 1099511627776 * PE * d)
      by (clear - H1 H2 HE12 Hd; nia).
    assert (H4 : Zpos m <= 1099511627776 * PE)
      by (apply (Z.mul_le_mono_pos_r _ _ d); lia).
    assert (H5 : Zpos m * a <= 1099511627776 * PE * a)
      by (apply Z.mul_le_mono_nonneg_r; lia).
    assert (H6 : 4096 * a <= PE * a)
      by (apply Z.mul_le_mono_nonneg_r; lia).
    clear - H5 H6 Hpa. lia. }
  assert (HSlo : 2 ^ 52 * a < S).
  { rewrite HS.
    assert (2 ^ 52 * a <= Zpos m * a)
      by (apply Z.mul_le_mono_nonneg_r; lia).
    lia. }
  assert (Hdlo : 53 + (e - ez) <= Zdigits2 S).
  { apply Zdigits2_lower; [lia|].
    replace (53 + (e - ez) - 1) with (52 + (e - ez)) by lia.
    rewrite Z.pow_add_r by lia. fold a. lia. }
  assert (Hdup : Zdigits2 S <= 41 + - ez).
  { apply Zdigits2_upper; [lia|lia|].
    rewrite Z.pow_add_r by lia. exact HSup. }
  rewrite fexp_eq.
  pose proof (shl_align_spec (X + Y) ez
                (Z.max (Zdigits2 S + ez - 53) (-1074))) as HA.
  destruct (shl_align (X + Y) ez (Z.max (Zdigits2 S + ez - 53) (-1074)))
    as [mz ez'].
  destruct HA as [Hez' Hmz].
  assert (Eez' : ez' = ez) by lia.
  rewrite Eez' in *. rewrite Z.sub_diag in Hmz.
  change (2 ^ 0) with 1 in Hmz. rewrite Z.mul_1_r in Hmz.
  rewrite Hmz. fold S.
  destruct (binary_round_aux_near false S ez 0 1)
    as (m' & e' & Hres & Hm' & He' & Herr); try lia.
  change (locate 0 1) with loc_Exact in Hres. rewrite Hres.
  rewrite Z.mul_1_l, Z.mul_1_r, Z.add_0_r in Herr.
  pose proof (Z.pow_pos_nonneg 2 (e' - ez) ltac:(lia) ltac:(lia)) as HpT.
  (* the exponent does not decrease *)
  assert (Hee : e <= e').
  { destruct (Z.le_gt_cases e e') as [|Hgt]; [assumption|exfalso].
    assert (Ha : a = 2 ^ (e - e') * 2 ^ (e' - ez)).
    { subst a. rewrite <- Z.pow_add_r by lia.
      replace (e - e' + (e' - ez)) with (e - ez) by lia. reflexivity. }
    assert (2 <= 2 ^ (e - e')).
    { change 2 with (2 ^ 1) at 1. apply Z.pow_le_mono_r; lia. }
    set (T := 2 ^ (e' - ez)) in *. set (c := 2 ^ (e - e')) in *.
    rewrite H52, H53 in *.
    assert (H1 : 2 * T <= a)
      by (rewrite Ha; apply Z.mul_le_mono_nonneg_r; lia).
    assert (H2 : Zpos m' * T <= 9007199254740991 * T)
      by (apply Z.mul_le_mono_nonneg_r; lia).
    clear - H1 H2 HSlo Herr HpT. lia. }
  (* nor does it become positive *)
  assert (He0 : e' <= 0).
  { destruct (Z.le_gt_cases e' 0) as [|Hgt]; [assumption|exfalso].
    assert (HT : 2 ^ (e' - ez) = 2 ^ e' * ZZ).
    { subst ZZ. rewrite <- Z.pow_add_r by lia.
      replace (e' + - ez) with (e' - ez) by lia. reflexivity. }
    assert (Hc : 2 <= 2 ^ e').
    { change 2 with (2 ^ 1) at 1. apply Z.pow_le_mono_r; lia. }
    set (T := 2 ^ (e' - ez)) in *. set (c := 2 ^ e') in *.
    assert (H41 : 2 ^ 41 = 2199023255552) by reflexivity.
    rewrite H52, H53, H41 in *.
    assert (H1 : 2 * ZZ <= T)
      by (rewrite HT; apply Z.mul_le_mono_nonneg_r; lia).
    assert (H2 : 4503599627370496 * T <= Zpos m' * T)
      by (apply Z.mul_le_mono_nonneg_r; lia).
    clear - H1 H2 HSup Herr HpT HpZ. lia. }
  cbn [approximates]. split; [exact He0|]. split; [exact Hm'|].
  pose proof (Z.pow_pos_nonneg 2 (- e') ltac:(lia) ltac:(lia)) as HpE'.
  assert (EZ' : ZZ = 2 ^ (- e') * 2 ^ (e' - ez)).
  { subst ZZ. rewrite <- Z.pow_add_r by lia.
    replace (- e' + (e' - ez)) with (- ez) by lia. reflexivity. }
  assert (HaT : a <= 2 ^ (e' - ez)) by (apply Z.pow_le_mono_r; lia).
  set (T := 2 ^ (e' - ez)) in *. set (PE' := 2 ^ (- e')) in *.
  clearbody S a PE ZZ T PE'.
  assert (Key : (Zpos m' * d - (n + 5 * d) * PE') * T
                = d * (Zpos m' * T - S) + a * (Zpos m * d - n * PE)).
  { transitivity (Zpos m' * d * T - (n + 5 * d) * ZZ).
    - rewrite EZ'. ring.
    - rewrite HS, EZ. ring. }
  set (u := Zpos m' * T - S) in *. set (v := Zpos m * d - n * PE) in *.
  set (w := Zpos m' * d - (n + 5 * d) * PE') in *.
  assert (Hdu : 2 * Z.abs (d * u) <= d * T).
  { rewrite Z.abs_mul, (Z.abs_eq d) by lia.
    replace (2 * (d * Z.abs u)) with (d * (2 * Z.abs u)) by ring.
    apply Z.mul_le_mono_nonneg_l; lia. }
  assert (Hav : 2 * Z.abs (a * v) <= d * T).
  { rewrite Z.abs_mul, (Z.abs_eq a) by lia.
    replace (2 * (a * Z.abs v)) with (a * (2 * Z.abs v)) by ring.
    transitivity (a * d).
    - apply Z.mul_le_mono_nonneg_l; lia.
    - rewrite (Z.mul_comm a d). apply Z.mul_le_mono_nonneg_l; lia. }
  assert (HwT : 2 * Z.abs (w * T) <= 2 * d * T)
    by (clear - Key Hdu Hav; rewrite Key; lia).
  rewrite Z.abs_mul, (Z.abs_eq T) in HwT by lia.
  replace (2 * (Z.abs w * T)) with (2 * Z.abs w * T) in HwT by ring.
  apply Z.mul_le_mono_pos_r in HwT; [exact HwT|exact HpT].
Qed.

End NearestRounding.

(** ** Prices with decimals *)

Section DecimalPrices.
Import JSString JSNumber JSDate FreshTrade.

(** A string of digits is the text of a decimal numeral. *)
Lemma digits_uint (s : string) :
  allDigits s = true -> exists w, NilEmpty.string_of_uint w = s.
Proof.
  induction s as [|c s IH]; [exists Decimal.Nil; reflexivity|].
  cbn [allDigits]. intros H. apply andb_prop in H. destruct H as [Hc Hs].
  destruct (IH Hs) as [w <-].
  destruct c as [[] [] [] [] [] [] [] []]; try discriminate Hc;
    first [ exists (Decimal.D0 w); reflexivity
          | exists (Decimal.D1 w); reflexivity
          | exists (Decimal.D2 w); reflexivity
          | exists (Decimal.D3 w); reflexivity
          | exists (Decimal.D4 w); reflexivity
          | exists (Decimal.D5 w); reflexivity
          | exists (Decimal.D6 w); reflexivity
          | exists (Decimal.D7 w); reflexivity
          | exists (Decimal.D8 w); reflexivity
          | exists (Decimal.D9 w); reflexivity ].
Qed.

Lemma digitsValue_app (acc : N) (a b : string) :
  digitsValue 10 acc (a ++ b)
  = match digitsValue 10 acc a with
    | Some v => digitsValue 10 v b
    | None => None
    end.
Proof.
  revert acc. induction a as [|c a IH]; intros acc; cbn [append digitsValue];
    [reflexivity|].
  destruct (digitValue 10 c); [apply IH|reflexivity].
Qed.

(** The numeral of a positive number has no leading zero. *)
Lemma to_uint_head (q : N) :
  (0 < q)%N -> Decimal.unorm (N.to_uint q) = N.to_uint q
               /\ N.to_uint q <> Decimal.D0 Decimal.Nil.
Proof.
  intros Hq. split.
  - rewrite <- (DecimalN.Unsigned.of_to q) at 2.
    rewrite DecimalN.Unsigned.to_of. reflexivity.
  - intros E. pose proof (DecimalN.Unsigned.of_to q) as H.
    rewrite E in H. cbn in H. lia.
Qed.

Lemma nzhead_head (u : Decimal.uint) :
  match Decimal.nzhead u with Decimal.D0 _ => False | _ => True end.
Proof. induction u; cbn; auto. Qed.

(** A numeral whose text starts with the text of a normal, non-zero
    numeral is normal. *)
Lemma unorm_prefix (u w : Decimal.uint) (rest : string) :
  Decimal.unorm u = u -> u <> Decimal.D0 Decimal.Nil ->
  NilEmpty.string_of_uint w = NilEmpty.string_of_uint u ++ rest ->
  Decimal.unorm w = w.
Proof.
  intros Hu Hnz Hw.
  assert (Hhead : match u with
                  | Decimal.Nil | Decimal.D0 _ => False
                  | _ => True
                  end).
  { unfold Decimal.unorm in Hu. pose proof (nzhead_head u) as Hh.
    destruct (Decimal.nzhead u) eqn:E; try contradiction;
      rewrite <- Hu; try exact I.
    now contradiction Hnz. }
  destruct u; try contradiction; cbn [NilEmpty.string_of_uint append] in Hw;
    destruct w; cbn [NilEmpty.string_of_uint] in Hw; try discriminate Hw;
    reflexivity.
Qed.

(** Appending digits to the text of a positive number. *)
Lemma N_to_string_app (q : N) (ds : string) :
  (0 < q)%N -> allDigits ds = true ->
  N_to_string q ++ ds
  = N_to_string
      (match digitsValue 10 q ds with Some v => v | None => 0%N end).
Proof.
  intros Hq Hds.
  destruct (N_to_string_digits q) as [Hdq _].
  assert (Hall : allDigits (N_to_string q ++ ds) = true)
    by (rewrite allDigits_app, Hdq, Hds; reflexivity).
  destruct (digits_uint _ Hall) as [w Hw].
  pose proof (digitsValue_uint w) as Hv.
  rewrite Hw, digitsValue_app in Hv.
  pose proof (decimalValue_N_to_string q) as Hdv.
  unfold decimalValue in Hdv.
  destruct (digitsValue 10 0 (N_to_string q)) as [v0|]; [|discriminate Hv].
  subst v0. rewrite Hv.
  destruct (to_uint_head q Hq) as [Hu Hnz].
  assert (Hnorm : Decimal.unorm w = w).
  { apply (unorm_prefix (N.to_uint q) w ds Hu Hnz).
    rewrite Hw, N_to_string_NilEmpty. reflexivity. }
  cbv iota. change (Pos.of_uint w) with (N.of_uint w).
  rewrite (N_to_string_NilEmpty (N.of_uint w)), DecimalN.Unsigned.to_of, Hnorm.
  symmetry. exact Hw.
Qed.

Lemma digitValue_digit (c : ascii) :
  isDigit c = true -> exists d, digitValue 10 c = Some d /\ (d < 10)%N.
Proof.
  intros Hc.
  destruct c as [[] [] [] [] [] [] [] []]; try discriminate Hc;
    eexists; (split; [reflexivity|reflexivity]).
Qed.

(** The value of digits after an accumulator. *)
Lemma digitsValue_all (acc : N) (ds : string) :
  allDigits ds = true ->
  digitsValue 10 acc ds
  = Some (acc * 10 ^ N.of_nat (String.length ds) + decimalValue ds)%N.
Proof.
  unfold decimalValue. revert acc.
  induction ds as [|c ds IH]; intros acc Hd.
  - cbn. f_equal. lia.
  - cbn [allDigits] in Hd. apply andb_prop in Hd. destruct Hd as [Hc Hd].
    destruct (digitValue_digit c Hc) as (d & Hv & _).
    cbn [digitsValue String.length]. rewrite Hv.
    rewrite (IH (acc * 10 + d)%N Hd), (IH (0 * 10 + d)%N Hd).
    destruct (digitsValue 10 0 ds) as [v|].
    + f_equal. rewrite Nat2N.inj_succ, N.pow_succ_r'. lia.
    + f_equal. rewrite Nat2N.inj_succ, N.pow_succ_r'. lia.
Qed.

(** The two digits of a number below one hundred. *)
Lemma twoDigit_digits (r : Z) :
  0 <= r < 100 ->
  allDigits (twoDigit r) = true
  /\ String.length (twoDigit r) = 2%nat
  /\ decimalValue (twoDigit r) = Z.to_N r.
Proof.
  intros Hr.
  assert (All : forallb
                  (fun n =>
                     allDigits (twoDigit (Z.of_nat n))
                     && Nat.eqb (String.length (twoDigit (Z.of_nat n))) 2
                     && N.eqb (decimalValue (twoDigit (Z.of_nat n)))
                          (N.of_nat n))
                  (seq 0 100) = true) by (vm_compute; reflexivity).
  rewrite forallb_forall in All.
  specialize (All (Z.to_nat r) ltac:(apply in_seq; lia)).
  rewrite Z2Nat.id in All by lia.
  apply andb_prop in All. destruct All as [All Hv].
  apply andb_prop in All. destruct All as [Ha Hl].
  apply Nat.eqb_eq in Hl. apply N.eqb_eq in Hv.
  split; [exact Ha|]. split; [exact Hl|]. rewrite Hv. lia.
Qed.

(** The digits of a number are those of its hundreds and its last two. *)
Lemma Z_to_string_hundreds (k : Z) :
  100 <= k ->
  Z_to_string k = Z_to_string (k / 100) ++ twoDigit (k mod 100).
Proof.
  intros Hk.
  pose proof (Z.div_mod k 100 ltac:(lia)) as Hdm.
  pose proof (Z.mod_pos_bound k 100 ltac:(lia)) as Hr.
  assert (Hq : 1 <= k / 100) by (apply Z.div_le_lower_bound; lia).
  destruct (twoDigit_digits (k mod 100) Hr) as (Ha & Hl & Hv).
  rewrite !Z_to_string_nonneg by lia.
  rewrite (N_to_string_app (Z.to_N (k / 100)) (twoDigit (k mod 100)))
    by (try lia; exact Ha).
  rewrite (digitsValue_all _ _ Ha), Hl, Hv.
  f_equal. change (10 ^ N.of_nat 2)%N with 100%N. lia.
Qed.

Lemma substring_prefix (a b : string) :
  substring 0 (String.length a) (a ++ b) = a.
Proof.
  induction a as [|c a IH]; cbn [String.length append substring].
  - destruct b; reflexivity.
  - now rewrite IH.
Qed.

Lemma substring_suffix (a b : string) :
  substring (String.length a) (String.length b) (a ++ b) = b.
Proof.
  induction a as [|c a IH]; cbn [String.length append substring].
  - induction b as [|c b IHb]; cbn [String.length substring]; [reflexivity|].
    now rewrite IHb.
  - exact IH.
Qed.

(** The digits [toFixed] splits, for two decimals. *)
Lemma padded_hundredths (k : Z) :
  0 <= k ->
  let ds := Z_to_string k in
  let len := Z.of_nat (String.length ds) in
  (if len <=? 2 then zeros (Z.to_nat (2 + 1 - len)) ++ ds else ds)
  = Z_to_string (k / 100) ++ twoDigit (k mod 100).
Proof.
  intros Hk ds len.
  destruct (Z.lt_ge_cases k 100) as [Hlt|Hge].
  - assert (All : forallb
                    (fun n =>
                       let ds := Z_to_string (Z.of_nat n) in
                       let len := Z.of_nat (String.length ds) in
                       String.eqb
                         (if len <=? 2
                          then zeros (Z.to_nat (2 + 1 - len)) ++ ds else ds)
                         (Z_to_string (Z.of_nat n / 100)
                            ++ twoDigit (Z.of_nat n mod 100)))
                    (seq 0 100) = true) by (vm_compute; reflexivity).
    rewrite forallb_forall in All.
    specialize (All (Z.to_nat k) ltac:(apply in_seq; lia)).
    rewrite Z2Nat.id in All by lia.
    apply String.eqb_eq in All. exact All.
  - pose proof (Z_to_string_hundreds k Hge) as E.
    pose proof (Z.mod_pos_bound k 100 ltac:(lia)) as Hr.
    destruct (twoDigit_digits (k mod 100) Hr) as (_ & Hl & _).
    assert (Hq : 1 <= k / 100) by (apply Z.div_le_lower_bound; lia).
    destruct (N_to_string_digits (Z.to_N (k / 100))) as [_ Ht].
    assert (Hlen : 2 < len).
    { subst len ds. rewrite E, length_app, Hl.
      rewrite Z_to_string_nonneg by lia.
      destruct (N_to_string (Z.to_N (k / 100))); [discriminate Ht|].
      cbn [String.length]. lia. }
    destruct (Z.leb_spec len 2); [lia|]. exact E.
Qed.

Lemma approximates_scale (x : number) (n d ulps c : Z) :
  approximates x n d ulps -> 0 < c -> approximates x (n * c) (d * c) ulps.
Proof.
  destruct x as [s|s| |[|] m e]; cbn [approximates]; try contradiction.
  intros (He & Hm & Herr) Hc. split; [exact He|]. split; [exact Hm|].
  replace (Zpos m * (d * c) - n * c * 2 ^ (- e))
    with ((Zpos m * d - n * 2 ^ (- e)) * c) by ring.
  rewrite Z.abs_mul, (Z.abs_eq c) by lia.
  replace (ulps * (d * c)) with (ulps * d * c) by ring.
  replace (2 * (Z.abs (Zpos m * d - n * 2 ^ (- e)) * c))
    with (2 * Z.abs (Zpos m * d - n * 2 ^ (- e)) * c) by ring.
  apply Z.mul_le_mono_nonneg_r; lia.
Qed.

Lemma approximates_weaken (x : number) (n d : Z) :
  approximates x n d 1 -> 0 <= d -> approximates x n d 2.
Proof.
  destruct x as [s|s| |[|] m e]; cbn [approximates]; try contradiction.
  intros (He & Hm & Herr) Hd.
  split; [exact He|]. split; [exact Hm|].
  set (t := Z.abs _) in *. clearbody t. lia.
Qed.

(** Half a unit away from a whole number is the whole number. *)
Lemma represents_near (x : number) (k : Z) :
  approximates x k 100 1 -> k < 2 ^ 40 * 100 -> k mod 100 = 0 ->
  represents x (k / 100).
Proof.
  intros Hx Hk Hmod.
  destruct x as [s|s| |[|] m e]; cbn [approximates] in Hx; try contradiction.
  pose proof (approximates_exponent m e k 100 1 Hx ltac:(lia) ltac:(lia) Hk)
    as HE.
  destruct Hx as (He & Hm & Herr).
  cbn [represents cond_Zopp].
  rewrite (Z.max_r e 0), (Z.max_l (- e) 0) by lia.
  change (2 ^ 0) with 1. rewrite Z.mul_1_r.
  pose proof (Z.div_mod k 100 ltac:(lia)) as Hdm. rewrite Hmod in Hdm.
  set (v := k / 100) in *. set (a := 2 ^ (- e)) in *.
  assert (Hk' : k * a = 100 * (v * a)) by (rewrite Hdm; ring).
  rewrite Hk' in Herr. lia.
Qed.

(** One unit away from a number with a fractional part, below [2^40]:
    no integer, and its two decimals are those of the number. *)
Lemma fractional_near (x : number) (k : Z) :
  approximates x k 100 2 -> 0 <= k < 2 ^ 40 * 100 -> k mod 100 <> 0 ->
  isInteger x = false
  /\ toFixed 2 x = Z_to_string (k / 100) ++ "." ++ twoDigit (k mod 100).
Proof.
  intros Hx Hk Hmod.
  destruct x as [s|s| |[|] m e]; cbn [approximates] in Hx; try contradiction.
  pose proof (approximates_exponent m e k 100 2 Hx ltac:(lia) ltac:(lia)
                ltac:(lia)) as HE.
  destruct Hx as (He & Hm & Herr).
  assert (HE12 : 2 ^ 12 <= 2 ^ (- e)) by (apply Z.pow_le_mono_r; lia).
  change (2 ^ 12) with 4096 in HE12.
  assert (H53 : 2 ^ 53 = 9007199254740992) by reflexivity.
  pose proof (Z.div_mod k 100 ltac:(lia)) as Hdm.
  pose proof (Z.mod_pos_bound k 100 ltac:(lia)) as Hr.
  assert (Hint : isInteger (S754_finite false m e) = false).
  { cbn [isInteger]. destruct (Z.leb_spec 0 e); [lia|]. cbn [orb].
    apply Z.eqb_neq. intros Hz.
    pose proof (Z.div_mod (Zpos m) (2 ^ (- e)) ltac:(lia)) as Hm2.
    rewrite Hz, Z.add_0_r in Hm2.
    set (a := 2 ^ (- e)) in *. set (v := Zpos m / a) in *.
    rewrite Hm2 in Herr.
    replace (a * v * 100 - k * a) with ((100 * v - k) * a) in Herr by ring.
    rewrite Z.abs_mul, (Z.abs_eq a) in Herr by lia.
    assert (Z.abs (100 * v - k) = 0) by nia.
    lia. }
  split; [exact Hint|].
  assert (Hsmall : Z.abs (truncate (S754_finite false m e)) < 10 ^ 21).
  { apply fractional_is_small; [|exact Hint]. cbn. lia. }
  unfold toFixed.
  destruct (Z.leb_spec (10 ^ 21)
              (Z.abs (truncate (S754_finite false m e)))); [lia|].
  assert (Hs : scaledRound 2 m e = k).
  { unfold scaledRound. destruct (Z.leb_spec 0 e); [lia|].
    change (10 ^ 2) with 100.
    set (a := 2 ^ (- e)) in *.
    symmetry. apply (Z.div_unique _ _ _ (2 * Zpos m * 100 + a - k * (2 * a)));
      lia. }
  rewrite Hs. change (2 =? 0) with false. cbv iota.
  pose proof (padded_hundredths k ltac:(lia)) as Hp. cbv zeta in Hp.
  rewrite Hp.
  destruct (twoDigit_digits (k mod 100) Hr) as (_ & Hl & _).
  rewrite length_app, Hl.
  replace (Z.to_nat (Z.of_nat (String.length (Z_to_string (k / 100)) + 2) - 2))
    with (String.length (Z_to_string (k / 100))) by lia.
  change (Z.to_nat 2) with 2%nat.
  assert (E2 : substring (String.length (Z_to_string (k / 100))) 2
                 (Z_to_string (k / 100) ++ twoDigit (k mod 100))
               = twoDigit (k mod 100))
    by (rewrite <- Hl; apply substring_suffix).
  rewrite substring_prefix, E2. reflexivity.
Qed.

Lemma trimEnd_app (a b : string) :
  trimEnd b = b -> truthy b = true -> trimEnd (a ++ b) = a ++ b.
Proof.
  intros Hb Ht. induction a as [|c a IH]; cbn [append]; [exact Hb|].
  cbn [trimEnd]. rewrite IH.
  destruct (a ++ b) eqn:E; [|reflexivity].
  destruct a; cbn in E; [subst b; discriminate Ht|discriminate E].
Qed.

Lemma spanDigits_app (a b : string) :
  allDigits a = true ->
  match b with
  | EmptyString => True
  | String c _ => isDigit c = false
  end ->
  spanDigits (a ++ b) = (a, b).
Proof.
  intros Ha Hb. induction a as [|c a IH]; cbn [append].
  - destruct b as [|c b]; [reflexivity|]. cbn [spanDigits]. now rewrite Hb.
  - cbn [allDigits] in Ha. apply andb_prop in Ha. destruct Ha as [Hc Ha].
    cbn [spanDigits]. rewrite Hc, (IH Ha). reflexivity.
Qed.

Lemma decimalValue_app (a b : string) :
  allDigits a = true -> allDigits b = true ->
  decimalValue (a ++ b)
  = (decimalValue a * 10 ^ N.of_nat (String.length b) + decimalValue b)%N.
Proof.
  intros Ha Hb. unfold decimalValue at 1.
  rewrite digitsValue_app, (digitsValue_all 0 a Ha).
  rewrite (digitsValue_all _ b Hb). cbv iota. lia.
Qed.

Lemma decimalValue_bound (ds : string) :
  allDigits ds = true ->
  (decimalValue ds < 10 ^ N.of_nat (String.length ds))%N.
Proof.
  induction ds as [|c ds IH]; [reflexivity|].
  cbn [allDigits]. intros H. apply andb_prop in H. destruct H as [Hc Hd].
  specialize (IH Hd).
  destruct (digitValue_digit c Hc) as (d & Hv & Hlt).
  unfold decimalValue in *. cbn [digitsValue String.length]. rewrite Hv.
  rewrite (digitsValue_all _ ds Hd).
  fold (decimalValue ds) in *.
  rewrite Nat2N.inj_succ, N.pow_succ_r'.
  set (P := (10 ^ N.of_nat (String.length ds))%N) in *.
  nia.
Qed.

(** [Number] of digits, a point and digits. *)
Lemma StringToNumber_decimal (a : Z) (frac : string) :
  0 <= a -> allDigits frac = true -> truthy frac = true ->
  StringToNumber (Z_to_string a ++ "." ++ frac)
  = roundDecimal false
      (Z.to_N a * 10 ^ N.of_nat (String.length frac) + decimalValue frac)%N
      (- Z.of_nat (String.length frac)).
Proof.
  intros Ha Hf Ht.
  rewrite Z_to_string_nonneg by exact Ha.
  destruct (N_to_string_digits (Z.to_N a)) as [HdA HtA].
  pose proof (decimalValue_N_to_string (Z.to_N a)) as HvA.
  set (A := N_to_string (Z.to_N a)) in *. clearbody A.
  change ("." ++ frac) with (String "." frac).
  assert (Hpoint : trimEnd (String "." frac) = String "." frac).
  { cbn [trimEnd]. rewrite (trimEnd_allDigits frac Hf).
    destruct frac; [discriminate Ht|reflexivity]. }
  assert (Hend : trimEnd (A ++ String "." frac) = A ++ String "." frac)
    by (apply trimEnd_app; [exact Hpoint|reflexivity]).
  assert (Hspan : spanDigits (A ++ String "." frac) = (A, String "." frac))
    by (apply spanDigits_app; [exact HdA|reflexivity]).
  assert (Hparse : parseUnsignedDecimal (A ++ String "." frac)
                   = Some (decimalValue (A ++ frac),
                           0 - Z.of_nat (String.length frac))).
  { unfold parseUnsignedDecimal. rewrite Hspan.
    rewrite (spanDigits_allDigits frac Hf), HtA. reflexivity. }
  rewrite (decimalValue_app A frac HdA Hf), HvA in Hparse.
  unfold StringToNumber.
  destruct A as [|c A]; [discriminate HtA|].
  cbn [allDigits] in HdA. apply andb_prop in HdA. destruct HdA as [Hc HdA].
  cbn [append] in *.
  assert (Htrim : trim (String c (A ++ String "." frac))
                  = String c (A ++ String "." frac)).
  { unfold trim. rewrite trimStart_digit by (apply isDigit_not_space, Hc).
    exact Hend. }
  rewrite Htrim. cbn [truthy negb].
  assert (Hnd : parseNonDecimal (String c (A ++ String "." frac)) = None).
  { destruct A as [|c2 A]; cbn [append].
    - destruct c as [[] [] [] [] [] [] [] []]; reflexivity.
    - cbn [allDigits] in HdA. apply andb_prop in HdA. destruct HdA as [Hc2 _].
      unfold parseNonDecimal.
      destruct c as [[] [] [] [] [] [] [] []]; try reflexivity.
      destruct c2 as [[] [] [] [] [] [] [] []]; try reflexivity;
        discriminate Hc2. }
  rewrite Hnd.
  assert (Hinf : String.eqb (String c (A ++ String "." frac)) "Infinity"
                 = false).
  { destruct (String.eqb_spec (String c (A ++ String "." frac)) "Infinity")
      as [E|E]; [|reflexivity].
    injection E as -> _. discriminate Hc. }
  destruct c as [[] [] [] [] [] [] [] []]; try discriminate Hc;
    cbv beta iota; rewrite Hinf, Hparse; reflexivity.
Qed.

Lemma approximates_finite (x : number) (n d ulps : Z) :
  approximates x n d ulps -> isFinite x = true /\ wellFormed x.
Proof.
  destruct x as [s|s| |[|] m e]; cbn [approximates]; try contradiction.
  intros (He & Hm & _). split; [reflexivity|]. cbn. lia.
Qed.

(** The two sides of the range of a number of hundredths. *)
Lemma range_of_hundredths (low : number) (k : Z) :
  0 <= k -> k + 500 < 2 ^ 40 * 100 ->
  (k = 0 /\ low = S754_zero false \/ 0 < k /\ approximates low k 100 1) ->
  isFinite low = true
  /\ format low = hundredths k
  /\ format (add low (ofZ 5)) = hundredths (k + 500).
Proof.
  intros Hk Hbound Hlow.
  pose proof (Z.div_mod k 100 ltac:(lia)) as Hdm.
  pose proof (Z.mod_pos_bound k 100 ltac:(lia)) as Hr.
  assert (H40 : 2 ^ 40 = 1099511627776) by reflexivity.
  assert (H53 : 2 ^ 53 = 9007199254740992) by reflexivity.
  assert (Hmod5 : (k + 500) mod 100 = k mod 100).
  { replace (k + 500) with (k + 5 * 100) by lia. apply Z.mod_add. lia. }
  assert (Hdiv5 : (k + 500) / 100 = k / 100 + 5).
  { replace (k + 500) with (k + 5 * 100) by lia. apply Z.div_add. lia. }
  unfold hundredths. rewrite Hmod5, Hdiv5.
  destruct (Z.eqb_spec (k mod 100) 0) as [Hz|Hnz].
  - (* a whole number *)
    assert (Hrep : represents low (k / 100)).
    { destruct Hlow as [[-> ->] | [Hpos Happ]]; [reflexivity|].
      apply represents_near; [exact Happ|lia|exact Hz]. }
    assert (Hv : 0 <= k / 100 < 2 ^ 40) by (rewrite H40; lia).
    assert (R5 : represents (ofZ 5) 5) by (apply ofZ_exact; reflexivity).
    pose proof (add_exact _ _ _ _ Hrep R5 ltac:(rewrite H53; lia)) as Rh.
    split.
    { destruct low; cbn in *; try reflexivity; contradiction. }
    split.
    + apply format_integer; [exact Hrep|rewrite H53; lia].
    + apply format_integer; [exact Rh|rewrite H53; lia].
  - destruct Hlow as [[-> _] | [Hpos Happ]]; [now contradiction Hnz|].
    pose proof (add_five_near low k 100 Happ ltac:(lia) ltac:(lia)
                  ltac:(lia)) as Hhigh.
    replace (5 * 100) with 500 in Hhigh by reflexivity.
    pose proof (approximates_weaken _ _ _ Happ ltac:(lia)) as Happ2.
    destruct (fractional_near low k Happ2 ltac:(lia) Hnz) as [Hil Hfl].
    destruct (fractional_near _ (k + 500) Hhigh ltac:(lia)
                ltac:(rewrite Hmod5; exact Hnz)) as [Hih Hfh].
    rewrite Hmod5, Hdiv5 in Hfh.
    split; [exact (proj1 (approximates_finite _ _ _ _ Happ))|].
    unfold format. rewrite Hil, Hih. split; assumption.
Qed.

(** X23.  A price typed as the digits of a whole number below [10^9], a
    point and one or two decimals has the range of its exact decimal
    value: [k] hundredths give "k/100 - (k+500)/100", each side in plain
    digits when it is whole and otherwise with its two decimals; the binary
    rounding of the price and of the sum never shows. *)
Theorem range_text_of_a_decimal_price (a : Z) (frac : string) :
  0 <= a < 10 ^ 9 ->
  allDigits frac = true ->
  (1 <= String.length frac <= 2)%nat ->
  let k :=
    100 * a
    + Z.of_N (decimalValue frac) * 10 ^ (2 - Z.of_nat (String.length frac)) in
  getRangeText (Z_to_string a ++ "." ++ frac)
  = Some (hundredths k ++ " - " ++ hundredths (k + 500)).
Proof.
  intros Ha Hf Hlen k.
  assert (H9 : 10 ^ 9 = 1000000000) by reflexivity.
  assert (H40 : 2 ^ 40 = 1099511627776) by reflexivity.
  rewrite H9 in Ha.
  assert (Ht : truthy frac = true) by (destruct frac; [cbn in Hlen; lia|reflexivity]).
  pose proof (decimalValue_bound frac Hf) as Hfv.
  unfold getRangeText.
  rewrite (StringToNumber_decimal a frac ltac:(lia) Hf Ht).
  set (j := String.length frac) in *.
  set (fv := decimalValue frac) in *.
  clearbody j fv.
  assert (Hj : j = 1%nat \/ j = 2%nat) by lia.
  set (n := (Z.to_N a * 10 ^ N.of_nat j + fv)%N).
  assert (Hk : k = Z.of_N n * 10 ^ (2 - Z.of_nat j)
               /\ 10 ^ Z.of_nat j * 10 ^ (2 - Z.of_nat j) = 100
               /\ 0 < 10 ^ (2 - Z.of_nat j)
               /\ Z.of_N n < 2 ^ 40
               /\ k + 500 < 2 ^ 40 * 100).
  { subst k n. rewrite H40. clear Hlen.
    destruct Hj as [-> | ->].
    - change (10 ^ N.of_nat 1)%N with 10%N in *.
      change (10 ^ (2 - Z.of_nat 1)) with 10.
      change (10 ^ Z.of_nat 1) with 10. lia.
    - change (10 ^ N.of_nat 2)%N with 100%N in *.
      change (10 ^ (2 - Z.of_nat 2)) with 1.
      change (10 ^ Z.of_nat 2) with 100. lia. }
  destruct Hk as (Ek & Epow & Hc & Hn & Hbound).
  destruct (range_of_hundredths
              (roundDecimal false n (- Z.of_nat j)) k) as (Hfin & Hl & Hh).
  - rewrite Ek. lia.
  - exact Hbound.
  - destruct n as [|p] eqn:En.
    + left. split; [rewrite Ek; reflexivity|reflexivity].
    + right. split; [rewrite Ek; lia|].
      rewrite Ek, <- Epow.
      apply approximates_scale; [|exact Hc].
      apply roundDecimal_near; [lia|exact Hn].
  - rewrite Hfin. cbn [negb]. rewrite Hl, Hh. reflexivity.
Qed.

Lemma range_text_of_a_decimal_price_witness :
  getRangeText "95.5" = Some "95.50 - 100.50"
  /\ getRangeText "160.25" = Some "160.25 - 165.25"
  /\ getRangeText "0.05" = Some "0.05 - 5.05"
  /\ getRangeText "160.00" = Some "160 - 165".
Proof.
  split; [|split; [|split]].
  - refine (range_text_of_a_decimal_price 95 "5" _ eq_refl _);
      [change (10 ^ 9) with 1000000000; lia | cbn; lia].
  - refine (range_text_of_a_decimal_price 160 "25" _ eq_refl _);
      [change (10 ^ 9) with 1000000000; lia | cbn; lia].
  - refine (range_text_of_a_decimal_price 0 "05" _ eq_refl _);
      [change (10 ^ 9) with 1000000000; lia | cbn; lia].
  - refine (range_text_of_a_decimal_price 160 "00" _ eq_refl _);
      [change (10 ^ 9) with 1000000000; lia | cbn; lia].
Defined.

End DecimalPrices.

(** ** The text of a side without fractional part

    [String(n)] on the integers the range formatter meets: the digits and
    the exponent of Number::toString, and the notation they are rendered
    in, plain digits below [10^21] and exponent notation from there on. *)

Section IntegerTexts.
Import JSString JSNumber FreshTrade.

(** *** Counting decimal digits *)

(** The text of a positive number starts with a digit that is not zero. *)
Lemma N_to_string_head (q : N) :
  (0 < q)%N ->
  exists c rest d,
    N_to_string q = String c rest
    /\ digitValue 10 c = Some d /\ (1 <= d)%N
    /\ allDigits rest = true.
Proof.
  intros Hq.
  destruct (to_uint_head q Hq) as [Hu Hnz].
  destruct (N_to_string_digits q) as [Hd _].
  rewrite N_to_string_NilEmpty in *.
  unfold Decimal.unorm in Hu. pose proof (nzhead_head (N.to_uint q)) as Hh.
  destruct (Decimal.nzhead (N.to_uint q)) eqn:E; try contradiction;
    try (now contradiction Hnz);
    rewrite <- Hu in *; cbn [NilEmpty.string_of_uint allDigits] in *;
    apply andb_prop in Hd; destruct Hd as [_ Hd];
    do 3 eexists; (split; [reflexivity|]);
    (split; [vm_compute; reflexivity|]); (split; [lia|exact Hd]).
Qed.

(** The count of decimal digits of a positive number. *)
Lemma Z_to_string_bounds (v : Z) :
  0 < v ->
  10 ^ (Z.of_nat (String.length (Z_to_string v)) - 1) <= v
  < 10 ^ Z.of_nat (String.length (Z_to_string v)).
Proof.
  intros Hv. rewrite Z_to_string_nonneg by lia.
  set (q := Z.to_N v).
  assert (Hq : (0 < q)%N) by (unfold q; lia).
  assert (Ev : v = Z.of_N q) by (unfold q; lia).
  destruct (N_to_string_digits q) as [Hd _].
  pose proof (decimalValue_bound _ Hd) as Hup.
  pose proof (decimalValue_N_to_string q) as Hval.
  destruct (N_to_string_head q Hq) as (c & rest & d & Es & Hc & Hd1 & Hr).
  split.
  - rewrite Es in *. cbn [String.length].
    unfold decimalValue in Hval. cbn [digitsValue] in Hval.
    rewrite Hc, (digitsValue_all _ rest Hr) in Hval.
    replace (Z.of_nat (S (String.length rest)) - 1)
      with (Z.of_N (N.of_nat (String.length rest))) by lia.
    change 10 with (Z.of_N 10). rewrite <- N2Z.inj_pow, Ev.
    apply N2Z.inj_le.
    set (P := (10 ^ N.of_nat (String.length rest))%N) in *.
    assert (0 < P)%N by (apply N.neq_0_lt_0, N.pow_nonzero; discriminate).
    cbv iota in Hval. nia.
  - rewrite Hval in Hup.
    replace (Z.of_nat (String.length (N_to_string q)))
      with (Z.of_N (N.of_nat (String.length (N_to_string q)))) by lia.
    change 10 with (Z.of_N 10). rewrite <- N2Z.inj_pow, Ev.
    apply N2Z.inj_lt. exact Hup.
Qed.

Lemma Z_to_string_length (v k : Z) :
  10 ^ (k - 1) <= v < 10 ^ k -> 0 < v ->
  Z.of_nat (String.length (Z_to_string v)) = k.
Proof.
  intros [Hlo Hhi] Hv.
  pose proof (Z_to_string_bounds v Hv) as [Blo Bhi].
  set (L := Z.of_nat (String.length (Z_to_string v))) in *.
  assert (HL : 0 <= L) by (unfold L; lia).
  assert (Hk : 0 < k).
  { destruct (Z.lt_ge_cases 0 k) as [|Hn]; [assumption|exfalso].
    destruct (Z.eq_dec k 0) as [->|]; [cbn in Hhi; lia|].
    rewrite (Z.pow_neg_r 10 k) in Hhi by lia. lia. }
  assert (0 < L).
  { destruct (Z.eq_dec L 0) as [E|]; [|lia]. rewrite E in Bhi. cbn in Bhi. lia. }
  assert (L - 1 < k) by (apply (Z.pow_lt_mono_r_iff 10); lia).
  assert (k - 1 < L) by (apply (Z.pow_lt_mono_r_iff 10); lia).
  lia.
Qed.

(** *** The digits of an integer

    For an integer [v] of [n0] digits the search for the shortest digits
    stops at [n0] digits at the latest, [v] itself being in the interval. *)

Section Digits.
Variables (iv : interval) (v n0 : Z).
Hypothesis HD : 0 < Dn iv.
Hypothesis HV : Vn iv = Dn iv * v.
Hypothesis HL : Ln iv < Vn iv.
Hypothesis HU : Vn iv < Un iv.
Hypothesis Hn0 : 10 ^ (n0 - 1) <= v < 10 ^ n0.

Lemma value_inInterval : inInterval iv v 1 = true.
Proof.
  unfold inInterval. rewrite <- (Z.mul_comm (Dn iv) v), <- HV.
  destruct (closed iv); apply andb_true_intro; split;
    first [apply Z.leb_le | apply Z.ltb_lt]; lia.
Qed.

Lemma leading_digits (k : Z) :
  1 <= k <= n0 ->
  10 ^ (k - 1) <= Vn iv / (Dn iv * 10 ^ (n0 - k)) < 10 ^ k.
Proof.
  intros Hk.
  assert (Hp : 0 < 10 ^ (n0 - k)) by (apply Z.pow_pos_nonneg; lia).
  rewrite HV, Z.div_mul_cancel_l by lia.
  assert (E1 : 10 ^ n0 = 10 ^ (n0 - k) * 10 ^ k)
    by (rewrite <- Z.pow_add_r by lia; f_equal; lia).
  assert (E2 : 10 ^ (n0 - 1) = 10 ^ (n0 - k) * 10 ^ (k - 1))
    by (rewrite <- Z.pow_add_r by lia; f_equal; lia).
  split.
  - apply Z.div_le_lower_bound; lia.
  - apply Z.div_lt_upper_bound; lia.
Qed.

Lemma shortest_integer (fuel : nat) (k : Z) :
  1 <= k <= n0 ->
  exists k',
    k <= k' <= n0
    /\ 10 ^ (k' - 1) <= fst (shortest fuel iv n0 k) < 10 ^ k'
    /\ (snd (shortest fuel iv n0 k) = n0
        \/ (snd (shortest fuel iv n0 k) = n0 + 1
            /\ inInterval iv (10 ^ n0) 1 = true)).
Proof.
  revert k. induction fuel as [|fuel IH]; intros k Hk.
  - cbn [shortest].
    assert (Hsc : (0 <=? n0 - k) = true) by (apply Z.leb_le; lia).
    rewrite Hsc. cbn [fst snd].
    exists k. split; [lia|]. split; [apply leading_digits; exact Hk|].
    left. reflexivity.
  - cbn [shortest].
    assert (Hsc : (0 <=? n0 - k) = true) by (apply Z.leb_le; lia).
    rewrite Hsc.
    pose proof (leading_digits k Hk) as Hlo.
    set (lo := Vn iv / (Dn iv * 10 ^ (n0 - k))) in *.
    set (okLo := inInterval iv (lo * 10 ^ (n0 - k)) 1).
    set (okHi := inInterval iv ((lo + 1) * 10 ^ (n0 - k)) 1).
    set (nearer := Z.abs _ <=? Z.abs _).
    assert (Hstop : okLo || okHi = false -> k < n0).
    { intros Hno. destruct (Z.eq_dec k n0) as [E|]; [exfalso|lia].
      assert (El : lo = v).
      { unfold lo. rewrite E, Z.sub_diag, Z.mul_1_r, HV, Z.mul_comm.
        apply Z.div_mul. lia. }
      assert (Ho : okLo = true).
      { unfold okLo. rewrite El, E, Z.sub_diag, Z.mul_1_r.
        exact value_inInterval. }
      rewrite Ho in Hno. discriminate. }
    assert (Hhi : (lo + 1 =? 10 ^ k) = true -> okHi = true ->
                  inInterval iv (10 ^ n0) 1 = true).
    { intros Eq Ho. apply Z.eqb_eq in Eq. unfold okHi in Ho.
      rewrite Eq, <- Z.pow_add_r in Ho by lia.
      replace (k + (n0 - k)) with n0 in Ho by lia. exact Ho. }
    assert (Hne : (lo =? 10 ^ k) = false) by (apply Z.eqb_neq; lia).
    destruct (okLo || okHi) eqn:Hok.
    + exists k. split; [lia|].
      set (s := if okLo && okHi then if nearer then lo else lo + 1
                else if okLo then lo else lo + 1).
      assert (Hs : s = lo \/ (s = lo + 1 /\ okHi = true)).
      { unfold s. destruct okLo, okHi; try discriminate Hok; cbn [andb];
          try destruct nearer; auto. }
      destruct (Z.eqb_spec s (10 ^ k)) as [Eq|Hneq]; cbn [fst snd].
      * split; [split; [lia|apply Z.pow_lt_mono_r; lia]|].
        right. split; [reflexivity|].
        destruct Hs as [El|[Eh Ho]]; [lia|].
        apply Hhi; [apply Z.eqb_eq; lia|exact Ho].
      * split; [destruct Hs as [->|[-> _]]; lia|left; reflexivity].
    + specialize (Hstop eq_refl).
      destruct (IH (k + 1)) as (k' & Hk' & Hs & Hn); [lia|].
      exists k'. split; [lia|]. split; assumption.
Qed.

End Digits.

(** *** Plain digits and exponent notation *)

Lemma isDigit_not_e (c : ascii) : isDigit c = true -> Ascii.eqb c "e" = false.
Proof.
  intros Hc. destruct c as [[] [] [] [] [] [] [] []];
    try discriminate Hc; reflexivity.
Qed.

Lemma allDigits_no_exponent (s : string) :
  allDigits s = true -> hasChar "e" s = false.
Proof.
  induction s as [|c s IH]; cbn [allDigits hasChar]; [reflexivity|].
  intros H. apply andb_prop in H. destruct H as [Hc Hs].
  now rewrite (isDigit_not_e c Hc), (IH Hs).
Qed.

Lemma beforeExponent_app (a x : string) :
  hasChar "e" a = false ->
  beforeExponent (a ++ String "e" x) = a
  /\ afterExponent (a ++ String "e" x) = Some x.
Proof.
  induction a as [|c a IH]; cbn [hasChar append beforeExponent afterExponent].
  - intros _. split; reflexivity.
  - intros H. apply orb_false_elim in H. destruct H as [Hc Ha].
    rewrite Hc. destruct (IH Ha) as [-> ->]. split; reflexivity.
Qed.

Lemma substring_all (a : string) : substring 0 (String.length a) a = a.
Proof.
  induction a as [|c a IH]; cbn [String.length substring]; [reflexivity|].
  now rewrite IH.
Qed.

(** A text that starts with a digit has no sign. *)
Lemma isExponentNotation_digit (c : ascii) (r : string) :
  isDigit c = true ->
  isExponentNotation (String c r) = unsignedExponentNotation (String c r).
Proof.
  intros Hc. destruct c as [[] [] [] [] [] [] [] []];
    try discriminate Hc; reflexivity.
Qed.

Lemma isIntegerLiteral_digit (c : ascii) (r : string) :
  isDigit c = true ->
  isIntegerLiteral (String c r) = allDigits (String c r).
Proof.
  intros Hc. destruct c as [[] [] [] [] [] [] [] []];
    try discriminate Hc; reflexivity.
Qed.

(** The text of a positive number starts with a digit. *)
Lemma Z_to_string_head (s : Z) :
  0 < s ->
  exists c rest,
    Z_to_string s = String c rest
    /\ isDigit c = true /\ allDigits rest = true.
Proof.
  intros Hs. rewrite Z_to_string_nonneg by lia.
  destruct (N_to_string_digits (Z.to_N s)) as [Hd _].
  destruct (N_to_string (Z.to_N s)) as [|c rest] eqn:E.
  - destruct (N_to_string_head (Z.to_N s)) as (c & rest & d & E' & _); [lia|].
    congruence.
  - exists c, rest. cbn [allDigits] in Hd. apply andb_prop in Hd.
    destruct Hd. auto.
Qed.

(** Digits that fill their exponent, up to 21, are padded with zeros. *)
Lemma renderDigits_plain (sign : bool) (s n : Z) :
  0 < s ->
  Z.of_nat (String.length (Z_to_string s)) <= n <= 21 ->
  isIntegerLiteral
    ((if sign then "-" else EmptyString) ++ renderDigits s n) = true.
Proof.
  intros Hs [Hk Hn]. unfold renderDigits.
  destruct (Z.leb_spec (Z.of_nat (String.length (Z_to_string s))) n); [|lia].
  destruct (Z.leb_spec n 21); [|lia]. cbn [andb].
  destruct (Z_to_string_head s Hs) as (c & rest & E & Hc & Hr).
  rewrite E. cbn [append].
  assert (Hall : allDigits
                   (String c (rest ++ zeros (Z.to_nat
                      (n - Z.of_nat (String.length (String c rest)))))) = true).
  { cbn [allDigits]. rewrite Hc, allDigits_app, Hr, allDigits_zeros.
    reflexivity. }
  destruct sign; cbn [append].
  - cbn [isIntegerLiteral truthy andb]. exact Hall.
  - rewrite isIntegerLiteral_digit by exact Hc. exact Hall.
Qed.

(** From an exponent of 22 on the text is in exponent notation. *)
Lemma renderDigits_exponent (sign : bool) (s n : Z) :
  0 < s -> 22 <= n ->
  isExponentNotation
    ((if sign then "-" else EmptyString) ++ renderDigits s n) = true.
Proof.
  intros Hs Hn. unfold renderDigits.
  destruct (Z.leb_spec n 21); [lia|]. rewrite !andb_false_r.
  destruct (Z.leb_spec n 0); [lia|]. rewrite andb_false_r.
  destruct (Z.ltb_spec (n - 1) 0); [lia|].
  rewrite Z.abs_eq by lia.
  destruct (Z_to_string_head s Hs) as (c & rest & E & Hc & Hr).
  destruct (N_to_string_digits (Z.to_N (n - 1))) as [Hed Het].
  rewrite <- Z_to_string_nonneg in Hed, Het by lia.
  set (ex := Z_to_string (n - 1)) in *.
  assert (Hex : match Some ("+" ++ ex) with
                | Some (String sg x) =>
                    (Ascii.eqb sg "+" || Ascii.eqb sg "-")
                    && truthy x && allDigits x
                | _ => false
                end = true).
  { cbn [append]. cbn [Ascii.eqb Bool.eqb orb andb]. now rewrite Het, Hed. }
  assert (Hu : unsignedExponentNotation
                 (if Z.of_nat (String.length (Z_to_string s)) =? 1
                  then Z_to_string s ++ "e" ++ "+" ++ ex
                  else substring 0 1 (Z_to_string s) ++ "."
                         ++ substring 1
                              (Z.to_nat
                                 (Z.of_nat (String.length (Z_to_string s)) - 1))
                              (Z_to_string s)
                         ++ "e" ++ "+" ++ ex) = true).
  { rewrite E. unfold unsignedExponentNotation.
    destruct rest as [|c2 rest].
    - cbn [String.length Z.of_nat Z.eqb Pos.eqb Pos.of_succ_nat].
      change ("e" ++ "+" ++ ex) with (String "e" ("+" ++ ex)).
      destruct (beforeExponent_app (String c EmptyString) ("+" ++ ex))
        as [-> ->].
      + cbn [hasChar]. now rewrite (isDigit_not_e c Hc).
      + rewrite Hc. exact Hex.
    - destruct (Z.eqb_spec (Z.of_nat (String.length (String c (String c2 rest)))) 1)
        as [Hone|_]; [cbn [String.length] in Hone; lia|].
      assert (E1 : substring 0 1 (String c (String c2 rest))
                   = String c EmptyString) by reflexivity.
      assert (E2 : substring 1
                     (Z.to_nat
                        (Z.of_nat (String.length (String c (String c2 rest)))
                         - 1))
                     (String c (String c2 rest))
                   = String c2 rest).
      { cbn [String.length].
        replace (Z.to_nat (Z.of_nat (S (S (String.length rest))) - 1))
          with (String.length (String c2 rest)) by (cbn [String.length]; lia).
        change (substring 1 (String.length (String c2 rest))
                  (String c (String c2 rest)))
          with (substring 0 (String.length (String c2 rest)) (String c2 rest)).
        apply substring_all. }
      rewrite E1, E2.
      change (String c EmptyString ++ "." ++ String c2 rest ++ "e" ++ "+" ++ ex)
        with (String c (String "." (String c2 rest)) ++ String "e" ("+" ++ ex)).
      destruct (beforeExponent_app (String c (String "." (String c2 rest)))
                  ("+" ++ ex)) as [-> ->].
      + cbn [hasChar]. cbn [allDigits] in Hr. apply andb_prop in Hr.
        destruct Hr as [Hc2 Hr].
        rewrite (isDigit_not_e c Hc), (isDigit_not_e c2 Hc2),
          (allDigits_no_exponent rest Hr).
        reflexivity.
      + rewrite Hc, Hr. cbn [truthy andb]. exact Hex. }
  destruct sign; cbn [append].
  - exact Hu.
  - rewrite E in Hu |- *.
    destruct (Z.of_nat (String.length (String c rest)) =? 1).
    + cbn [append] in Hu |- *.
      rewrite isExponentNotation_digit by exact Hc. exact Hu.
    + destruct rest; cbn [substring append] in Hu |- *;
        rewrite isExponentNotation_digit by exact Hc; exact Hu.
Qed.

(** Exponent notation is no integer literal. *)
Lemma afterExponent_hasChar (u : string) :
  afterExponent u <> None -> allDigits u = false.
Proof.
  induction u as [|c u IH]; cbn [afterExponent allDigits]; [congruence|].
  destruct (Ascii.eqb_spec c "e") as [->|_]; [reflexivity|].
  intros H. rewrite (IH H). apply andb_false_r.
Qed.

Lemma unsignedExponentNotation_digits (u : string) :
  unsignedExponentNotation u = true -> allDigits u = false.
Proof.
  unfold unsignedExponentNotation. intros H. apply andb_prop in H.
  destruct H as [_ H]. apply afterExponent_hasChar.
  destruct (afterExponent u); [discriminate|discriminate H].
Qed.

Lemma exponent_notation_no_literal (s : string) :
  isExponentNotation s = true -> isIntegerLiteral s = false.
Proof.
  destruct s as [|c r]; [discriminate|].
  destruct (Ascii.eqb_spec c "-") as [->|Hc].
  - cbn [isExponentNotation isIntegerLiteral]. intros H.
    rewrite (unsignedExponentNotation_digits r H). apply andb_false_r.
  - assert (E1 : isExponentNotation (String c r)
                 = unsignedExponentNotation (String c r))
      by (destruct c as [[] [] [] [] [] [] [] []]; try reflexivity;
          now contradiction Hc).
    assert (E2 : isIntegerLiteral (String c r)
                 = truthy (String c r) && allDigits (String c r))
      by (destruct c as [[] [] [] [] [] [] [] []]; try reflexivity;
          now contradiction Hc).
    rewrite E1, E2. intros H.
    rewrite (unsignedExponentNotation_digits _ H). reflexivity.
Qed.

(** *** Normalized numbers *)

(** Rounding a mantissa that its exponent does not leave short of bits. *)
Lemma binary_round_aux_normalized (sx : bool) (mx ex : Z) (lx : location) :
  0 <= mx ->
  ex <= Z.max (Zdigits2 mx + ex - 53) (-1074) ->
  normalized (binary_round_aux prec emax sx mx ex lx).
Proof.
  intros Hm Hal. unfold binary_round_aux.
  pose proof (shr_fexp_spec mx ex lx Hm) as H1.
  destruct (shr_fexp prec emax mx ex lx) as [r1 e1].
  destruct H1 as (He1 & (rem & _ & HM & Hrem & _) & _ & Hq1).
  assert (E1 : e1 = Z.max (Zdigits2 mx + ex - 53) (-1074)) by lia.
  clear He1.
  pose proof (Zdigits2_nonneg mx) as Hd0.
  assert (Hk : 0 <= e1 - ex) by lia.
  pose proof (Z.pow_pos_nonneg 2 (e1 - ex) ltac:(lia) Hk) as Hpos.
  (* above the least exponent the quotient has 53 bits *)
  assert (Hfull : -1074 < e1 -> 2 ^ 52 <= shr_m r1).
  { intros Hn.
    assert (Ek : e1 - ex = Zdigits2 mx - 53) by lia.
    assert (Hmx : 0 < mx).
    { destruct (Z.eq_dec mx 0) as [E0|]; [|lia].
      rewrite E0 in Ek. cbn in Ek. lia. }
    pose proof (Zdigits2_ge mx Hmx) as Hge.
    replace (Zdigits2 mx - 1) with (52 + (e1 - ex)) in Hge by lia.
    rewrite Z.pow_add_r in Hge by lia.
    destruct (Z.le_gt_cases (2 ^ 52) (shr_m r1)) as [|Hlt]; [assumption|].
    exfalso.
    assert ((shr_m r1 + 1) * 2 ^ (e1 - ex) <= 2 ^ 52 * 2 ^ (e1 - ex))
      by (apply Z.mul_le_mono_nonneg_r; lia).
    lia. }
  set (m1 := round_nearest_even (shr_m r1) (loc_of_shr_record r1)).
  assert (Hm1 : shr_m r1 <= m1 <= shr_m r1 + 1)
    by (unfold m1; destruct (round_nearest_even_cases r1) as [-> | [-> _]];
        lia).
  pose proof (shr_fexp_spec m1 e1 loc_Exact ltac:(lia)) as H2.
  destruct (shr_fexp prec emax m1 e1 loc_Exact) as [r2 e2].
  destruct H2 as (He2 & (rem2 & _ & HM2 & Hrem2 & _) & _ & Hq2).
  destruct (shr_m r2) as [|p|p] eqn:Ep; cbn [normalized]; [exact I| |exact I].
  change (emax - prec) with 971.
  destruct (e2 <=? 971); cbn [normalized]; [|exact I].
  intros Hn.
  destruct (Z.eq_dec m1 (2 ^ 53)) as [Ec|Hnc].
  - (* the carry: one more shift *)
    assert (Ed : Zdigits2 m1 = 54)
      by (rewrite Ec; reflexivity).
    assert (Ee : e2 - e1 = 1) by lia.
    rewrite Ee in HM2, Hrem2. rewrite Ec in HM2. change (2 ^ 1) with 2 in *.
    change (2 ^ 53) with 9007199254740992 in *.
    change (2 ^ 52) with 4503599627370496. lia.
  - assert (Hlt : m1 < 2 ^ 53) by lia.
    assert (Ed : Zdigits2 m1 <= 53).
    { destruct (Z.eq_dec m1 0) as [E0|]; [rewrite E0; cbn; lia|].
      apply Zdigits2_upper; lia. }
    assert (Ee : e2 = e1) by lia.
    rewrite Ee, Z.sub_diag in HM2, Hrem2. change (2 ^ 0) with 1 in *.
    assert (Zpos p = m1) by lia.
    rewrite Ee in Hn. specialize (Hfull Hn). lia.
Qed.

Lemma Zdigits2_shift (x j : Z) :
  0 < x -> 0 <= j -> Zdigits2 (x * 2 ^ j) = Zdigits2 x + j.
Proof.
  intros Hx Hj.
  pose proof (Zdigits2_lt x ltac:(lia)) as Hlt.
  pose proof (Zdigits2_ge x Hx) as Hge.
  pose proof (Zdigits2_nonneg x) as H0.
  assert (Hd : 0 < Zdigits2 x).
  { destruct (Z.eq_dec (Zdigits2 x) 0) as [E|]; [|lia].
    rewrite E in Hlt. cbn in Hlt. lia. }
  pose proof (Z.pow_pos_nonneg 2 j ltac:(lia) Hj) as Hpos.
  apply Zdigits2_unique; [|lia].
  replace (Zdigits2 x + j - 1) with (Zdigits2 x - 1 + j) by lia.
  rewrite !Z.pow_add_r by lia. split.
  - apply Z.mul_le_mono_nonneg_r; lia.
  - apply Z.mul_lt_mono_pos_r; lia.
Qed.

Lemma binary_round_normalized (sx : bool) (m : positive) (e : Z) :
  normalized (binary_round prec emax sx m e).
Proof.
  unfold binary_round. rewrite fexp_eq.
  pose proof (shl_align_spec m e
                (Z.max (Zpos (digits2_pos m) + e - 53) (-1074))) as H.
  destruct (shl_align m e _) as [mz ez].
  destruct H as [Hez Hmz].
  apply binary_round_aux_normalized; [lia|].
  rewrite Hmz, Zdigits2_shift by lia.
  change (Zdigits2 (Zpos m)) with (Zpos (digits2_pos m)). lia.
Qed.

Lemma binary_normalize_normalized (m e : Z) (szero : bool) :
  normalized (binary_normalize prec emax m e szero).
Proof.
  destruct m; cbn [binary_normalize]; [exact I| |];
    apply binary_round_normalized.
Qed.

Lemma roundDecimal_normalized (neg : bool) (m : N) (e10 : Z) :
  normalized (roundDecimal neg m e10).
Proof.
  unfold roundDecimal. destruct m as [|p]; [exact I|].
  destruct (Z.leb_spec 0 e10).
  - destruct (Zpos p * 10 ^ e10); try exact I. apply binary_round_normalized.
  - set (den := 10 ^ (- e10)).
    set (shift := Z.max 0 (64 + Z.log2 den - Z.log2 (Zpos p))).
    assert (Hden : 0 < den) by (apply Z.pow_pos_nonneg; lia).
    pose proof (Z.log2_spec den Hden) as [_ Hdu].
    pose proof (Z.log2_spec (Zpos p) ltac:(lia)) as [Hpl _].
    pose proof (Z.log2_nonneg den) as Hld.
    pose proof (Z.log2_nonneg (Zpos p)) as Hlp.
    assert (Hshift : 0 <= shift) by (unfold shift; lia).
    assert (Hnum : 2 ^ (64 + Z.log2 den) <= Zpos p * 2 ^ shift).
    { apply Z.le_trans with (2 ^ Z.log2 (Zpos p) * 2 ^ shift).
      - rewrite <- Z.pow_add_r by lia. apply Z.pow_le_mono_r; lia.
      - apply Z.mul_le_mono_nonneg_r; [apply Z.pow_nonneg; lia|exact Hpl]. }
    assert (Hq : 2 ^ 63 <= Zpos p * 2 ^ shift / den).
    { apply Z.div_le_lower_bound; [exact Hden|].
      replace (64 + Z.log2 den) with (Z.succ (Z.log2 den) + 63) in Hnum by lia.
      rewrite Z.pow_add_r in Hnum by lia.
      assert (den * 2 ^ 63 <= 2 ^ Z.succ (Z.log2 den) * 2 ^ 63)
        by (apply Z.mul_le_mono_nonneg_r; lia).
      lia. }
    apply binary_round_aux_normalized; [lia|].
    assert (64 <= Zdigits2 (Zpos p * 2 ^ shift / den))
      by (apply Zdigits2_lower; [lia|exact Hq]).
    lia.
Qed.

Lemma StringToNumber_normalized (val : string) :
  normalized (StringToNumber val).
Proof.
  unfold StringToNumber.
  destruct (negb (truthy (trim val))); [exact I|].
  destruct (parseNonDecimal (trim val)).
  - apply binary_normalize_normalized.
  - match goal with
    | |- context [let '(neg, u) := ?p in _] => destruct p as [neg u]
    end.
    destruct (String.eqb u "Infinity"); [exact I|].
    destruct (parseUnsignedDecimal u) as [[m e]|]; [|exact I].
    apply roundDecimal_normalized.
Qed.

Lemma add_five_normalized (x : number) : normalized (add x (ofZ 5)).
Proof.
  rewrite ofZ_5. unfold add.
  destruct x as [s|s| |s m e]; cbn [SFadd]; try exact I.
  - cbn. lia.
  - apply binary_normalize_normalized.
Qed.

(** *** Integers *)

(** An integer that is not safe has a positive exponent. *)
Lemma unsafe_integer_exponent (s : bool) (m : positive) (e : Z) :
  Zpos m < 2 ^ 53 ->
  2 ^ 53 <= Z.abs (truncate (S754_finite s m e)) ->
  1 <= e /\ Z.abs (truncate (S754_finite s m e)) = Zpos m * 2 ^ e.
Proof.
  intros Hm Hbig. cbn [truncate] in *.
  assert (Habs : forall z, 0 <= z -> Z.abs (cond_Zopp s z) = z)
    by (intros z Hz; destruct s; cbn [cond_Zopp]; lia).
  destruct (Z.leb_spec 0 e) as [He|He].
  - pose proof (Z.pow_pos_nonneg 2 e ltac:(lia) He) as Hpos.
    rewrite Habs in * by lia. split; [|reflexivity].
    destruct (Z.eq_dec e 0) as [->|]; [|lia].
    change (2 ^ 0) with 1 in Hbig. lia.
  - exfalso.
    pose proof (Z.pow_pos_nonneg 2 (- e) ltac:(lia) ltac:(lia)) as Hpos.
    assert (0 <= Zpos m / 2 ^ (- e)) by (apply Z.div_pos; lia).
    rewrite Habs in Hbig by lia.
    assert (Zpos m / 2 ^ (- e) <= Zpos m)
      by (apply Z.div_le_upper_bound; [lia|]; nia).
    lia.
Qed.

(** The double next to [10^21] is a unit in the last place away from it:
    [10^21] rounds to no number below it. *)
Lemma below_ten_to_21 (m : positive) (e : Z) :
  2 ^ 52 <= Zpos m -> 1 <= e ->
  Zpos m * 2 ^ e < 10 ^ 21 ->
  inInterval (roundingInterval m e) (10 ^ 21) 1 = false.
Proof.
  intros Hm He Hv.
  pose proof (Z.pow_pos_nonneg 2 e ltac:(lia) ltac:(lia)) as Hpos.
  assert (He17 : e <= 17).
  { assert (Hlt : 2 ^ (52 + e) < 2 ^ 70).
    { rewrite Z.pow_add_r by lia.
      apply Z.le_lt_trans with (Zpos m * 2 ^ e).
      - apply Z.mul_le_mono_nonneg_r; lia.
      - apply Z.lt_trans with (10 ^ 21); [exact Hv|reflexivity]. }
    apply Z.pow_lt_mono_r_iff in Hlt; lia. }
  assert (E : 10 ^ 21 = 2 ^ (21 - e) * 5 ^ 21 * 2 ^ e).
  { assert (E0 : 10 ^ 21 = 2 ^ 21 * 5 ^ 21) by (vm_compute; reflexivity).
    rewrite E0. replace 21 with (21 - e + e) at 1 by lia.
    rewrite Z.pow_add_r by lia. ring. }
  set (c := 2 ^ (21 - e) * 5 ^ 21) in *.
  assert (Hc : Zpos m + 1 <= c).
  { rewrite E in Hv. apply Z.mul_lt_mono_pos_r in Hv; lia. }
  assert (Hstep : (Zpos m + 1) * 2 ^ e <= c * 2 ^ e)
    by (apply Z.mul_le_mono_nonneg_r; lia).
  unfold inInterval, roundingInterval.
  destruct (Z.leb_spec 0 e); [|lia].
  cbn [closed Ln Un Dn]. rewrite E.
  set (u := 2 ^ e) in *.
  destruct (Z.even (Zpos m)); apply andb_false_intro2;
    [apply Z.leb_gt|apply Z.ltb_ge]; lia.
Qed.

(** [String(x)] for a number without fractional part: plain digits below
    [10^21], exponent notation from there on. *)
Lemma integer_text (x : number) :
  wellFormed x -> normalized x -> isInteger x = true ->
  (Z.abs (truncate x) < 10 ^ 21 ->
   isIntegerLiteral (NumberToString x) = true)
  /\ (10 ^ 21 <= Z.abs (truncate x) ->
      isExponentNotation (NumberToString x) = true).
Proof.
  intros Hwf Hnorm Hi.
  destruct x as [z|z| |z m e]; try discriminate Hi.
  - split; [reflexivity|]. cbn [truncate Z.abs].
    intros H. exfalso. revert H. apply Z.lt_nge. reflexivity.
  - cbn [wellFormed] in Hwf. destruct Hwf as [Hm _].
    cbn [normalized] in Hnorm.
    unfold NumberToString.
    destruct (isSafeInteger (S754_finite z m e)) eqn:Hsafe.
    + split; [intros _; apply Z_to_string_literal|].
      unfold isSafeInteger in Hsafe. apply andb_prop in Hsafe.
      destruct Hsafe as [_ Hlt]. apply Z.ltb_lt in Hlt.
      intros H. exfalso.
      assert (2 ^ 53 < 10 ^ 21) by reflexivity. lia.
    + unfold isSafeInteger in Hsafe. rewrite Hi in Hsafe. cbn [andb] in Hsafe.
      apply Z.ltb_ge in Hsafe.
      destruct (unsafe_integer_exponent z m e Hm Hsafe) as [He Ev].
      rewrite Ev. clear Hsafe Ev Hi.
      specialize (Hnorm ltac:(lia)).
      pose proof (Z.pow_pos_nonneg 2 e ltac:(lia) ltac:(lia)) as Hpos.
      set (v := Zpos m * 2 ^ e).
      assert (Hv : 0 < v) by (unfold v; lia).
      unfold positiveToString.
      set (iv := roundingInterval m e).
      assert (HD : Dn iv = 4)
        by (unfold iv, roundingInterval; destruct (Z.leb_spec 0 e);
            [reflexivity|lia]).
      assert (HV : Vn iv = Dn iv * v)
        by (unfold iv, roundingInterval, v; destruct (Z.leb_spec 0 e);
            [cbn [Vn Dn]; lia|lia]).
      assert (HL : Ln iv < Vn iv).
      { unfold iv, roundingInterval. destruct (Z.leb_spec 0 e); [|lia].
        cbn [Vn Ln]. destruct (_ && _); lia. }
      assert (HU : Vn iv < Un iv).
      { unfold iv, roundingInterval. destruct (Z.leb_spec 0 e); [|lia].
        cbn [Vn Un]. lia. }
      assert (En : decimalExponent iv
                   = Z.of_nat (String.length (Z_to_string v))).
      { unfold decimalExponent. rewrite HV, HD.
        destruct (Z.leb_spec 4 (4 * v)); [|lia].
        rewrite Z.mul_comm, Z.div_mul by lia. reflexivity. }
      rewrite En.
      pose proof (Z_to_string_bounds v Hv) as Hn0.
      set (n0 := Z.of_nat (String.length (Z_to_string v))) in *.
      assert (Hn1 : 1 <= n0).
      { assert (Hnn : 0 <= n0) by (unfold n0; lia). clearbody n0.
        destruct (Z.eq_dec n0 0) as [E0|]; [exfalso|lia].
        destruct Hn0 as [_ Hup]. rewrite E0 in Hup.
        change (10 ^ 0) with 1 in Hup. lia. }
      clearbody n0.
      destruct (shortest_integer iv v n0 ltac:(lia) HV HL HU Hn0 17 1
                  ltac:(lia))
        as (k' & Hk' & Hs & Hn).
      destruct (shortest 17 iv n0 1) as [s n]. cbn [fst snd] in Hs, Hn.
      assert (H10 : 0 < 10 ^ (k' - 1)) by (apply Z.pow_pos_nonneg; lia).
      assert (Hs0 : 0 < s) by lia.
      pose proof (Z_to_string_length s k' Hs Hs0) as Hlen.
      split.
      * intros Hsmall. apply renderDigits_plain; [exact Hs0|].
        rewrite Hlen.
        assert (Hn21 : n0 <= 21).
        { assert (Hlt : 10 ^ (n0 - 1) < 10 ^ 21) by lia.
          apply Z.pow_lt_mono_r_iff in Hlt; lia. }
        destruct Hn as [-> | [-> Hin]]; [lia|].
        destruct (Z.eq_dec n0 21) as [E21|]; [exfalso|lia].
        rewrite E21 in Hin. unfold iv in Hin.
        rewrite (below_ten_to_21 m e Hnorm He Hsmall) in Hin. discriminate.
      * intros Hbig. apply renderDigits_exponent; [exact Hs0|].
        assert (Hn22 : 21 < n0).
        { assert (Hlt : 10 ^ 21 < 10 ^ n0) by lia.
          apply Z.pow_lt_mono_r_iff in Hlt; lia. }
        destruct Hn as [-> | [-> _]]; lia.
Qed.

(** *** The range text *)

(** How [format] renders a finite side as parsing and adding leave it: an
    integer literal exactly when its magnitude is below [10^21]. *)
Lemma format_integer_side (n : number) :
  wellFormed n -> normalized n -> isInteger n = true ->
  (Z.abs (truncate n) < 10 ^ 21 -> isIntegerLiteral (format n) = true)
  /\ (10 ^ 21 <= Z.abs (truncate n) ->
      isExponentNotation (format n) = true
      /\ isIntegerLiteral (format n) = false).
Proof.
  intros Hwf Hnorm Hi. unfold format. rewrite Hi.
  destruct (integer_text n Hwf Hnorm Hi) as [Hplain Hexp].
  split; [exact Hplain|].
  intros Hbig. specialize (Hexp Hbig).
  split; [exact Hexp|apply exponent_notation_no_literal; exact Hexp].
Qed.

(** The rendering the specification words holds for a side exactly when
    its magnitude is below [10^21]. *)
Lemma format_as_specified (n : number) :
  wellFormed n -> normalized n -> isFinite n = true ->
  renderedAsSpecified n (format n) = (Z.abs (truncate n) <? 10 ^ 21).
Proof.
  intros Hwf Hnorm Hfin. unfold renderedAsSpecified.
  destruct (isInteger n) eqn:Hi.
  - destruct (format_integer_side n Hwf Hnorm Hi) as [Hplain Hexp].
    destruct (Z.ltb_spec (Z.abs (truncate n)) (10 ^ 21)) as [Hlt|Hge].
    + exact (Hplain Hlt).
    + exact (proj2 (Hexp Hge)).
  - destruct (format_side n Hwf Hfin) as [_ Hfrac].
    rewrite (proj2 (Hfrac Hi)). symmetry. apply Z.ltb_lt.
    apply fractional_is_small; assumption.
Qed.

Example range_text_above_2_53 :
  getRangeText "123456789012345678901"
  = Some "123456789012345680000 - 123456789012345680000".
Proof. vm_compute. reflexivity. Qed.

Example range_text_below_10_21 :
  getRangeText "999999999999999868928"
  = Some "999999999999999900000 - 999999999999999900000".
Proof. vm_compute. reflexivity. Qed.

Example range_text_1e22 : getRangeText "1e22" = Some "1e+22 - 1e+22".
Proof. vm_compute. reflexivity. Qed.

Example range_text_1e23 :
  getRangeText "123456789e15"
  = Some "1.23456789e+23 - 1.23456789e+23".
Proof. vm_compute. reflexivity. Qed.

(** C3, as amended.  For every input that is a finite number the range is
    "<low> - <high>", the high side being the low one plus five in double
    precision, itself finite.  A side without fractional part is rendered
    by [String(n)]: as an integer literal whenever its magnitude is below
    [10^21], its plain decimal digits when it is a safe integer, and in
    exponent notation, which is no integer literal, from [10^21] on.  Any
    other side is rendered with exactly two decimals.  So a side is
    rendered as the specification words exactly when its magnitude is
    below [10^21].  For an integer price [p] with [|p| + 5 < 2^53] the sum
    is exact and the range is "p - (p+5)" in plain digits. *)
Theorem range_text_of_a_finite_price (val : string) :
  let low := StringToNumber val in
  let high := add low (ofZ 5) in
  isFinite low = true ->
  getRangeText val = Some (format low ++ " - " ++ format high)
  /\ isFinite high = true
  /\ (forall n, n = low \/ n = high ->
      (isInteger n = true ->
       format n = NumberToString n
       /\ (isSafeInteger n = true ->
           format n = Z_to_string (truncate n)
           /\ isIntegerLiteral (format n) = true)
       /\ (Z.abs (truncate n) < 10 ^ 21 ->
           isIntegerLiteral (format n) = true)
       /\ (10 ^ 21 <= Z.abs (truncate n) ->
           isExponentNotation (format n) = true
           /\ isIntegerLiteral (format n) = false))
      /\ (isInteger n = false ->
          format n = toFixed 2 n /\ twoDecimals (format n) = true)
      /\ renderedAsSpecified n (format n)
         = (Z.abs (truncate n) <? 10 ^ 21))
  /\ (isInteger low = true ->
      Z.abs (truncate low) + 5 < 2 ^ 53 ->
      getRangeText val
      = Some (Z_to_string (truncate low) ++ " - "
                ++ Z_to_string (truncate low + 5))).
Proof.
  intros low high Hfin.
  pose proof (StringToNumber_wellFormed val) as Hwf. fold low in Hwf.
  pose proof (StringToNumber_normalized val) as Hnl. fold low in Hnl.
  pose proof (add_five_normalized low) as Hnh. fold high in Hnh.
  destruct (add_five_finite low Hwf Hfin) as [Hhf Hhw]. fold high in Hhf, Hhw.
  assert (Hrange : getRangeText val
                   = Some (format low ++ " - " ++ format high))
    by (unfold getRangeText; fold low; rewrite Hfin; reflexivity).
  assert (Hside : forall n,
             wellFormed n -> normalized n -> isFinite n = true ->
             (isInteger n = true ->
              format n = NumberToString n
              /\ (isSafeInteger n = true ->
                  format n = Z_to_string (truncate n)
                  /\ isIntegerLiteral (format n) = true)
              /\ (Z.abs (truncate n) < 10 ^ 21 ->
                  isIntegerLiteral (format n) = true)
              /\ (10 ^ 21 <= Z.abs (truncate n) ->
                  isExponentNotation (format n) = true
                  /\ isIntegerLiteral (format n) = false))
             /\ (isInteger n = false ->
                 format n = toFixed 2 n /\ twoDecimals (format n) = true)
             /\ renderedAsSpecified n (format n)
                = (Z.abs (truncate n) <? 10 ^ 21)).
  { intros n Hw Hn Hf.
    destruct (format_side n Hw Hf) as [Hint Hfrac].
    split; [|split; [exact Hfrac|apply format_as_specified; assumption]].
    intros Hi. destruct (Hint Hi) as [Hstr Hsafe].
    destruct (format_integer_side n Hw Hn Hi) as [Hplain Hexp].
    split; [exact Hstr|]. split; [exact Hsafe|].
    split; [exact Hplain|exact Hexp]. }
  split; [exact Hrange|]. split; [exact Hhf|]. split.
  - intros n [-> | ->]; apply Hside; assumption.
  - intros Hi Hsmall. rewrite Hrange.
    pose proof (integer_represents low Hi) as Hl.
    assert (H5 : represents (ofZ 5) 5) by (apply ofZ_exact; reflexivity).
    pose proof (add_exact low (ofZ 5) (truncate low) 5 Hl H5 ltac:(lia)) as Hh.
    apply represents_integer in Hh. fold high in Hh. destruct Hh as [Hhi Hht].
    destruct (format_side low Hwf Hfin) as [Hfl _].
    destruct (format_side high Hhw Hhf) as [Hfh _].
    destruct (Hfl Hi) as [_ Hsl]. destruct (Hfh Hhi) as [_ Hsh].
    assert (Sl : isSafeInteger low = true).
    { unfold isSafeInteger. rewrite Hi. apply Z.ltb_lt. lia. }
    assert (Sh : isSafeInteger high = true).
    { unfold isSafeInteger. rewrite Hhi, Hht. apply Z.ltb_lt. lia. }
    rewrite (proj1 (Hsl Sl)), (proj1 (Hsh Sh)), Hht. reflexivity.
Qed.

(** A fractional price: two decimals on both sides. *)
Lemma range_text_of_a_finite_price_witness :
  isFinite (StringToNumber "95.5") = true
  /\ getRangeText "95.5" = Some "95.50 - 100.50"
  /\ twoDecimals "95.50" = true.
Proof.
  split; [reflexivity|].
  destruct (range_text_of_a_finite_price "95.5" eq_refl)
    as (Hr & _ & Hs & _).
  split; [rewrite Hr; vm_compute; reflexivity|].
  destruct (Hs (StringToNumber "95.5") (or_introl eq_refl)) as (_ & Hf & _).
  destruct (Hf eq_refl) as [_ H2].
  exact H2.
Defined.

(** C3 as stated fails from [10^21] on: the price "1e21" is a finite
    number without fractional part, five more is the same number in double
    precision, and both sides of the range are in exponent notation, which
    is no integer literal. *)
Lemma range_text_exponent_notation :
  isFinite (StringToNumber "1e21") = true
  /\ isInteger (StringToNumber "1e21") = true
  /\ add (StringToNumber "1e21") (ofZ 5) = StringToNumber "1e21"
  /\ getRangeText "1e21" = Some ("1e+21" ++ " - " ++ "1e+21")
  /\ isIntegerLiteral "1e+21" = false
  /\ isExponentNotation "1e+21" = true
  /\ renderedAsSpecified (StringToNumber "1e21") "1e+21" = false.
Proof. repeat split; vm_compute; reflexivity. Qed.

End IntegerTexts.
